(** * Gaia hub: token issuance, write authorization and the request pipeline

    A shallow embedding of

    - [gaia.js/src/wire.js]        (client side: [makeLegacyAuthToken],
                                    [makeV1AuthToken], [makeAuthToken]),
    - [hub/src/server/server.js]   (class [HubServer]: [validate],
                                    [handleListFiles], [getReadURLPrefix],
                                    [handleRequest]),
    - the hub's HTTP routes        ([makeHttpServer]: store, list-files and
                                    revoke-all),
    - [equalConstTime]             (MAC comparison of the ECIES code),

    followed by the properties of the storage-gateway specification that
    concern them.

    Conventions.  A JavaScript string is a [string] (a sequence of code
    units below 256).  A function that can throw returns a [res]; a promise
    is represented by the way it settles ([promise]); calls to the
    collaborators of the hub (authentication module, proof checker, driver,
    logger) are recorded, in order, in a trace of [event]s. *)

From Stdlib Require Import String Ascii List ZArith Lia Bool Permutation.
From Stdlib Require Import DecimalString Decimal DecimalNat.
From Stdlib Require Strings.Byte.
Import ListNotations.
Set Warnings "-register-all".
Local Open Scope list_scope.
Local Open Scope string_scope.

(* ================================================================== *)
(** * Part I.  The embedding                                            *)
(* ================================================================== *)

(** ** JavaScript values and primitives used by the sources *)

Module Js.

(** The result of [parseInt]: [NaN], an infinity (the digits denote a value
    too large for a double), or the double nearest to the integer [z]. *)
Inductive jsnum :=
| NaN
| Infinity (negative : bool)
| Num (z : Z).

(** Integers of this magnitude or more round to an infinity: the largest
    finite double is [2^1024 - 2^971]. *)
Definition overflow_bound : Z := (2 ^ 1024 - 2 ^ 970)%Z.

Definition of_integer (z : Z) : jsnum :=
  if (Z.abs z <? overflow_bound)%Z then Num z else Infinity (z <? 0)%Z.

(** [Number.isFinite] *)
Definition Number_isFinite (n : jsnum) : bool :=
  match n with Num _ => true | _ => false end.

(** [n >= k] for an integer constant [k]; every comparison with [NaN] is
    false. *)
Definition ge_int (n : jsnum) (k : Z) : bool :=
  match n with
  | NaN => false
  | Infinity negative => negb negative
  | Num z => (k <=? z)%Z
  end.

(** White space skipped by [parseInt] (the code units below 256 of
    StrWhiteSpaceChar): TAB, LF, VT, FF, CR, SP, NBSP. *)
Definition isWhiteSpace (c : ascii) : bool :=
  let n := nat_of_ascii c in
  ((9 <=? n) && (n <=? 13))%nat || (n =? 32)%nat || (n =? 160)%nat.

Fixpoint trimStart (s : string) : string :=
  match s with
  | String c r => if isWhiteSpace c then trimStart r else s
  | EmptyString => EmptyString
  end.

(** The value of a digit: [0-9], [a-z] and [A-Z] stand for 0..35. *)
Definition digitValue (c : ascii) : option Z :=
  let n := Z.of_nat (nat_of_ascii c) in
  if ((48 <=? n) && (n <=? 57))%Z then Some (n - 48)%Z
  else if ((97 <=? n) && (n <=? 122))%Z then Some (n - 87)%Z
  else if ((65 <=? n) && (n <=? 90))%Z then Some (n - 55)%Z
  else None.

(** The longest prefix of [s] made of radix-[R] digits, read as an integer;
    [seen] tells whether a digit has been read, [acc] is the value so far. *)
Fixpoint parseDigits (R : Z) (s : string) (seen : bool) (acc : Z) : option Z :=
  match s with
  | EmptyString => if seen then Some acc else None
  | String c r =>
      match digitValue c with
      | Some d =>
          if (d <? R)%Z then parseDigits R r true (acc * R + d)%Z
          else if seen then Some acc else None
      | None => if seen then Some acc else None
      end
  end.

Definition hasHexPrefix (s : string) : bool :=
  prefix "0x" s || prefix "0X" s.

(** [parseInt(string, radix)] on a string; [radix = None] is a call with one
    argument.  Steps of the language definition: trim leading white space,
    read a sign, settle the radix (a [0x] prefix is stripped when the radix
    is absent or 16), read the digits. *)
Definition parseInt (inputString : string) (radix : option Z) : jsnum :=
  let S0 := trimStart inputString in
  let negative := prefix "-" S0 in
  let S1 := if prefix "-" S0 || prefix "+" S0
            then substring 1 (String.length S0 - 1) S0 else S0 in
  let R0 := match radix with Some r => r | None => 0%Z end in
  if negb (R0 =? 0)%Z && ((R0 <? 2)%Z || (36 <? R0)%Z) then NaN
  else
    let stripPrefix := (R0 =? 0)%Z || (R0 =? 16)%Z in
    let R1 := if (R0 =? 0)%Z then 10%Z else R0 in
    let hex := stripPrefix && hasHexPrefix S1 in
    let S2 := if hex then substring 2 (String.length S1 - 2) S1 else S1 in
    let R := if hex then 16%Z else R1 in
    match parseDigits R S2 false 0%Z with
    | None => NaN
    | Some mathInt => of_integer (if negative then (- mathInt)%Z else mathInt)
    end.

(** [s.slice(n)] for [n >= 0]. *)
Definition slice_from (n : nat) (s : string) : string :=
  substring n (String.length s - n) s.

(** [s.slice(0, n)] for [n >= 0]. *)
Definition slice_to (n : nat) (s : string) : string :=
  substring 0 (Nat.min n (String.length s)) s.

(** [s.startsWith(p)] *)
Definition startsWith (s p : string) : bool := prefix p s.

(** [s.endsWith(p)] *)
Definition endsWith (s p : string) : bool :=
  (String.length p <=? String.length s)%nat
  && (substring (String.length s - String.length p) (String.length p) s =? p).

(** Doubles that the sources never inspect bit by bit (JSON numbers, the
    clock) are kept abstract, together with the two places where a string
    is converted by [ToNumber]. *)
Class Numbers := {
  number : Type;
  (** [String(n)] *)
  Number_toString : number -> string;
  (** [!!n]: false for [0], [-0] and [NaN] *)
  Number_toBoolean : number -> bool;
  (** [s > k] for a string [s] and an integer constant [k]: the comparison
      of [ToNumber(s)] with [k] *)
  String_gt : string -> Z -> bool
}.

Section Json.
Context `{Numbers}.

(** A value produced by [JSON.parse]. *)
Inductive json :=
| JNull
| JBool (b : bool)
| JNumber (n : number)
| JString (s : string)
| JArray (elements : list json)
| JObject (members : list (string * json)).

(** [!!v] *)
Definition ToBoolean (v : json) : bool :=
  match v with
  | JNull => false
  | JBool b => b
  | JNumber n => Number_toBoolean n
  | JString s => negb (s =? "")
  | JArray _ | JObject _ => true
  end.

(** [String(v)]: an array joins the strings of its elements with commas,
    [null] elements giving the empty string. *)
Fixpoint ToString (v : json) : string :=
  match v with
  | JNull => "null"
  | JBool true => "true"
  | JBool false => "false"
  | JNumber n => Number_toString n
  | JString s => s
  | JArray l =>
      String.concat "," (map (fun x => match x with JNull => "" | _ => ToString x end) l)
  | JObject _ => "[object Object]"
  end.

(** The member of an object under [key]: of two members with one key
    [JSON.parse] keeps the later. *)
Fixpoint member (key : string) (members : list (string * json)) : option json :=
  match members with
  | [] => None
  | (k, v) :: rest =>
      match member key rest with
      | Some v' => Some v'
      | None => if k =? key then Some v else None
      end
  end.

(** [v.key] for a property name that is not an array index nor [length];
    [None] is [undefined]. *)
Definition get (v : json) (key : string) : option json :=
  match v with
  | JObject ms => member key ms
  | _ => None
  end.

(** [v[i]] for an array index [i]: the element of an array, the member
    named by the digits of [i] of an object, the one-character string of a
    string; [inl tt] when [v] is [null], where reading a property is a
    [TypeError]. *)
Definition index (v : json) (i : nat) : unit + option json :=
  match v with
  | JNull => inl tt
  | JArray l => inr (nth_error l i)
  | JObject ms => inr (member (NilZero.string_of_uint (Nat.to_uint i)) ms)
  | JString s =>
      inr (match String.get i s with
           | Some c => Some (JString (String c EmptyString))
           | None => None
           end)
  | JBool _ | JNumber _ => inr None
  end.

(** [x === s] for a string constant [s] *)
Definition strictEqString (x : option json) (s : string) : bool :=
  match x with
  | Some (JString t) => t =? s
  | _ => false
  end.

End Json.

Arguments json {_}.

End Js.

(** ** Errors, results and traces *)

Module Errors.

(** Modelled from the spec: the module [./errors] of the hub is not part of
    the sources at hand; its classes are those of the error taxonomy
    ([ValidationError], [AuthTokenTimestampValidationError], [BadPathError],
    [NotEnoughProofError]), each a direct subclass of [Error] whose [name]
    is the name of its class.  [Error] and [TypeError] are the built-in
    classes. *)
Inductive error :=
| Error (message : string)
| TypeError (message : string)
| ValidationError (message : string)
| AuthTokenTimestampValidationError (message : string)
| BadPathError (message : string)
| NotEnoughProofError (message : string).

(** [err.message] *)
Definition message (e : error) : string :=
  match e with
  | Error m | TypeError m | ValidationError m
  | AuthTokenTimestampValidationError m | BadPathError m
  | NotEnoughProofError m => m
  end.

(** [err.name] *)
Definition name (e : error) : string :=
  match e with
  | Error _ => "Error"
  | TypeError _ => "TypeError"
  | ValidationError _ => "ValidationError"
  | AuthTokenTimestampValidationError _ => "AuthTokenTimestampValidationError"
  | BadPathError _ => "BadPathError"
  | NotEnoughProofError _ => "NotEnoughProofError"
  end.

(** [err instanceof errors.ValidationError] and its siblings *)
Definition isValidationError (e : error) : bool :=
  match e with ValidationError _ => true | _ => false end.

Definition isAuthTokenTimestampValidationError (e : error) : bool :=
  match e with AuthTokenTimestampValidationError _ => true | _ => false end.

Definition isBadPathError (e : error) : bool :=
  match e with BadPathError _ => true | _ => false end.

Definition isNotEnoughProofError (e : error) : bool :=
  match e with NotEnoughProofError _ => true | _ => false end.

(** The outcome of a call: it returns a value or throws. *)
Inductive res (A : Type) :=
| Return (a : A)
| Throw (e : error).
Arguments Return {A} a.
Arguments Throw {A} e.

(** The way a promise settles. *)
Inductive promise (A : Type) :=
| Resolved (a : A)
| Rejected (e : error).
Arguments Resolved {A} a.
Arguments Rejected {A} e.

End Errors.
Export Errors.

(** ** Client side: [gaia.js/src/wire.js] *)

Module Wire.
Import Js.

(** [60 * 60 * 24 * 31 * 4] *)
Definition FOUR_MONTH_SECONDS : Z := 60 * 60 * 24 * 31 * 4.

(** The fixed marker and the sentinel phrase of a legacy challenge. *)
Definition LEGACY_MARKER : string := "gaiahub".
Definition LEGACY_SENTINEL : string := "blockstack_storage_please_sign".

(** The payload signed by [makeV1AuthToken]; an absent optional argument is
    [None] ([undefined]). *)
Record V1Payload `{Numbers} := {
  gaiaChallenge : string;
  iss : string;
  exp : number;
  associationToken : option string;
  hubUrl : option string;
  salt : string
}.

(** What [wire.js] imports ([JSON], [Buffer], [crypto], bitcoinjs-lib,
    jsontokens, blockstack) and the two inputs it reads from its
    environment (random bytes, the clock). *)
Class Imports `{Numbers} := {
  (** [JSON.parse]; [None] when it throws *)
  JSON_parse : string -> option json;
  (** [JSON.stringify] *)
  JSON_stringify : json -> string;
  (** [Buffer.from(s).toString('base64')] *)
  base64 : string -> string;
  ECPair : Type;
  digest : Type;
  (** [hexStringToECPair] *)
  hexStringToECPair : string -> res ECPair;
  (** [bitcoin.crypto.sha256] *)
  sha256 : string -> digest;
  (** [signer.sign(digest).toDER().toString('hex')] *)
  signDERHex : ECPair -> digest -> string;
  (** [getPublicKeyFromPrivate] *)
  getPublicKeyFromPrivate : string -> res string;
  (** [new TokenSigner('ES256K', secretKey).sign(payload)] *)
  TokenSigner_sign : string -> V1Payload -> res string;
  (** [crypto.randomBytes(16).toString('hex')] *)
  randomSalt : string;
  (** [k + (new Date()/1000)] *)
  secondsFromNow : Z -> number
}.

Section WithImports.
Context `{Imports}.

(** [makeLegacyAuthToken(challengeText, secretKey)] *)
Definition makeLegacyAuthToken (challengeText secretKey : string) : res string :=
  let secretKey := slice_to 64 secretKey in
  match JSON_parse challengeText with
  | None => Throw (Error "Failed in parsing legacy challenge text from the gaia hub.")
  | Some parsedChallenge =>
      match index parsedChallenge 0 with
      | inl _ => Throw (TypeError "Cannot read properties of null")
      | inr first =>
          if strictEqString first LEGACY_MARKER
             && match index parsedChallenge 3 with
                | inr fourth => strictEqString fourth LEGACY_SENTINEL
                | inl _ => false
                end
          then
            match hexStringToECPair (secretKey ++ "01") with
            | Throw e => Throw e
            | Return signer =>
                let digest := sha256 challengeText in
                let signature := signDERHex signer digest in
                match getPublicKeyFromPrivate secretKey with
                | Throw e => Throw e
                | Return publickey =>
                    let token :=
                      base64 (JSON_stringify
                                (JObject [("publickey", JString publickey);
                                          ("signature", JString signature)])) in
                    Return token
                end
            end
          else
            Throw (Error "Failed to connect to legacy gaia hub. If you operate this hub, please update.")
      end
  end.

(** [makeV1AuthToken(secretKey, challengeText, associationToken, hubUrl)] *)
Definition makeV1AuthToken (secretKey challengeText : string)
    (associationToken hubUrl : option string) : res string :=
  let secretKey := slice_to 64 secretKey in
  match getPublicKeyFromPrivate secretKey with
  | Throw e => Throw e
  | Return publicKeyHex =>
      let salt := randomSalt in
      let payload :=
        {| gaiaChallenge := challengeText;
           iss := publicKeyHex;
           exp := secondsFromNow FOUR_MONTH_SECONDS;
           associationToken := associationToken;
           hubUrl := hubUrl;
           salt := salt |} in
      match TokenSigner_sign secretKey payload with
      | Throw e => Throw e
      | Return token => Return ("v1:" ++ token)
      end
  end.

(** The hub-info object served by [/hub_info]; [latest_auth_version] is
    [None] when the hub does not report one. *)
Record HubInfo := {
  challenge_text : string;
  latest_auth_version : option string;
  read_url_prefix : string
}.

(** [hubInfo.latest_auth_version
      && parseInt(hubInfo.latest_auth_version.slice(1), 10) >= 1],
    as the condition of [if (!handlesV1Auth)] reads it. *)
Definition handlesV1Auth (hubInfo : HubInfo) : bool :=
  match latest_auth_version hubInfo with
  | None => false
  | Some v =>
      negb (v =? "") && ge_int (parseInt (slice_from 1 v) (Some 10%Z)) 1
  end.

(** [makeAuthToken(hubInfo, signerKeyHex, hubUrl, associationToken)] *)
Definition makeAuthToken (hubInfo : HubInfo) (signerKeyHex hubUrl : string)
    (associationToken : option string) : res string :=
  let challengeText := challenge_text hubInfo in
  if negb (handlesV1Auth hubInfo)
  then makeLegacyAuthToken challengeText signerKeyHex
  else makeV1AuthToken signerKeyHex challengeText associationToken (Some hubUrl).

End WithImports.

End Wire.

(** ** Traces of collaborator calls *)

Module Trace.
Import Js.

(** The bytes a request body will yield. *)
Definition Readable := list Byte.byte.

(** An optional request header, as [handleRequest] tests it. *)
Inductive header :=
| Undefined
| Null
| Str (s : string).

(** [String(h)], the conversion [parseInt] applies to its argument *)
Definition header_toString (h : header) : string :=
  match h with
  | Undefined => "undefined"
  | Null => "null"
  | Str s => s
  end.

(** [req.headers], with the three fields the hub reads *)
Record Headers := {
  content_type : header;
  content_length : header;
  authorization : string
}.

(** The argument of [driver.performWrite] *)
Record WriteCommand := {
  storageTopLevel : string;
  path : string;
  stream : Readable;
  contentType : string;
  contentLength : jsnum
}.

(** A call to a collaborator of the hub. *)
Inductive event :=
| CallValidateAuthorizationHeader (authHeader address : string)
| CallGetAuthenticationScopes (authHeader : string)
| CallDriverGetReadURLPrefix
| CallCheckProofs (address path readURLPrefix : string)
| CallPerformWrite (cmd : WriteCommand)
| CallListFiles (address : string) (page : option string)
| CallHandleAuthBump (address : string) (oldestValidTimestamp : jsnum)
| CallLoggerError (err : error).

(** A computation that records the calls it makes. *)
Definition traced (A : Type) : Type := list event * A.

Definition tret {A} (a : A) : traced A := ([], a).

Definition call {A} (ev : event) (result : A) : traced A := ([ev], result).

Definition tbind {A B} (m : traced A) (f : A -> traced B) : traced B :=
  let (t, a) := m in
  let (t', b) := f a in
  ((t ++ t')%list, b).

(** Sequencing of calls that may throw: a [Throw] skips what follows. *)
Definition bind {A B} (m : traced (res A)) (f : A -> traced (res B))
  : traced (res B) :=
  tbind m (fun r => match r with
                    | Return a => f a
                    | Throw e => tret (Throw e)
                    end).

(** [p.then(f)]: the callback runs only when [p] is resolved. *)
Definition then_ {A B} (p : traced (promise A)) (f : A -> traced (promise B))
  : traced (promise B) :=
  tbind p (fun r => match r with
                    | Resolved a => f a
                    | Rejected e => tret (Rejected e)
                    end).

Definition throw {A} (e : error) : traced (res A) := tret (Throw e).
Definition ret {A} (a : A) : traced (res A) := tret (Return a).

(** The calls of a computation, and its outcome. *)
Definition calls {A} (m : traced A) : list event := fst m.
Definition outcome {A} (m : traced A) : A := snd m.

End Trace.

Declare Scope js_scope.
Delimit Scope js_scope with js.
Notation "x <- m ;; k" := (Trace.bind m (fun x => k))
  (at level 61, m at next level, right associativity) : js_scope.
Notation "x <~ m ;; k" := (Trace.tbind m (fun x => k))
  (at level 61, m at next level, right associativity) : js_scope.

(** ** The hub: [hub/src/server/server.js] *)

Module Hub.
Import Js Trace.
Local Open Scope js_scope.

(** An entry of the scopes of a token: [{ scope, domain }] *)
Record AuthScope := {
  scope : string;
  domain : string
}.

Record ListFilesResult := {
  entries : list string;
  page : option string
}.

(** The storage driver ([./driverModel]) *)
Record DriverModel := {
  driver_getReadURLPrefix : string;
  performWrite : WriteCommand -> promise string;
  listFiles : string -> option string -> promise ListFilesResult
}.

(** The proof checker *)
Record ProofChecker := {
  checkProofs : string -> string -> string -> promise unit
}.

(** The two functions imported from [./authentication], a module that is
    not part of the sources at hand:
    [validateAuthorizationHeader(authHeader, serverName, address,
    requireCorrectHubUrl, validHubUrls, blacklist)] returns the signing
    address or throws; [getAuthenticationScopes(authHeader)] returns the
    scopes of the token or throws. *)
Class Authentication := {
  validateAuthorizationHeader :
    string -> string -> string -> bool -> option (list string) ->
    list (string * bool) -> res string;
  getAuthenticationScopes : string -> res (list AuthScope)
}.

(** The configuration object of the constructor; an absent or [null] field
    is [None]. *)
Record Config := {
  cfg_whitelist : option (list string);
  cfg_serverName : string;
  cfg_tokenBlacklist : option (list string);
  cfg_readURL : option string;
  cfg_requireCorrectHubUrl : option bool;
  cfg_validHubUrls : option (list string)
}.

Record HubServer := {
  driver : DriverModel;
  proofChecker : ProofChecker;
  whitelist : option (list string);
  blacklist : list (string * bool);
  serverName : string;
  readURL : option string;
  requireCorrectHubUrl : bool;
  validHubUrls : option (list string)
}.

(** [map.set(k, v)] on a [Map] kept as an association list *)
Fixpoint Map_set (m : list (string * bool)) (k : string) (v : bool)
  : list (string * bool) :=
  match m with
  | [] => [(k, v)]
  | (k', v') :: rest =>
      if k' =? k then (k', v) :: rest else (k', v') :: Map_set rest k v
  end.

(** [new HubServer(driver, proofChecker, config)] *)
Definition constructor (driver : DriverModel) (proofChecker : ProofChecker)
    (config : Config) : HubServer :=
  {| driver := driver;
     proofChecker := proofChecker;
     whitelist := cfg_whitelist config;
     blacklist :=
       match cfg_tokenBlacklist config with
       | Some l => fold_left (fun m x => Map_set m x true) l []
       | None => []
       end;
     serverName := cfg_serverName config;
     validHubUrls := cfg_validHubUrls config;
     readURL := cfg_readURL config;
     requireCorrectHubUrl :=
       match cfg_requireCorrectHubUrl config with
       | Some b => b
       | None => false
       end |}.

(** [array.includes(x)] on strings *)
Definition includes (l : list string) (x : string) : bool :=
  existsb (fun y => y =? x) l.

(** [!!array.find(pred)] on an array of strings: [find] returns the first
    element that satisfies [pred], or [undefined]; [!!] of the empty string
    and of [undefined] is [false]. *)
Definition found (pred : string -> bool) (l : list string) : bool :=
  match find pred l with
  | Some p => negb (p =? "")
  | None => false
  end.

(** The loop of [handleRequest] over the scopes, pushing domains on
    [writePrefixes] and [writePaths]. *)
Fixpoint collectScopes (scopes : list AuthScope)
    (writePrefixes writePaths : list string) : list string * list string :=
  match scopes with
  | [] => (writePrefixes, writePaths)
  | s :: rest =>
      if scope s =? "putFilePrefix"
      then collectScopes rest (writePrefixes ++ [domain s])%list writePaths
      else if scope s =? "putFile"
      then collectScopes rest writePrefixes (writePaths ++ [domain s])%list
      else collectScopes rest writePrefixes writePaths
  end.

Section WithAuthentication.
Context `{Authentication}.

(** [validate(address, requestHeaders)]: throws on a validation error,
    otherwise returns void. *)
Definition validate (this : HubServer) (address : string)
    (requestHeaders : Headers) : traced (res unit) :=
  signingAddress <-
    call (CallValidateAuthorizationHeader (authorization requestHeaders) address)
         (validateAuthorizationHeader (authorization requestHeaders)
            (serverName this) address (requireCorrectHubUrl this)
            (validHubUrls this) (blacklist this)) ;;
  match whitelist this with
  | Some wl =>
      if negb (includes wl signingAddress)
      then throw (ValidationError
                    ("Address " ++ signingAddress ++ " not authorized for writes"))
      else ret tt
  | None => ret tt
  end.

(** [handleListFiles(address, page, requestHeaders)] *)
Definition handleListFiles (this : HubServer) (address : string)
    (page : option string) (requestHeaders : Headers)
  : traced (res (promise ListFilesResult)) :=
  _ <- validate this address requestHeaders ;;
  r <~ call (CallListFiles address page) (listFiles (driver this) address page) ;;
  ret r.

(** [getReadURLPrefix()]: the configured read URL when it is a non-empty
    string, the driver's prefix otherwise. *)
Definition getReadURLPrefix (this : HubServer) : traced string :=
  match readURL this with
  | Some r =>
      if negb (r =? "") then tret r
      else call CallDriverGetReadURLPrefix (driver_getReadURLPrefix (driver this))
  | None => call CallDriverGetReadURLPrefix (driver_getReadURLPrefix (driver this))
  end.

(** The check of [path] against the scopes of the token. *)
Definition checkScopes (address path : string) (scopes : list AuthScope)
  : traced (res unit) :=
  let (writePrefixes, writePaths) := collectScopes scopes [] [] in
  if (0 <? List.length writePrefixes)%nat || (0 <? List.length writePaths)%nat
  then
    let match_ := found (fun p => startsWith path p) writePrefixes in
    let match_ :=
      if negb match_ then found (fun p => path =? p) writePaths else match_ in
    if negb match_
    then throw (ValidationError
                  ("Address " ++ address ++ " not authorized to write to "
                   ++ path ++ " by scopes"))
    else ret tt
  else ret tt.

(** The last callback of the promise chain of [handleRequest]. *)
Definition rewriteReadURL (this : HubServer) (readURL : string)
  : traced (promise string) :=
  driverPrefix <~
    call CallDriverGetReadURLPrefix (driver_getReadURLPrefix (driver this)) ;;
  readURLPrefix <~ getReadURLPrefix this ;;
  if negb (readURLPrefix =? driverPrefix) && startsWith readURL driverPrefix
  then
    let postFix := slice_from (String.length driverPrefix) readURL in
    tret (Resolved (readURLPrefix ++ postFix))
  else tret (Resolved readURL).

(** [{ storageTopLevel: address, path, stream, contentType,
       contentLength: parseInt(requestHeaders['content-length']) }] *)
Definition makeWriteCommand (address path : string) (stream : Readable)
    (contentType : string) (requestHeaders : Headers) : WriteCommand :=
  {| storageTopLevel := address;
     path := path;
     stream := stream;
     contentType := contentType;
     contentLength :=
       parseInt (header_toString (content_length requestHeaders)) None |}.

(** [handleRequest(address, path, requestHeaders, stream)] *)
Definition handleRequest (this : HubServer) (address path : string)
    (requestHeaders : Headers) (stream : Readable)
  : traced (res (promise string)) :=
  _ <- validate this address requestHeaders ;;
  let contentType :=
    match content_type requestHeaders with
    | Null | Undefined => "application/octet-stream"
    | Str s => s
    end in
  scopes <-
    call (CallGetAuthenticationScopes (authorization requestHeaders))
         (getAuthenticationScopes (authorization requestHeaders)) ;;
  _ <- checkScopes address path scopes ;;
  let writeCommand :=
    makeWriteCommand address path stream contentType requestHeaders in
  readURLPrefix <~ getReadURLPrefix this ;;
  p <~ then_
         (then_
            (call (CallCheckProofs address path readURLPrefix)
                  (checkProofs (proofChecker this) address path readURLPrefix))
            (fun _ =>
               call (CallPerformWrite writeCommand)
                    (performWrite (driver this) writeCommand)))
         (fun readURL => rewriteReadURL this readURL) ;;
  ret p.

End WithAuthentication.

End Hub.

(** ** The HTTP routes of the hub: [makeHttpServer] *)

Module Http.
Import Js Trace Hub.
Local Open Scope js_scope.

(** What a route reads of an express request: the two groups captured by
    the route's regular expression, the headers, the body as parsed by
    [express.json()] ([None] when [req.body] is [undefined]) and the byte
    stream. *)
Record Request `{Numbers} := {
  params0 : string;
  params1 : string;
  headers : Headers;
  body : option json;
  req_stream : Readable
}.

(** [writeResponse(res, data, statusCode)]: the status and the object that
    is serialised as the JSON body. *)
Record Response `{Numbers} := {
  statusCode : Z;
  data : json
}.

(** A route callback either writes a response or lets an exception
    escape to the framework. *)
Inductive RouteResult `{Numbers} :=
| Responded (r : Response)
| Uncaught (e : error).

(** [server.handleAuthBump], which the revoke-all route calls and the
    sources at hand do not define: it may throw or return a promise. *)
Class AuthBump := {
  handleAuthBump : string -> jsnum -> Headers -> res (promise unit)
}.

Section Routes.
Context `{Numbers} `{Authentication} `{AuthBump}.

Definition writeResponse (data : json) (statusCode : Z) : Response :=
  {| statusCode := statusCode; data := data |}.

(** [{ message: err.message, error: err.name }] *)
Definition errorBody (err : error) : json :=
  JObject [("message", JString (message err)); ("error", JString (name err))].

(** The [.catch] callback of the store route, after [logger.error(err)]. *)
Definition storeCatch (err : error) : Response :=
  if isValidationError err then writeResponse (errorBody err) 401
  else if isAuthTokenTimestampValidationError err
  then writeResponse (errorBody err) 401
  else if isBadPathError err then writeResponse (errorBody err) 403
  else if isNotEnoughProofError err then writeResponse (errorBody err) 402
  else writeResponse (JObject [("message", JString "Server Error")]) 500.

(** The [.then(...).catch(...)] of the store route on the settled promise
    of [handleRequest]. *)
Definition storeSettled (p : promise string) : traced Response :=
  match p with
  | Resolved publicURL =>
      tret (writeResponse (JObject [("publicURL", JString publicURL)]) 202)
  | Rejected err =>
      _ <~ call (CallLoggerError err) tt ;;
      tret (storeCatch err)
  end.

(** [app.post(/^\/store\/([a-zA-Z0-9]+)\/(.+)/, ...)] *)
Definition storeRoute (server : HubServer) (req : Request) : traced RouteResult :=
  let filename := params1 req in
  let filename :=
    if endsWith filename "/"
    then substring 0 (String.length filename - 1) filename
    else filename in
  let address := params0 req in
  r <~ handleRequest server address filename (headers req) (req_stream req) ;;
  match r with
  | Throw e => tret (Uncaught e)
  | Return p =>
      response <~ storeSettled p ;;
      tret (Responded response)
  end.

(** [req.headers['content-length'] > 4096] *)
Definition tooLong (h : header) : bool :=
  match h with
  | Str s => String_gt s 4096
  | Undefined | Null => false
  end.

(** [!x] for a property that may be [undefined] *)
Definition not_ (x : option json) : bool :=
  match x with
  | Some v => negb (ToBoolean v)
  | None => true
  end.

(** [req.body.oldestValidTimestamp] *)
Definition oldestValidTimestampOf (body : option json) : option json :=
  match body with
  | Some b => get b "oldestValidTimestamp"
  | None => None
  end.

(** The [.catch] callback of the revoke-all route. *)
Definition revokeCatch (err : error) : Response :=
  if isValidationError err then writeResponse (errorBody err) 401
  else if isBadPathError err then writeResponse (errorBody err) 403
  else writeResponse (JObject [("message", JString "Server Error")]) 500.

(** [app.post(/^\/revoke-all\/([a-zA-Z0-9]+)\/?/, express.json(), ...)] *)
Definition revokeAllRoute (req : Request) : traced RouteResult :=
  if tooLong (content_length (headers req))
  then tret (Responded
               (writeResponse (JObject [("message", JString "Invalid JSON: too long")]) 400))
  else if not_ (body req) || not_ (oldestValidTimestampOf (body req))
  then tret (Responded
               (writeResponse
                  (JObject [("message",
                             JString "Invalid JSON: missing oldestValidTimestamp")])
                  400))
  else
    let address := params0 req in
    let oldestValidTimestamp :=
      match oldestValidTimestampOf (body req) with
      | Some v => parseInt (ToString v) None
      | None => NaN
      end in
    if negb (Number_isFinite oldestValidTimestamp)
    then tret (Responded
                 (writeResponse
                    (JObject [("message",
                               JString "Invalid JSON: oldestValidTimestamp is not a valid integer")])
                    400))
    else
      r <~ call (CallHandleAuthBump address oldestValidTimestamp)
                (handleAuthBump address oldestValidTimestamp (headers req)) ;;
      match r with
      | Throw e => tret (Uncaught e)
      | Return (Resolved _) =>
          tret (Responded
                  (writeResponse (JObject [("status", JString "success")]) 202))
      | Return (Rejected err) =>
          _ <~ call (CallLoggerError err) tt ;;
          tret (Responded (revokeCatch err))
      end.

End Routes.

End Http.

(** ** Comparison of two MACs: [equalConstTime] *)

Module Encryption.

(** A [Buffer] is its list of bytes. *)
Definition Buffer := list Byte.byte.

(** [ToInt32]: the wrap-around of the operands and results of the bitwise
    operators. *)
Definition ToInt32 (z : Z) : Z :=
  let m := (z mod 2 ^ 32)%Z in
  if (m <? 2 ^ 31)%Z then m else (m - 2 ^ 32)%Z.

(** [x ^ y] and [x | y] *)
Definition bitxor (x y : Z) : Z := Z.lxor (ToInt32 x) (ToInt32 y).
Definition bitor (x y : Z) : Z := Z.lor (ToInt32 x) (ToInt32 y).

(** [b[i]] as an operand of [^]: the byte at [i], and 0 for the [undefined]
    read past the end. *)
Definition at_ (b : Buffer) (i : nat) : Z :=
  match nth_error b i with
  | Some x => Z.of_N (Byte.to_N x)
  | None => 0%Z
  end.

(** [n] rounds of the loop [for (...; i++) { res |= b1[i] ^ b2[i] }],
    starting at index [i]. *)
Fixpoint loop (b1 b2 : Buffer) (n i : nat) (res : Z) : Z :=
  match n with
  | O => res
  | S n' => loop b1 b2 n' (S i) (bitor res (bitxor (at_ b1 i) (at_ b2 i)))
  end.

(** [equalConstTime(b1, b2)] *)
Definition equalConstTime (b1 b2 : Buffer) : bool :=
  if negb (List.length b1 =? List.length b2)%nat then false
  else (loop b1 b2 (List.length b1) 0 0 =? 0)%Z.

End Encryption.

(** ** Test doubles

    Concrete collaborators, on which the functions above can be run. *)

Module Fixtures.
Import Js Trace Hub Http Wire.

(** The double quote, and a string between double quotes. *)
Definition dquote : string := String (ascii_of_nat 34) EmptyString.
Definition quoted (s : string) : string := dquote ++ s ++ dquote.

(** Numbers that are integers: printed in decimal, zero being falsy; a
    string of decimal digits is compared by its value. *)
#[export] Instance integers : Numbers := {|
  number := Z;
  Number_toString := fun z => NilZero.string_of_int (Z.to_int z);
  Number_toBoolean := fun z => negb (z =? 0)%Z;
  String_gt := fun s k =>
    match parseDigits 10 s false 0 with
    | Some z => (k <? z)%Z
    | None => false
    end
|}.

(** [JSON.stringify] of an array of strings without escapes, the way the
    hub builds its challenge text. *)
Definition arrayText (l : list string) : string :=
  "[" ++ String.concat "," (map quoted l) ++ "]".

(** Reads [s] up to the next double quote: the text before it and the text
    after it. *)
Fixpoint untilQuote (s : string) : option (string * string) :=
  match s with
  | EmptyString => None
  | String c r =>
      if Ascii.eqb c (ascii_of_nat 34) then Some (EmptyString, r)
      else match untilQuote r with
           | Some (x, rest) => Some (String c x, rest)
           | None => None
           end
  end.

(** Reads the elements of a flat array of strings after its opening
    bracket; [fuel] bounds the number of elements. *)
Fixpoint elements (fuel : nat) (s : string) : option (list string) :=
  match fuel with
  | O => None
  | S fuel' =>
      match s with
      | String q r =>
          if Ascii.eqb q (ascii_of_nat 34) then
            match untilQuote r with
            | Some (x, String c rest) =>
                if Ascii.eqb c "," then
                  match elements fuel' rest with
                  | Some l => Some (x :: l)
                  | None => None
                  end
                else if Ascii.eqb c "]" then
                  match rest with EmptyString => Some [x] | _ => None end
                else None
            | _ => None
            end
          else None
      | EmptyString => None
      end
  end.

(** A parser for the JSON texts the examples use: [null], [[]] and flat
    arrays of strings without escapes nor white space. *)
Definition parseJSON (s : string) : option json :=
  if s =? "null" then Some JNull
  else if s =? "[]" then Some (JArray [])
  else match s with
       | String c r =>
           if Ascii.eqb c "[" then
             match elements (String.length r) r with
             | Some l => Some (JArray (map JString l))
             | None => None
             end
           else None
       | EmptyString => None
       end.

(** A printer for objects whose members are strings without escapes. *)
Definition printJSON (v : json) : string :=
  match v with
  | JObject ms =>
      "{" ++ String.concat ","
               (map (fun kv =>
                       quoted (fst kv) ++ ":"
                       ++ match snd kv with
                          | JString x => quoted x
                          | v => ToString v
                          end) ms)
          ++ "}"
  | _ => ToString v
  end.

(** Imports in which every cryptographic operation is a transparent
    tag around its arguments; a key is accepted when it has 64 characters. *)
#[export] Instance imports : Imports := {|
  JSON_parse := parseJSON;
  JSON_stringify := printJSON;
  base64 := fun s => "base64(" ++ s ++ ")";
  ECPair := string;
  digest := string;
  hexStringToECPair := fun k =>
    if (String.length k =? 66)%nat then Return k
    else Throw (Error "Invalid private key");
  sha256 := fun s => "sha256(" ++ s ++ ")";
  signDERHex := fun k d => "sig(" ++ k ++ "," ++ d ++ ")";
  getPublicKeyFromPrivate := fun k =>
    if (String.length k =? 64)%nat then Return ("pub(" ++ k ++ ")")
    else Throw (Error "Invalid private key");
  TokenSigner_sign := fun k payload =>
    Return ("jwt(" ++ k ++ "," ++ gaiaChallenge payload ++ "," ++ salt payload ++ ")");
  randomSalt := "000102030405060708090a0b0c0d0e0f";
  secondsFromNow := fun k => (k + 1500000000)%Z
|}.

(** A key of 64 hexadecimal digits. *)
Definition key64 : string :=
  "27302f1d7bbdb8a1ac6e7ae0e4ca0fbb1e6e3a2b6b0a4f7c9aa1d3c5e7f90b12".

(** An authentication module that takes the text after [bearer ] for the
    signing address and gives every token the scopes [scopes]. *)
Definition authenticationWith (scopes : list AuthScope) : Authentication := {|
  validateAuthorizationHeader := fun authHeader _ _ _ _ _ =>
    if prefix "bearer " authHeader then Return (slice_from 7 authHeader)
    else Throw (ValidationError "Failed to parse authentication header.");
  getAuthenticationScopes := fun _ => Return scopes
|}.

(** A driver that stores under [http://driver/] and whose writes succeed,
    and one whose writes fail. *)
Definition okDriver : DriverModel := {|
  driver_getReadURLPrefix := "http://driver/";
  performWrite := fun cmd =>
    Resolved ("http://driver/" ++ storageTopLevel cmd ++ "/" ++ path cmd);
  listFiles := fun _ _ => Resolved {| entries := []; page := None |}
|}.

Definition failingDriver : DriverModel := {|
  driver_getReadURLPrefix := "http://driver/";
  performWrite := fun _ => Rejected (Error "disk full");
  listFiles := fun _ _ => Rejected (Error "disk full")
|}.

Definition okProofs : ProofChecker := {|
  checkProofs := fun _ _ _ => Resolved tt
|}.

Definition noProofs : ProofChecker := {|
  checkProofs := fun _ _ _ => Rejected (NotEnoughProofError "Not enough social proofs")
|}.

(** A hub over [driver] and [proofs] with the given whitelist and read URL. *)
Definition hub (driver : DriverModel) (proofs : ProofChecker)
    (whitelist : option (list string)) (readURL : option string) : HubServer :=
  constructor driver proofs
    {| cfg_whitelist := whitelist;
       cfg_serverName := "gaia-0";
       cfg_tokenBlacklist := None;
       cfg_readURL := readURL;
       cfg_requireCorrectHubUrl := None;
       cfg_validHubUrls := None |}.

(** The headers of a request that carries only a bearer token. *)
Definition bearer (address : string) : Headers :=
  {| content_type := Undefined;
     content_length := Undefined;
     authorization := "bearer " ++ address |}.

(** A JSON number that is the integer [z]. *)
Definition integer (z : Z) : json := JNumber z.

(** The request of [address] to revoke-all with the body
    [{ oldestValidTimestamp: timestamp }]. *)
Definition revokeRequest (address : string) (timestamp : json) : Request :=
  {| params0 := address;
     params1 := "";
     headers := bearer address;
     body := Some (JObject [("oldestValidTimestamp", timestamp)]);
     req_stream := [] |}.

(** The request of [address] to store nothing under [filename]. *)
Definition storeRequest (address filename : string) : Request :=
  {| params0 := address;
     params1 := filename;
     headers := bearer address;
     body := None;
     req_stream := [] |}.

(** A bump handler that always succeeds. *)
Definition okBump : AuthBump := {|
  handleAuthBump := fun _ _ _ => Return (Resolved tt)
|}.

End Fixtures.


(** ** Vocabulary of the specification *)

Module Spec.
Import Js Trace Hub.

(** The decimal numeral of a natural number. *)
Definition decimal (n : nat) : string := NilZero.string_of_uint (Nat.to_uint n).

(** The two kinds of scope that restrict writes. *)
Definition isPutFilePrefix (s : AuthScope) : bool := scope s =? "putFilePrefix".
Definition isPutFile (s : AuthScope) : bool := scope s =? "putFile".
Definition restricts (s : AuthScope) : bool := isPutFilePrefix s || isPutFile s.

(** [s] grants a write to [path]: a [putFilePrefix] scope whose domain
    [path] starts with, or a [putFile] scope whose domain is [path]. *)
Definition grants (path : string) (s : AuthScope) : bool :=
  (isPutFilePrefix s && prefix (domain s) path)
  || (isPutFile s && (path =? domain s)).

(** The error of a write that no scope grants. *)
Definition notAuthorizedByScopes (address path : string) : error :=
  ValidationError
    ("Address " ++ address ++ " not authorized to write to " ++ path ++ " by scopes").

(** The error of an address that the whitelist does not hold. *)
Definition notAuthorizedForWrites (signingAddress : string) : error :=
  ValidationError ("Address " ++ signingAddress ++ " not authorized for writes").

(** The content type of the write command of a request. *)
Definition contentTypeOf (h : Headers) : string :=
  match content_type h with
  | Null | Undefined => "application/octet-stream"
  | Str s => s
  end.

(** The calls of a write that goes through, in order: validation, scopes,
    (the read prefix handed to the proof checker,) proof check, driver
    write, and the reads of the two prefixes by the rewrite of the URL. *)
Definition pipelineCalls (this : HubServer) (address path : string)
    (requestHeaders : Headers) (stream : Readable) : list event :=
  ([CallValidateAuthorizationHeader (authorization requestHeaders) address;
    CallGetAuthenticationScopes (authorization requestHeaders)]
   ++ calls (getReadURLPrefix this)
   ++ [CallCheckProofs address path (outcome (getReadURLPrefix this));
       CallPerformWrite
         (makeWriteCommand address path stream (contentTypeOf requestHeaders)
            requestHeaders);
       CallDriverGetReadURLPrefix]
   ++ calls (getReadURLPrefix this))%list.

(** Every character of [s] satisfies [p]. *)
Definition madeOf (p : ascii -> bool) (s : string) : bool :=
  forallb p (list_ascii_of_string s).

Definition isZeroDigit (c : ascii) : bool := Ascii.eqb c "0".

(** One of the digits [1] to [9]. *)
Definition isNonZeroDigit (c : ascii) : bool :=
  let n := nat_of_ascii c in ((49 <=? n) && (n <=? 57))%nat.

(** A version text that reports a version 1 or greater, the way the client
    reads it: one character, whatever it is (the [v] of [v1]); then,
    after white space and a plus sign that may both be absent, a decimal
    numeral with a digit that is not zero.  What follows the first such
    digit does not matter. *)
Definition reportsV1 (version : string) : Prop :=
  exists (c d : ascii) (ws sign zeros rest : string),
    version = String c (ws ++ sign ++ zeros ++ String d rest)
    /\ madeOf isWhiteSpace ws = true
    /\ (sign = "" \/ sign = "+")
    /\ madeOf isZeroDigit zeros = true
    /\ isNonZeroDigit d = true.

(** The kinds of call on a trace. *)
Definition isCheckProofs (ev : event) : bool :=
  match ev with CallCheckProofs _ _ _ => true | _ => false end.

Definition isPerformWrite (ev : event) : bool :=
  match ev with CallPerformWrite _ => true | _ => false end.

Definition isHandleAuthBump (ev : event) : bool :=
  match ev with CallHandleAuthBump _ _ => true | _ => false end.

End Spec.

(** ** The rest of the hub: the token blacklist, the route patterns and
       the discovery route *)

Module HubMore.
Import Js Trace Hub Http.
Local Open Scope js_scope.

(** [map.get(k)] on a [Map] kept as an association list; [None] is
    [undefined]. *)
Fixpoint Map_get (m : list (string * bool)) (k : string) : option bool :=
  match m with
  | [] => None
  | (k', v) :: rest => if k' =? k then Some v else Map_get rest k
  end.

(** The keys of a [Map], in insertion order. *)
Definition Map_keys (m : list (string * bool)) : list string := map fst m.

(** The character class [[a-zA-Z0-9]]. *)
Definition isAlnum (c : ascii) : bool :=
  let n := nat_of_ascii c in
  ((48 <=? n) && (n <=? 57) || (65 <=? n) && (n <=? 90)
   || (97 <=? n) && (n <=? 122))%nat.

(** What [.] matches: every character but the line terminators (LF and CR
    among the code units below 256). *)
Definition isDot (c : ascii) : bool :=
  let n := nat_of_ascii c in
  negb ((n =? 10) || (n =? 13))%nat.

(** The longest prefix of [s] whose characters satisfy [p], and what
    follows it: a greedy [p+] or [p*]. *)
Fixpoint span (p : ascii -> bool) (s : string) : string * string :=
  match s with
  | String c r =>
      if p c then let (taken, rest) := span p r in (String c taken, rest)
      else (EmptyString, s)
  | EmptyString => (EmptyString, EmptyString)
  end.

(** The match of the pattern [/^\/store\/([a-zA-Z0-9]+)\/(.+)/] against a
    string: the two captured groups.  The first group cannot give
    characters back (the slash that follows it is not in its class), and
    the second takes all it can.  This is the regular expression alone:
    the framework applies it to the path of the request, once the query is
    cut off, and decodes the groups before the route reads them as
    [req.params]; neither step is part of the sources at hand, and neither
    is followed here. *)
Definition matchStore (url : string) : option (string * string) :=
  if prefix "/store/" url then
    let (address, rest) := span isAlnum (slice_from 7 url) in
    match address, rest with
    | String _ _, String c tail =>
        if Ascii.eqb c "/" then
          let (filename, _) := span isDot tail in
          match filename with
          | String _ _ => Some (address, filename)
          | EmptyString => None
          end
        else None
    | _, _ => None
    end
  else None.

(** Every character of [s] satisfies [p]. *)
Definition allChars (p : ascii -> bool) (s : string) : bool :=
  forallb p (list_ascii_of_string s).

(** [s] is empty or starts with a character that [p] refuses: nothing more
    of it can be taken by a greedy [p+]. *)
Definition stopsAt (p : ascii -> bool) (s : string) : Prop :=
  match s with
  | String c _ => p c = false
  | EmptyString => True
  end.

(** The two imports of the discovery route from [./authentication], which
    is not part of the sources at hand: [getChallengeText(serverName)] and
    the constant [LATEST_AUTH_VERSION]. *)
Class Discovery := {
  getChallengeText : string -> string;
  LATEST_AUTH_VERSION : string
}.

Section Discovery.
Context `{Numbers} `{Discovery}.

(** [app.get('/hub_info/', ...)] *)
Definition hubInfoRoute (server : HubServer) : traced Response :=
  let challengeText := getChallengeText (serverName server) in
  if (String.length challengeText <? 10)%nat
  then tret (writeResponse
               (JObject [("message", JString "Server challenge text misconfigured")])
               500)
  else
    readURLPrefix <~ getReadURLPrefix server ;;
    tret (writeResponse
            (JObject [("challenge_text", JString challengeText);
                      ("latest_auth_version", JString LATEST_AUTH_VERSION);
                      ("read_url_prefix", JString readURLPrefix)])
            200).

End Discovery.

End HubMore.

(** ** Client side, the rest of [gaia.js/src/wire.js] *)

Module Client.
Import Js Wire.

(** The payload signed by [makeAssociationToken] *)
Record AssociationPayload `{Numbers} := {
  childToAssociate : string;
  iss : string;
  exp : number;
  salt : string
}.

(** [GaiaHubConfig] *)
Record GaiaHubConfig := {
  url_prefix : string;
  address : string;
  token : string;
  server : string
}.

(** The contents of an upload: [string | Buffer] *)
Inductive Contents :=
| Text (s : string)
| Bytes (b : list Byte.byte).

(** The second argument of [fetch] *)
Record FetchInit := {
  method : string;
  headers : list (string * string);
  body : Contents
}.

(** What [uploadToGaiaHub] reads of a response: [response.ok], and the
    promises of [response.json()] and [response.text()]. *)
Record FetchResponse `{Numbers} := {
  ok : bool;
  json_ : promise json;
  text_ : promise string
}.

(** A request the client sends. *)
Inductive request :=
| Fetch (url : string) (init : option FetchInit).

(** What the rest of [wire.js] imports, beside [Imports]: the signer on an
    association payload, [publicKeyToAddress],
    [bitcoin.ECPair.fromPrivateKey(Buffer.from(secretKey, 'hex'))], and
    [fetch]: on the discovery endpoint, where the body is read as a
    hub-info object ([fetch(url).then(response => response.json())]), and
    with an upload. *)
Class ClientImports `{Imports} := {
  TokenSigner_signAssociation : string -> AssociationPayload -> res string;
  publicKeyToAddress : string -> res string;
  ECPair_fromPrivateKey : string -> res unit;
  fetchHubInfo : string -> promise HubInfo;
  fetch : string -> FetchInit -> promise FetchResponse
}.

Section WithClientImports.
Context `{ClientImports}.

(** [makeAssociationToken(secretKey, childPublicKey)] *)
Definition makeAssociationToken (secretKey childPublicKey : string) : res string :=
  let secretKey := slice_to 64 secretKey in
  match getPublicKeyFromPrivate secretKey with
  | Throw e => Throw e
  | Return publicKeyHex =>
      let salt := randomSalt in
      let payload :=
        {| childToAssociate := childPublicKey;
           iss := publicKeyHex;
           exp := secondsFromNow FOUR_MONTH_SECONDS;
           salt := salt |} in
      TokenSigner_signAssociation secretKey payload
  end.

(** [publicKeyToAddress(getPublicKeyFromPrivate(secretKey))] *)
Definition addressOf (secretKey : string) : res string :=
  match getPublicKeyFromPrivate secretKey with
  | Throw e => Throw e
  | Return publicKey => publicKeyToAddress publicKey
  end.

(** [connectToGaiaHub(gaiaHubUrl, secretKey, associationToken)]: the
    request it sends and the promise it returns.  An exception thrown in a
    [.then] callback rejects the promise. *)
Definition connectToGaiaHub (gaiaHubUrl secretKey : string)
    (associationToken : option string) : list request * promise GaiaHubConfig :=
  let secretKey := slice_to 64 secretKey in
  ([Fetch (gaiaHubUrl ++ "/hub_info") None],
   match fetchHubInfo (gaiaHubUrl ++ "/hub_info") with
   | Rejected e => Rejected e
   | Resolved hubInfo =>
       let readURL := read_url_prefix hubInfo in
       match makeAuthToken hubInfo secretKey gaiaHubUrl associationToken with
       | Throw e => Rejected e
       | Return token =>
           match addressOf secretKey with
           | Throw e => Rejected e
           | Return address =>
               Resolved {| url_prefix := readURL;
                           address := address;
                           token := token;
                           server := gaiaHubUrl |}
           end
       end
   end).

(** [responseJSON.publicURL]: [None] is [undefined]; reading a property of
    [null] throws. *)
Definition publicURLOf (responseJSON : json) : promise (option json) :=
  match responseJSON with
  | JNull => Rejected (TypeError "Cannot read properties of null")
  | _ => Resolved (get responseJSON "publicURL")
  end.

(** The line feed of the message of a failed upload. *)
Definition LF : string := String (ascii_of_nat 10) EmptyString.

(** [uploadToGaiaHub(filename, contents, hubConfig, contentType)];
    [contentType = None] is a call without the fourth argument. *)
Definition uploadToGaiaHub (filename : string) (contents : Contents)
    (hubConfig : GaiaHubConfig) (contentType : option string)
  : list request * promise (option json) :=
  let contentType :=
    match contentType with
    | Some c => c
    | None => "application/octet-stream"
    end in
  let url := server hubConfig ++ "/store/" ++ address hubConfig ++ "/" ++ filename in
  let init :=
    {| method := "POST";
       headers := [("Content-Type", contentType);
                   ("Authorization", "bearer " ++ token hubConfig)];
       body := contents |} in
  ([Fetch url (Some init)],
   match fetch url init with
   | Rejected e => Rejected e
   | Resolved response =>
       if ok response then
         match json_ response with
         | Rejected e => Rejected e
         | Resolved responseJSON => publicURLOf responseJSON
         end
       else
         match text_ response with
         | Rejected e => Rejected e
         | Resolved textResponse =>
             Rejected (Error ("Failed to upload to Gaia hub:" ++ LF ++ textResponse))
         end
   end).

(** [getBucketUrl(secretKey, gaiaHubUrl, hubConfig)]: the requests it
    sends, and whether it throws or returns a promise. *)
Definition getBucketUrl (secretKey : string) (gaiaHubUrl : option string)
    (hubConfig : option GaiaHubConfig) : list request * res (promise string) :=
  match ECPair_fromPrivateKey secretKey with
  | Throw e => ([], Return (Rejected e))
  | Return _ =>
      match addressOf secretKey with
      | Throw e => ([], Throw e)
      | Return address =>
          match hubConfig with
          | Some hubConfig =>
              let readURL := url_prefix hubConfig in
              ([], Return (Resolved (readURL ++ address ++ "/")))
          | None =>
              match gaiaHubUrl with
              | None =>
                  ([], Return (Rejected
                                 (Error "Must supply either hubConfig or gaiaHubUrl")))
              | Some gaiaHubUrl =>
                  if gaiaHubUrl =? "" then
                    ([], Return (Rejected
                                   (Error "Must supply either hubConfig or gaiaHubUrl")))
                  else
                    ([Fetch (gaiaHubUrl ++ "/hub_info") None],
                     Return
                       match fetchHubInfo (gaiaHubUrl ++ "/hub_info") with
                       | Rejected e => Rejected e
                       | Resolved responseJSON =>
                           let readURL := read_url_prefix responseJSON in
                           Resolved (readURL ++ address ++ "/")
                       end)
              end
          end
      end
  end.

End WithClientImports.

End Client.

(** ** Test doubles for the client *)

Module ClientFixtures.
Import Js Wire Client.

(** The hub-info object of a hub that understands v1 tokens. *)
Definition hubInfoV1 : HubInfo :=
  {| challenge_text :=
       Fixtures.arrayText
         ["gaiahub"; "0"; "gaia-0"; "blockstack_storage_please_sign"];
     latest_auth_version := Some "v1";
     read_url_prefix := "http://read/" |}.

(** A network with one hub, at [http://hub], that answers every upload
    with the URL of the file under its read prefix. *)
#[export] Instance clientImports : @ClientImports Fixtures.integers Fixtures.imports := {|
  TokenSigner_signAssociation := fun k payload =>
    Return ("jwt(" ++ k ++ "," ++ childToAssociate payload ++ ")");
  publicKeyToAddress := fun publicKey => Return ("addr(" ++ publicKey ++ ")");
  ECPair_fromPrivateKey := fun k =>
    if (String.length k =? 64)%nat then Return tt
    else Throw (Error "Invalid private key");
  fetchHubInfo := fun url =>
    if url =? "http://hub/hub_info" then Resolved hubInfoV1
    else Rejected (Error "request failed");
  fetch := fun url init =>
    if prefix "http://hub/store/" url then
      Resolved {| ok := true;
                  json_ := Resolved
                             (JObject [("publicURL",
                                        JString ("http://read/" ++ slice_from 17 url))]);
                  text_ := Resolved "" |}
    else
      Resolved {| ok := false;
                  json_ := Rejected (Error "Unexpected token");
                  text_ := Resolved "Not Found" |}
|}.

(** The configuration of a client of that hub, for the address [1A]. *)
Definition config1A : GaiaHubConfig :=
  {| url_prefix := "http://read/";
     address := "1A";
     token := "v1:token";
     server := "http://hub" |}.

End ClientFixtures.

(** ** ECIES: the shared secret as a buffer, and decryption *)

Module Ecies.
Import Js Encryption.

(** The value of a hexadecimal digit, of either case. *)
Definition hexDigit (c : ascii) : option N :=
  match digitValue c with
  | Some d => if (d <? 16)%Z then Some (Z.to_N d) else None
  | None => None
  end.

Definition isHex (c : ascii) : bool :=
  match hexDigit c with Some _ => true | None => false end.

(** The byte of a number below 256. *)
Definition byte_of_N (n : N) : Byte.byte :=
  match Byte.of_N n with
  | Some b => b
  | None => Byte.x00
  end.

(** [Buffer.from(s, 'hex')]: one byte for every two hexadecimal digits,
    up to the first pair that is not one; a last single character is
    dropped. *)
Fixpoint Buffer_from_hex (s : string) : Buffer :=
  match s with
  | String a (String b r) =>
      match hexDigit a, hexDigit b with
      | Some x, Some y => byte_of_N (16 * x + y) :: Buffer_from_hex r
      | _, _ => []
      end
  | _ => []
  end.

(** ['0'.repeat(n)] *)
Fixpoint zeros (n : nat) : string :=
  match n with
  | O => EmptyString
  | S n' => String "0" (zeros n')
  end.

(** The big numbers of the elliptic-curve library, of which the code reads
    [bn.toString('hex')]. *)
Class BigNumbers := {
  BN : Type;
  BN_toString_hex : BN -> string
}.

(** [getBufferFromBN(bnInput)] *)
Definition getBufferFromBN `{BigNumbers} (bnInput : BN) : res Buffer :=
  let hexOut := BN_toString_hex bnInput in
  if (String.length hexOut =? 64)%nat then Return (Buffer_from_hex hexOut)
  else if (String.length hexOut <? 64)%nat then
    let padding := zeros (64 - String.length hexOut) in
    Return (Buffer_from_hex (padding ++ hexOut))
  else Throw (Error "Generated a > 32-byte BN for encryption. Failing.").

(** [CipherObject] *)
Record CipherObject := {
  iv : string;
  ephemeralPK : string;
  cipherText : string;
  mac : string;
  wasString : bool;
  encoding : option string
}.

Record SharedKeys := {
  encryptionKey : Buffer;
  hmacKey : Buffer
}.

(** What the ECIES code takes from [crypto] and [elliptic]: the hash, the
    two wrappers [hmacSha256] and [aes256CbcDecrypt] (whose bodies are
    calls of [crypto]), key pairs and points of the curve, and the
    conversions of [Buffer] for encodings other than [hex]. *)
Class EciesImports `{BigNumbers} := {
  sha512 : Buffer -> Buffer;
  hmacSha256 : Buffer -> Buffer -> Buffer;
  aes256CbcDecrypt : Buffer -> Buffer -> Buffer -> res Buffer;
  KeyPair : Type;
  Point : Type;
  (** [ecurve.keyFromPrivate(privateKey, encoding)] *)
  keyFromPrivate : string -> string -> res KeyPair;
  (** [ecurve.keyFromPublic(publicKey, encoding).getPublic()] *)
  publicPoint : string -> string -> res Point;
  (** [keyPair.derive(point)] *)
  derive : KeyPair -> Point -> res BN;
  (** [Buffer.from(point.encodeCompressed())] *)
  encodeCompressed : Point -> Buffer;
  (** [Buffer.from(s, encoding)] for an encoding other than [hex]; it
      throws on an encoding it does not know *)
  Buffer_from_encoded : string -> string -> res Buffer;
  (** [buffer.toString()] *)
  Buffer_toString : Buffer -> string
}.

(** Sequencing of calls that may throw. *)
Definition andThen {A B} (r : res A) (k : A -> res B) : res B :=
  match r with
  | Return a => k a
  | Throw e => Throw e
  end.

Notation "'let*' x ':=' r 'in' k" := (andThen r (fun x => k))
  (at level 10, x name, r at level 100, k at level 200).

Section WithEciesImports.
Context `{EciesImports}.

(** [Buffer.from(s, encoding)] *)
Definition Buffer_from (s encoding : string) : res Buffer :=
  if encoding =? "hex" then Return (Buffer_from_hex s)
  else Buffer_from_encoded s encoding.

(** [sharedSecretToKeys(sharedSecret)] *)
Definition sharedSecretToKeys (sharedSecret : Buffer) : SharedKeys :=
  let hashedSecret := sha512 sharedSecret in
  {| encryptionKey := firstn 32 hashedSecret;
     hmacKey := skipn 32 hashedSecret |}.

(** [decryptECIES(privateKey, cipherObject)]: the plain text as a buffer
    ([inl]) or, when [wasString] is set, as a string ([inr]). *)
Definition decryptECIES (privateKey : string) (cipherObject : CipherObject)
  : res (Buffer + string) :=
  let encoding :=
    match encoding cipherObject with
    | Some e => if e =? "" then "hex" else e
    | None => "hex"
    end in
  let* ecSK := keyFromPrivate privateKey encoding in
  let* ephemeralPK := publicPoint (ephemeralPK cipherObject) encoding in
  let* sharedSecret := derive ecSK ephemeralPK in
  let* sharedSecretBuffer := getBufferFromBN sharedSecret in
  let sharedKeys := sharedSecretToKeys sharedSecretBuffer in
  let* ivBuffer := Buffer_from (iv cipherObject) encoding in
  let* cipherTextBuffer := Buffer_from (cipherText cipherObject) encoding in
  let macData :=
    (ivBuffer ++ encodeCompressed ephemeralPK ++ cipherTextBuffer)%list in
  let actualMac := hmacSha256 (hmacKey sharedKeys) macData in
  let* expectedMac := Buffer_from (mac cipherObject) encoding in
  if negb (equalConstTime expectedMac actualMac)
  then Throw (Error "Decryption failed: failure in MAC check")
  else
    let* plainText :=
      aes256CbcDecrypt ivBuffer (encryptionKey sharedKeys) cipherTextBuffer in
    if wasString cipherObject
    then Return (inr (Buffer_toString plainText))
    else Return (inl plainText).

End WithEciesImports.

(** The number a string of hexadecimal digits denotes, continuing from
    [acc]. *)
Fixpoint hexValue (s : string) (acc : N) : N :=
  match s with
  | String c r =>
      match hexDigit c with
      | Some d => hexValue r (16 * acc + d)
      | None => acc
      end
  | EmptyString => acc
  end.

(** The number a buffer denotes, most significant byte first, continuing
    from [acc]. *)
Fixpoint bigEndian (b : Buffer) (acc : N) : N :=
  match b with
  | x :: rest => bigEndian rest (256 * acc + Byte.to_N x)
  | [] => acc
  end.

End Ecies.

(** ** Test doubles for ECIES *)

Module EciesFixtures.
Import Js Encryption Ecies.

(** Big numbers given by their hexadecimal numerals. *)
#[export] Instance numerals : BigNumbers := {|
  BN := string;
  BN_toString_hex := fun s => s
|}.

(** A curve on which every key and point is its own text and every shared
    secret is [0a]; the hash is the identity, the MAC is the key followed
    by the data, and the cipher is the identity. *)
#[export] Instance eciesImports : EciesImports := {|
  sha512 := fun b => b;
  hmacSha256 := fun key data => (key ++ data)%list;
  aes256CbcDecrypt := fun _ _ ciphertext => Return ciphertext;
  KeyPair := string;
  Point := string;
  keyFromPrivate := fun k _ => Return k;
  publicPoint := fun p _ => Return p;
  derive := fun _ _ => Return "0a";
  encodeCompressed := fun _ => [];
  Buffer_from_encoded := fun _ _ => Throw (TypeError "Unknown encoding");
  Buffer_toString := string_of_list_byte
|}.

(** A cipher object with the initialization vector [00], the cipher text
    [ff] and the MAC [mac]. *)
Definition cipherObjectWith (mac : string) : CipherObject :=
  {| iv := "00";
     ephemeralPK := "02aa";
     cipherText := "ff";
     mac := mac;
     wasString := false;
     encoding := None |}.

End EciesFixtures.

(** ** The configuration of the hub: [hub/src/server/config.ts] *)

Module Config.
Import Js.

Section Values.
Context `{Numbers}.

(** A JavaScript value of a configuration: what [JSON.parse] gives, the
    integers [parseInt] gives, and [undefined].  An object is the list of
    its members in the order of [for ... in] (for names that are not array
    indices, the order of insertion). *)
Inductive value :=
| VUndefined
| VNull
| VBool (b : bool)
| VNumber (n : number)
| VInt (z : jsnum)
| VStr (s : string)
| VArr (elements : list value)
| VObj (members : list (string * value)).

(** [isObject(item)]:
    [item && typeof item === 'object' && !Array.isArray(item)] *)
Definition isObject (item : value) : bool :=
  match item with
  | VObj _ => true
  | _ => false
  end.

(** [!!v] *)
Definition truthy (v : value) : bool :=
  match v with
  | VUndefined | VNull => false
  | VBool b => b
  | VNumber n => Number_toBoolean n
  | VInt NaN => false
  | VInt (Num z) => negb (z =? 0)%Z
  | VInt (Infinity _) => true
  | VStr s => negb (s =? "")
  | VArr _ | VObj _ => true
  end.

(** [object[key]] on the members of an object; [None] when the object has
    no such member. *)
Fixpoint lookup (key : string) (members : list (string * value)) : option value :=
  match members with
  | [] => None
  | (k, v) :: rest => if k =? key then Some v else lookup key rest
  end.

(** [Object.assign(object, { [key]: v })], and [object[key] = v]: the
    member is replaced where it stands, or added last. *)
Fixpoint assign (members : list (string * value)) (key : string) (v : value)
  : list (string * value) :=
  match members with
  | [] => [(key, v)]
  | (k, w) :: rest =>
      if k =? key then (k, v) :: rest else (k, w) :: assign rest key v
  end.

(** [delete object[key]] *)
Fixpoint delete (members : list (string * value)) (key : string)
  : list (string * value) :=
  match members with
  | [] => []
  | (k, w) :: rest =>
      if k =? key then delete rest key else (k, w) :: delete rest key
  end.

(** [!object[key]] *)
Definition missing (key : string) (members : list (string * value)) : bool :=
  match lookup key members with
  | Some v => negb (truthy v)
  | None => true
  end.

(** The names of the properties every object inherits from
    [Object.prototype]: functions, apart from the accessor [__proto__]. *)
Definition methodNames : list string :=
  ["constructor"; "hasOwnProperty"; "isPrototypeOf"; "propertyIsEnumerable";
   "toLocaleString"; "toString"; "valueOf";
   "__defineGetter__"; "__defineSetter__"; "__lookupGetter__"; "__lookupSetter__"].

Definition isMethodName (key : string) : bool :=
  existsb (fun name => name =? key) methodNames.

(** What [target[key]] finds in an object whose prototype is
    [Object.prototype], as the objects of [JSON.parse] and of object
    literals are: a member of its own, or else what it inherits:
    [Object.prototype] itself under [__proto__], a function under the name
    of a method, nothing under any other name. *)
Inductive slot :=
| Own (v : value)
| ObjectPrototype
| Method
| Absent.

Definition read (key : string) (members : list (string * value)) : slot :=
  match lookup key members with
  | Some v => Own v
  | None =>
      if key =? "__proto__" then ObjectPrototype
      else if isMethodName key then Method
      else Absent
  end.

(** [!target[key]]: an object and a function are truthy. *)
Definition falsy (s : slot) : bool :=
  match s with
  | Own v => negb (truthy v)
  | ObjectPrototype | Method => false
  | Absent => true
  end.

(** [Object.assign(target, { [key]: v })] on the members of [target]: a
    member of this name is replaced where it stands; otherwise one is
    added last, except under [__proto__], where the inherited setter runs
    instead: it ignores a value that is neither an object nor [null], and
    replaces the prototype of [target] by an object, an array or [null].
    The result is [None] when the prototype is replaced: from there on
    the members of an object no longer tell what reading it gives, and
    this model does not follow the program. *)
Definition write (members : list (string * value)) (key : string) (v : value)
  : option (list (string * value)) :=
  match lookup key members with
  | Some _ => Some (assign members key v)
  | None =>
      if key =? "__proto__" then
        match v with
        | VObj _ | VArr _ | VNull => None
        | _ => Some members
        end
      else Some (assign members key v)
  end.

(** The body of the loop of [deepMerge] for the member [key] of the source,
    holding [sv]; [merge] is [deepMerge] on one source.  Merging a
    non-empty object into [Object.prototype], which is what a member
    [__proto__] of the source that is an object comes to when the target
    has no member of this name, changes what every object inherits: the
    result is then [None], as for [write]. *)
Definition mergeMember (merge : value -> value -> option value)
    (key : string) (sv : value) (tms : list (string * value))
  : option (list (string * value)) :=
  if isObject sv then
    match (if falsy (read key tms) then write tms key (VObj []) else Some tms) with
    | None => None
    | Some tms1 =>
        match read key tms1 with
        | Own tv =>
            match merge sv tv with
            | Some merged => Some (assign tms1 key merged)
            | None => None
            end
        | ObjectPrototype =>
            match sv with
            | VObj [] => Some tms1
            | _ => None
            end
        | Method | Absent => Some tms1
        end
    end
  else write tms key sv.

(** One round of [deepMerge]: [source] is merged into [target], and the
    target is returned as the round leaves it, or [None] when the round
    changes a prototype.  The objects are taken to have [Object.prototype]
    for prototype, and [Object.prototype] to have no enumerable property,
    so that [for ... in] runs over the members of the source itself.  A
    member of the source that is an object is merged into what the target
    holds under the same name, which is first set to [{}] when it is
    falsy, and left alone when it is anything else than an object; every
    other member of the source is assigned. *)
Fixpoint mergeInto (source target : value) {struct source} : option value :=
  match source, target with
  | VObj sourceMembers, VObj targetMembers =>
      match
        (fix loop (sms tms : list (string * value)) {struct sms}
           : option (list (string * value)) :=
           match sms with
           | [] => Some tms
           | (key, sv) :: rest =>
               match mergeMember (fun s t => mergeInto s t) key sv tms with
               | Some tms' => loop rest tms'
               | None => None
               end
           end) sourceMembers targetMembers
      with
      | Some members => Some (VObj members)
      | None => None
      end
  | _, _ => Some target
  end.

(** [deepMerge(target, ...sources)] *)
Fixpoint deepMerge (target : value) (sources : list value) : option value :=
  match sources with
  | [] => Some target
  | source :: sources =>
      match mergeInto source target with
      | Some target => deepMerge target sources
      | None => None
      end
  end.

(** [s.split(',')] *)
Fixpoint split_comma (s : string) : list string :=
  match s with
  | EmptyString => [EmptyString]
  | String c r =>
      if Ascii.eqb c "," then EmptyString :: split_comma r
      else match split_comma r with
           | first :: others => String c first :: others
           | [] => [String c EmptyString]
           end
  end.

(** [s.trimEnd()] and [s.trim()] *)
Fixpoint trimEnd (s : string) : string :=
  match s with
  | EmptyString => EmptyString
  | String c r =>
      match trimEnd r with
      | EmptyString => if isWhiteSpace c then EmptyString else String c EmptyString
      | r' => String c r'
      end
  end.

Definition trim (s : string) : string := trimEnd (trimStart s).

(** [array.indexOf(x) >= 0] on strings *)
Definition indexed (l : list string) (x : string) : bool :=
  existsb (fun y => y =? x) l.

Definition parseInts : list string := ["port"; "pageSize"; "requireCorrectHubUrl"].
Definition parseLists : list string := ["validHubUrls"; "whitelist"].

(** [globalEnvVars] *)
Definition globalEnvVars : list (string * string) :=
  [("whitelist", "GAIA_WHITELIST");
   ("readURL", "GAIA_READ_URL");
   ("driver", "GAIA_DRIVER");
   ("validHubUrls", "GAIA_VALID_HUB_URLS");
   ("requireCorrectHubUrl", "GAIA_REQUIRE_CORRECT_HUB_URL");
   ("serverName", "GAIA_SERVER_NAME");
   ("bucket", "GAIA_BUCKET_NAME");
   ("pageSize", "GAIA_PAGE_SIZE");
   ("cacheControl", "GAIA_CACHE_CONTROL");
   ("port", "GAIA_PORT")].

(** [configDefaults] *)
Definition configDefaults : value :=
  VObj [("argsTransport",
         VObj [("level", VStr "warn");
               ("handleExceptions", VBool true);
               ("timestamp", VBool true);
               ("stringify", VBool true);
               ("colorize", VBool true);
               ("json", VBool false)]);
        ("whitelist", VNull);
        ("readURL", VNull);
        ("driver", VUndefined);
        ("validHubUrls", VUndefined);
        ("requireCorrectHubUrl", VBool false);
        ("serverName", VStr "gaia-0");
        ("bucket", VStr "hub");
        ("pageSize", VInt (Num 100));
        ("cacheControl", VStr "public, max-age=1");
        ("port", VInt (Num 3000));
        ("proofsConfig", VUndefined)].

(** [isNaN(n)] *)
Definition isNaN (n : jsnum) : bool :=
  match n with NaN => true | _ => false end.

(** The value [getConfigEnv] stores for the variable [name] set to the
    non-empty text [s], or the error it throws. *)
Definition envValue (name envVar s : string) : res value :=
  if indexed parseInts name then
    let n := parseInt s None in
    if isNaN n then Throw (Error ("Passed a non-number input to: " ++ envVar))
    else Return (VInt n)
  else if indexed parseLists name then
    Return (VArr (map (fun x => VStr (trim x)) (split_comma s)))
  else Return (VStr s).

(** The loop of [getConfigEnv] over the members of [envVars], with the
    environment [env] ([process.env]); it returns the texts written by
    [console.log] and the outcome.  The assignment [configEnv[name] = v]
    is read as making a member of the object's own, which it does for
    every name but [__proto__]; the names the code passes, those of
    [globalEnvVars], are of this kind. *)
Fixpoint getConfigEnv_loop (env : string -> option string)
    (envVars : list (string * string)) (configEnv : list (string * value))
    (logged : list string) : list string * res value :=
  match envVars with
  | [] => (logged, Return (VObj configEnv))
  | (name, envVar) :: rest =>
      match env envVar with
      | Some s =>
          if s =? "" then getConfigEnv_loop env rest configEnv logged
          else
            match envValue name envVar s with
            | Throw e => ((logged ++ [s])%list, Throw e)
            | Return v =>
                getConfigEnv_loop env rest (assign configEnv name v)
                  (logged ++ [s])%list
            end
      | None => getConfigEnv_loop env rest configEnv logged
      end
  end.

(** [getConfigEnv(envVars)] *)
Definition getConfigEnv (env : string -> option string)
    (envVars : list (string * string)) : list string * res value :=
  getConfigEnv_loop env envVars [] [].

(** What [getDriverClass(config.driver).getConfigInformation()] returns *)
Record DriverConfigInformation := {
  defaults : value;
  envVars : value
}.

(** What [getConfig] reads of its surroundings: the environment, the
    third command-line argument, the file system, [JSON.parse] on the
    text of the configuration file, and the driver classes of [./utils],
    which is not part of the sources at hand. *)
Class System := {
  process_env : string -> option string;
  process_argv2 : option string;
  (** [fs.readFileSync(path, { encoding: 'utf8' })]; [None] when it throws *)
  readFileSync : string -> option string;
  (** [JSON.parse]; [None] when it throws *)
  parseConfig : string -> option value;
  (** [getDriverClass(driver).getConfigInformation()] *)
  getConfigInformation : value -> res DriverConfigInformation
}.

Section WithSystem.
Context `{System}.

(** [process.env.CONFIG_PATH || process.argv[2] || './config.json'] *)
Definition configPath : string :=
  match process_env "CONFIG_PATH" with
  | Some p => if negb (p =? "") then p
              else match process_argv2 with
                   | Some a => if negb (a =? "") then a else "./config.json"
                   | None => "./config.json"
                   end
  | None => match process_argv2 with
            | Some a => if negb (a =? "") then a else "./config.json"
            | None => "./config.json"
            end
  end.

(** The [try] block of [getConfig]: the parsed file, or [{}]. *)
Definition readConfigJSON : value :=
  match readFileSync configPath with
  | Some text =>
      match parseConfig text with
      | Some v => v
      | None => VObj []
      end
  | None => VObj []
  end.

(** The block [if (configJSON.servername) { ... }]: reading a property of
    [null] throws; only an object has a member [servername]. *)
Definition renameServername (configJSON : value) : res value :=
  match configJSON with
  | VNull => Throw (TypeError "Cannot read properties of null")
  | VObj members =>
      match lookup "servername" members with
      | Some servername =>
          if truthy servername then
            let members1 :=
              if missing "serverName" members
              then assign members "serverName" servername
              else members in
            Return (VObj (delete members1 "servername"))
          else Return configJSON
      | None => Return configJSON
      end
  | _ => Return configJSON
  end.

(** [config.driver], read of the merged configuration *)
Definition driverOf (config : value) : option value :=
  match config with
  | VObj members => lookup "driver" members
  | _ => None
  end.

(** [getConfig()]: the texts written by [console.log], and the
    configuration or the exception; [None] when a merge changes a
    prototype.  Before it returns, [getConfig] also hands
    [config.argsTransport] to the logger; this effect leaves the result
    alone and is not followed here. *)
Definition getConfig : list string * option (res value) :=
  match renameServername readConfigJSON with
  | Throw e => ([], Some (Throw e))
  | Return configJSON =>
      match getConfigEnv process_env globalEnvVars with
      | (logged, Throw e) => (logged, Some (Throw e))
      | (logged, Return configENV) =>
          match deepMerge (VObj []) [configDefaults; configJSON; configENV] with
          | None => (logged, None)
          | Some configGlobal =>
              match driverOf configGlobal with
              | Some driver =>
                  if truthy driver then
                    match getConfigInformation driver with
                    | Throw e => (logged, Some (Throw e))
                    | Return driverConfigInfo =>
                        (logged,
                         option_map Return
                           (deepMerge (VObj [])
                              [defaults driverConfigInfo; configGlobal;
                               envVars driverConfigInfo]))
                    end
                  else (logged, Some (Return configGlobal))
              | None => (logged, Some (Return configGlobal))
              end
          end
      end
  end.

End WithSystem.

End Values.

Arguments value {_}.
Arguments DriverConfigInformation {_}.
Arguments System {_}.

End Config.

(** ** Vocabulary for the configuration *)

Module ConfigSpec.
Import Js Config.

Section Vocabulary.
Context `{Numbers}.

(** The names of the members of an object. *)
Definition keys (members : list (string * value)) : list string := map fst members.

(** An object holds no name twice. *)
Definition wellFormed (v : value) : Prop :=
  match v with
  | VObj members => NoDup (keys members)
  | _ => True
  end.

(** [v[key]] for a configuration [v]: the member of an object, and
    [None] for what has no members of its own. *)
Definition member (key : string) (v : value) : option value :=
  match v with
  | VObj members => lookup key members
  | _ => None
  end.

(** What one round of [deepMerge] leaves under the name [key] for which the
    source holds [sv], when the target held [tv] under it ([None]: no
    member of this name): [Some None] when the round leaves no member
    there, [None] when the round changes a prototype. *)
Definition mergedMember (key : string) (sv : value) (tv : option value)
  : option (option value) :=
  if isObject sv then
    match tv with
    | Some t => option_map Some (mergeInto sv (if truthy t then t else VObj []))
    | None =>
        if key =? "__proto__" then
          match sv with
          | VObj [] => Some None
          | _ => None
          end
        else if isMethodName key then Some None
        else option_map Some (mergeInto sv (VObj []))
    end
  else
    match tv with
    | Some _ => Some (Some sv)
    | None =>
        if key =? "__proto__" then
          match sv with
          | VObj _ | VArr _ | VNull => None
          | _ => Some None
          end
        else Some (Some sv)
    end.

(** No member is named [__proto__], in the object and in the objects it
    holds as members, however deep. *)
Fixpoint plain (v : value) : bool :=
  match v with
  | VObj members =>
      (fix all (ms : list (string * value)) : bool :=
         match ms with
         | [] => true
         | (key, w) :: rest => negb (key =? "__proto__") && plain w && all rest
         end) members
  | _ => true
  end.

(** The number of commas of a string. *)
Fixpoint commas (s : string) : nat :=
  match s with
  | String c r => (if Ascii.eqb c "," then 1 else 0) + commas r
  | EmptyString => 0
  end.

(** The variable of the environment that [envVars] gives for [name]. *)
Fixpoint variableOf (name : string) (envVars : list (string * string))
  : option string :=
  match envVars with
  | [] => None
  | (n, envVar) :: rest => if n =? name then Some envVar else variableOf name rest
  end.

(** What the variable [envVar] of the environment gives for [name]: nothing
    when it is unset or empty. *)
Definition envMember (env : string -> option string) (name envVar : string)
  : option value :=
  match env envVar with
  | Some s =>
      if s =? "" then None
      else match envValue name envVar s with
           | Return v => Some v
           | Throw _ => None
           end
  | None => None
  end.

(** The texts of the variables of [envVars] that are set and not empty, in
    the order of [envVars]. *)
Definition settings (env : string -> option string)
    (envVars : list (string * string)) : list string :=
  flat_map (fun entry : string * string =>
              match env (snd entry) with
              | Some s => if s =? "" then [] else [s]
              | None => []
              end) envVars.

(** A string that does not start with white space. *)
Definition headed (s : string) : Prop :=
  match s with
  | String c _ => isWhiteSpace c = false
  | EmptyString => True
  end.

(** No comma in a string. *)
Definition commaFree (s : string) : Prop := commas s = 0.

End Vocabulary.

End ConfigSpec.

(** ** A system for the examples of the configuration *)

Module ConfigFixtures.
Import Js Config.

Definition fileConfig : @value Fixtures.integers :=
  VObj [("servername", VStr "hub-1");
        ("bucket", VStr "files");
        ("driver", VStr "disk");
        ("port", VInt (Num 4000))].

Definition environment (envVar : string) : option string :=
  if envVar =? "GAIA_PORT" then Some "8080"
  else if envVar =? "GAIA_WHITELIST" then Some "1abc, 1def"
  else if envVar =? "GAIA_READ_URL" then Some ""
  else None.

#[local] Instance system : @System Fixtures.integers := {
  process_env := environment;
  process_argv2 := None;
  readFileSync path := if path =? "./config.json" then Some "config" else None;
  parseConfig text := Some fileConfig;
  getConfigInformation driver :=
    Errors.Return
      {| defaults := VObj [("bucket", VStr "disk-bucket");
                           ("storageRootDirectory", VStr "/tmp/gaia")];
         envVars := VObj [] |}
}.

(** What [getConfig] writes and returns on this system. *)
Definition logged : list string :=
  Eval lazy -[Fixtures.integers] in fst (@getConfig Fixtures.integers system).

Definition configured : @value Fixtures.integers :=
  Eval lazy -[Fixtures.integers] in
    match snd (@getConfig Fixtures.integers system) with
    | Some (Errors.Return config) => config
    | _ => VUndefined
    end.

End ConfigFixtures.


(* ================================================================== *)
(** * Part II.  Properties                                              *)
(* ================================================================== *)

(** ** [equalConstTime] *)

Module EncryptionFacts.
Import Encryption.
Local Open Scope Z_scope.

Lemma ToInt32_small (z : Z) : 0 <= z < 256 -> ToInt32 z = z.
Proof.
  intros Hz. unfold ToInt32.
  rewrite Z.mod_small by lia.
  destruct (z <? 2 ^ 31) eqn:E; [reflexivity|].
  apply Z.ltb_ge in E. lia.
Qed.

Lemma small_iff_log2 (a : Z) : 0 <= a -> (a < 256 <-> Z.log2 a < 8).
Proof.
  intros Ha. destruct (Z.eq_dec a 0) as [->|Hne].
  - cbn. lia.
  - change 256 with (2 ^ 8). apply Z.log2_lt_pow2. lia.
Qed.

Lemma lor_small (a b : Z) :
  0 <= a < 256 -> 0 <= b < 256 -> 0 <= Z.lor a b < 256.
Proof.
  intros [Ha Ha'] [Hb Hb'].
  assert (H0 : 0 <= Z.lor a b) by (apply Z.lor_nonneg; lia).
  split; [exact H0|].
  apply small_iff_log2; [exact H0|].
  rewrite Z.log2_lor by lia.
  apply small_iff_log2 in Ha', Hb'; lia.
Qed.

Lemma lxor_small (a b : Z) :
  0 <= a < 256 -> 0 <= b < 256 -> 0 <= Z.lxor a b < 256.
Proof.
  intros [Ha Ha'] [Hb Hb'].
  assert (H0 : 0 <= Z.lxor a b) by (apply Z.lxor_nonneg; lia).
  split; [exact H0|].
  apply small_iff_log2; [exact H0|].
  pose proof (Z.log2_lxor a b Ha Hb).
  apply small_iff_log2 in Ha', Hb'; lia.
Qed.

Lemma at_small (b : Buffer) (i : nat) : 0 <= at_ b i < 256.
Proof.
  unfold at_. destruct (nth_error b i) as [x|]; [|lia].
  pose proof (Byte.to_N_bounded x). lia.
Qed.

Lemma bitxor_small (x y : Z) :
  0 <= x < 256 -> 0 <= y < 256 -> bitxor x y = Z.lxor x y.
Proof. intros Hx Hy. unfold bitxor. now rewrite !ToInt32_small. Qed.

Lemma bitor_small (x y : Z) :
  0 <= x < 256 -> 0 <= y < 256 -> bitor x y = Z.lor x y.
Proof. intros Hx Hy. unfold bitor. now rewrite !ToInt32_small. Qed.

(** One round of the loop keeps the accumulator a byte, and leaves it zero
    exactly when it was zero and the two bytes agree. *)
Lemma round_zero (res x y : Z) :
  0 <= res < 256 -> 0 <= x < 256 -> 0 <= y < 256 ->
  0 <= bitor res (bitxor x y) < 256
  /\ (bitor res (bitxor x y) = 0 <-> res = 0 /\ x = y).
Proof.
  intros Hr Hx Hy.
  rewrite bitxor_small by assumption.
  pose proof (lxor_small x y Hx Hy) as Hxy.
  rewrite bitor_small by assumption.
  split; [now apply lor_small|].
  rewrite Z.lor_eq_0_iff, Z.lxor_eq_0_iff. reflexivity.
Qed.

Lemma loop_zero (b1 b2 : Buffer) (n : nat) :
  forall (i : nat) (res : Z),
    0 <= res < 256 ->
    (loop b1 b2 n i res = 0
     <-> res = 0 /\ forall k : nat, (k < n)%nat -> at_ b1 (i + k) = at_ b2 (i + k)).
Proof.
  induction n as [|n IH]; intros i res Hres; cbn [loop].
  - split; [intros ->; split; [reflexivity|intros k Hk; lia]|tauto].
  - destruct (round_zero res (at_ b1 i) (at_ b2 i) Hres (at_small _ _) (at_small _ _))
      as [Hb Hz].
    rewrite (IH (S i) _ Hb), Hz. split.
    + intros [[-> Hi] Hrest]. split; [reflexivity|].
      intros [|k] Hk.
      * now rewrite Nat.add_0_r.
      * rewrite Nat.add_succ_r. apply (Hrest k). lia.
    + intros [-> Hall]. split; [split; [reflexivity|]|].
      * specialize (Hall 0%nat). rewrite Nat.add_0_r in Hall. apply Hall. lia.
      * intros k Hk. specialize (Hall (S k)).
        rewrite Nat.add_succ_r in Hall. apply Hall. lia.
Qed.

Lemma to_N_inj (x y : Byte.byte) : Byte.to_N x = Byte.to_N y -> x = y.
Proof.
  intros E. pose proof (Byte.of_to_N x) as Hx. rewrite E, Byte.of_to_N in Hx.
  congruence.
Qed.

(** Inside both buffers, [b1[i]] and [b2[i]] are the same number exactly
    when they are the same byte. *)
Lemma at_eq_iff (b1 b2 : Buffer) (i : nat) :
  (i < List.length b1)%nat -> (i < List.length b2)%nat ->
  (at_ b1 i = at_ b2 i <-> nth_error b1 i = nth_error b2 i).
Proof.
  intros H1 H2. unfold at_.
  apply nth_error_Some in H1, H2.
  destruct (nth_error b1 i) as [x|]; [|congruence].
  destruct (nth_error b2 i) as [y|]; [|congruence].
  split.
  - intros E. f_equal. apply to_N_inj. lia.
  - congruence.
Qed.

(** C10.  [equalConstTime] returns true if and only if the two buffers have
    the same length and identical bytes at every index. *)
Theorem equalConstTime_true_iff (b1 b2 : Buffer) :
  equalConstTime b1 b2 = true
  <-> List.length b1 = List.length b2
      /\ forall i : nat, (i < List.length b1)%nat ->
                         nth_error b1 i = nth_error b2 i.
Proof.
  unfold equalConstTime.
  destruct (List.length b1 =? List.length b2)%nat eqn:El; cbn [negb].
  - apply Nat.eqb_eq in El.
    rewrite Z.eqb_eq, (loop_zero b1 b2 _ 0%nat 0) by lia.
    split.
    + intros [_ Hall]. split; [exact El|].
      intros i Hi. apply at_eq_iff; [lia|lia|]. apply (Hall i Hi).
    + intros [_ Hall]. split; [reflexivity|].
      intros k Hk. cbn [Nat.add]. apply at_eq_iff; [lia|lia|]. now apply Hall.
  - apply Nat.eqb_neq in El. split; [discriminate|]. intros [E _]. contradiction.
Qed.

End EncryptionFacts.

(** ** The hub: validation, scopes and the write pipeline *)

Module HubFacts.
Import Js Trace Hub Spec.

(** *** The scope check *)

Lemma collectScopes_filter (scopes : list AuthScope) :
  forall writePrefixes writePaths,
    collectScopes scopes writePrefixes writePaths
    = ((writePrefixes ++ map domain (filter isPutFilePrefix scopes))%list,
       (writePaths ++ map domain (filter isPutFile scopes))%list).
Proof.
  induction scopes as [|s rest IH]; intros wp wf; cbn [collectScopes filter map].
  - now rewrite !app_nil_r.
  - unfold isPutFilePrefix, isPutFile.
    destruct (scope s =? "putFilePrefix") eqn:Ep.
    + apply String.eqb_eq in Ep.
      assert (Ef : (scope s =? "putFile") = false) by (rewrite Ep; reflexivity).
      rewrite Ef, IH. cbn [map]. now rewrite <- app_assoc.
    + destruct (scope s =? "putFile") eqn:Ef; rewrite IH; cbn [map];
        now rewrite <- ?app_assoc.
Qed.

(** On non-empty strings, [!!array.find(pred)] is [array.some(pred)]. *)
Lemma found_existsb (pred : string -> bool) (l : list string) :
  (forall p, In p l -> p <> "") -> found pred l = existsb pred l.
Proof.
  unfold found. induction l as [|p l IH]; intros Hne; cbn [find existsb].
  - reflexivity.
  - destruct (pred p) eqn:Ep; cbn [orb].
    + destruct (p =? "") eqn:E; [|reflexivity].
      apply String.eqb_eq in E. exfalso. apply (Hne p); [now left|exact E].
    + apply IH. intros q Hq. apply Hne. now right.
Qed.

Lemma existsb_map_filter {A B} (f : A -> B) (keep : A -> bool)
    (pred : B -> bool) (l : list A) :
  existsb pred (map f (filter keep l)) = existsb (fun a => keep a && pred (f a)) l.
Proof.
  induction l as [|a l IH]; cbn [filter map existsb]; [reflexivity|].
  destruct (keep a); cbn [map existsb andb]; now rewrite IH.
Qed.

Lemma existsb_orb {A} (f g : A -> bool) (l : list A) :
  existsb (fun a => f a || g a) l = existsb f l || existsb g l.
Proof.
  induction l as [|a l IH]; cbn [existsb]; [reflexivity|].
  rewrite IH. destruct (f a), (g a), (existsb f l), (existsb g l); reflexivity.
Qed.

Lemma nonempty_existsb {A} (keep : A -> bool) (f : A -> string) (l : list A) :
  (0 <? List.length (map f (filter keep l)))%nat = existsb keep l.
Proof.
  induction l as [|a l IH]; cbn [filter map existsb]; [reflexivity|].
  destruct (keep a); [reflexivity|exact IH].
Qed.

Lemma existsb_Permutation {A} (f : A -> bool) (l l' : list A) :
  Permutation l l' -> existsb f l = existsb f l'.
Proof.
  intros HP. induction HP; cbn [existsb].
  - reflexivity.
  - now rewrite IHHP.
  - destruct (f x), (f y); reflexivity.
  - congruence.
Qed.

(** The decision of the scope check, when no restricting scope has an
    empty domain: it makes no call; it lets every path through when no
    scope restricts, and otherwise exactly the paths some scope grants. *)
Lemma checkScopes_decision (address path : string) (scopes : list AuthScope) :
  (forall s, In s scopes -> restricts s = true -> domain s <> "") ->
  checkScopes address path scopes
  = ([], if existsb restricts scopes
         then if existsb (grants path) scopes then Return tt
              else Throw (notAuthorizedByScopes address path)
         else Return tt).
Proof.
  intros Hne. unfold checkScopes. rewrite collectScopes_filter, !app_nil_l.
  rewrite !nonempty_existsb.
  assert (Hr : existsb isPutFilePrefix scopes || existsb isPutFile scopes
               = existsb restricts scopes)
    by (symmetry; apply existsb_orb).
  rewrite Hr. destruct (existsb restricts scopes); [|reflexivity].
  rewrite !found_existsb.
  - rewrite !existsb_map_filter.
    assert (Hg : existsb (grants path) scopes
                 = existsb (fun a => isPutFilePrefix a && startsWith path (domain a)) scopes
                   || existsb (fun a => isPutFile a && (path =? domain a)) scopes)
      by (apply existsb_orb).
    rewrite Hg.
    destruct (existsb (fun a => isPutFilePrefix a && startsWith path (domain a)) scopes);
      cbn [negb orb]; [reflexivity|].
    destruct (existsb (fun a => isPutFile a && (path =? domain a)) scopes);
      reflexivity.
  - intros p Hp. apply in_map_iff in Hp as (s & <- & Hs).
    apply filter_In in Hs as [Hin Hk]. apply Hne; [exact Hin|].
    unfold restricts. now rewrite Hk, orb_true_r.
  - intros p Hp. apply in_map_iff in Hp as (s & <- & Hs).
    apply filter_In in Hs as [Hin Hk]. apply Hne; [exact Hin|].
    unfold restricts. now rewrite Hk.
Qed.

(** The scope check calls no collaborator. *)
Lemma checkScopes_calls (address path : string) (scopes : list AuthScope) :
  calls (checkScopes address path scopes) = [].
Proof.
  unfold checkScopes. destruct (collectScopes scopes [] []) as [wp wf].
  destruct ((0 <? List.length wp)%nat || (0 <? List.length wf)%nat); [|reflexivity].
  match goal with |- context [if negb ?m then throw _ else ret _] => destruct m end;
    reflexivity.
Qed.

(** *** The run of [validate] and of [handleRequest] *)

Section Pipeline.
Context `{Authentication}.
Variables (this : HubServer) (address path : string).
Variables (requestHeaders : Headers) (stream : Readable).

Lemma validate_unfold :
  validate this address requestHeaders
  = ([CallValidateAuthorizationHeader (authorization requestHeaders) address],
     match validateAuthorizationHeader (authorization requestHeaders)
             (serverName this) address (requireCorrectHubUrl this)
             (validHubUrls this) (blacklist this) with
     | Throw e => Throw e
     | Return signingAddress =>
         match whitelist this with
         | Some wl =>
             if includes wl signingAddress then Return tt
             else Throw (notAuthorizedForWrites signingAddress)
         | None => Return tt
         end
     end).
Proof.
  unfold validate, bind, tbind, call.
  destruct (validateAuthorizationHeader _ _ _ _ _ _) as [sa|e]; [|reflexivity].
  destruct (whitelist this) as [wl|]; [|reflexivity].
  destruct (includes wl sa); reflexivity.
Qed.

Lemma validate_calls :
  calls (validate this address requestHeaders)
  = [CallValidateAuthorizationHeader (authorization requestHeaders) address].
Proof. now rewrite validate_unfold. Qed.

Lemma rewriteReadURL_unfold (readURL : string) :
  rewriteReadURL this readURL
  = ((CallDriverGetReadURLPrefix :: calls (getReadURLPrefix this)),
     let driverPrefix := driver_getReadURLPrefix (driver this) in
     let readURLPrefix := outcome (getReadURLPrefix this) in
     Resolved
       (if negb (readURLPrefix =? driverPrefix) && prefix driverPrefix readURL
        then readURLPrefix ++ slice_from (String.length driverPrefix) readURL
        else readURL)).
Proof.
  unfold rewriteReadURL, tbind, call, startsWith.
  destruct (getReadURLPrefix this) as [t r]. cbn [calls outcome fst snd].
  destruct (negb (r =? _) && _); cbn; now rewrite app_nil_r.
Qed.

(** The run of [handleRequest], step by step. *)
Lemma handleRequest_unfold :
  let V := CallValidateAuthorizationHeader (authorization requestHeaders) address in
  let S := CallGetAuthenticationScopes (authorization requestHeaders) in
  let pc := getReadURLPrefix this in
  let CP := CallCheckProofs address path (outcome pc) in
  let cmd := makeWriteCommand address path stream (contentTypeOf requestHeaders)
               requestHeaders in
  handleRequest this address path requestHeaders stream
  = match outcome (validate this address requestHeaders) with
    | Throw e => ([V], Throw e)
    | Return _ =>
        match getAuthenticationScopes (authorization requestHeaders) with
        | Throw e => ([V; S], Throw e)
        | Return scopes =>
            match outcome (checkScopes address path scopes) with
            | Throw e => ([V; S], Throw e)
            | Return _ =>
                match checkProofs (proofChecker this) address path (outcome pc) with
                | Rejected e =>
                    (([V; S] ++ calls pc ++ [CP])%list, Return (Rejected e))
                | Resolved _ =>
                    match performWrite (driver this) cmd with
                    | Rejected e =>
                        (([V; S] ++ calls pc ++ [CP; CallPerformWrite cmd])%list,
                         Return (Rejected e))
                    | Resolved readURL =>
                        (([V; S] ++ calls pc ++ [CP; CallPerformWrite cmd]
                            ++ calls (rewriteReadURL this readURL))%list,
                         Return (outcome (rewriteReadURL this readURL)))
                    end
                end
            end
        end
    end.
Proof.
  intros V S pc CP cmd. subst V S pc CP cmd.
  unfold handleRequest. rewrite validate_unfold. cbn [outcome snd].
  unfold bind at 1. unfold tbind at 1.
  match goal with
  | |- context [match ?x with Return _ => _ | Throw _ => _ end] =>
      destruct x as [[]|e] eqn:Ev
  end; [|reflexivity].
  unfold bind at 1, tbind at 1, call at 1.
  destruct (getAuthenticationScopes (authorization requestHeaders)) as [scopes|e];
    [|reflexivity].
  unfold bind, tbind.
  pose proof (checkScopes_calls address path scopes) as Hc.
  destruct (checkScopes address path scopes) as [tc [[]|e]];
    cbn [calls outcome fst snd] in *; subst tc; [|reflexivity].
  fold (contentTypeOf requestHeaders).
  destruct (getReadURLPrefix this) as [tp rp] eqn:Ep. cbn [calls outcome fst snd].
  unfold then_, tbind, call.
  destruct (checkProofs (proofChecker this) address path rp) as [[]|e];
    [|cbn; rewrite ?app_nil_r; reflexivity].
  destruct (performWrite (driver this) _) as [readURL|e];
    [|cbn; rewrite ?app_nil_r, <- ?app_assoc; reflexivity].
  destruct (rewriteReadURL this readURL) as [tr rr]. cbn.
  rewrite ?app_nil_r, <- ?app_assoc. reflexivity.
Qed.

End Pipeline.

(** *** Strings *)

Lemma substring_all (s : string) : substring 0 (String.length s) s = s.
Proof. induction s as [|c s IH]; cbn; [reflexivity|now rewrite IH]. Qed.

(** A string that starts with [p] is [p] followed by its slice past [p]. *)
Lemma prefix_slice (p s : string) :
  prefix p s = true -> s = p ++ slice_from (String.length p) s.
Proof.
  unfold slice_from. revert s.
  induction p as [|c p IH]; intros s Hp.
  - cbn. rewrite Nat.sub_0_r. now rewrite substring_all.
  - destruct s as [|d s]; [discriminate|]. cbn in Hp.
    destruct (ascii_dec c d) as [->|]; [|discriminate].
    cbn. f_equal. now apply IH.
Qed.

Lemma includes_In (l : list string) (x : string) :
  includes l x = true <-> In x l.
Proof.
  unfold includes. rewrite existsb_exists. split.
  - intros (y & Hy & E). apply String.eqb_eq in E. now subst.
  - intros Hx. exists x. split; [exact Hx|apply String.eqb_refl].
Qed.

Lemma getReadURLPrefix_calls (this : HubServer) :
  calls (getReadURLPrefix this) = []
  \/ calls (getReadURLPrefix this) = [CallDriverGetReadURLPrefix].
Proof.
  unfold getReadURLPrefix. destruct (readURL this) as [r|]; [|now right].
  destruct (negb (r =? "")); [now left|now right].
Qed.

(** The prefix the hub advertises: the configured read URL unless it is
    absent or empty. *)
Lemma getReadURLPrefix_outcome (this : HubServer) :
  outcome (getReadURLPrefix this)
  = match readURL this with
    | Some r => if r =? "" then driver_getReadURLPrefix (driver this) else r
    | None => driver_getReadURLPrefix (driver this)
    end.
Proof.
  unfold getReadURLPrefix. destruct (readURL this) as [r|]; [|reflexivity].
  destruct (r =? ""); reflexivity.
Qed.

(** *** Address authorization *)

(** C2.  When the header validates to [signingAddress]: with a whitelist,
    [validate] returns exactly when the address is on it and otherwise
    throws the [ValidationError] whose message names the address; with no
    whitelist it accepts every address.  A failure of [validate] is the
    failure of both the write and the list request. *)
Theorem validate_whitelist `{Authentication} (this : HubServer)
    (address : string) (requestHeaders : Headers) (signingAddress : string) :
  validateAuthorizationHeader (authorization requestHeaders) (serverName this)
    address (requireCorrectHubUrl this) (validHubUrls this) (blacklist this)
  = Return signingAddress ->
  match whitelist this with
  | Some wl =>
      (outcome (validate this address requestHeaders) = Return tt
       <-> In signingAddress wl)
      /\ (~ In signingAddress wl ->
          outcome (validate this address requestHeaders)
          = Throw (ValidationError
                     ("Address " ++ signingAddress ++ " not authorized for writes")))
  | None => outcome (validate this address requestHeaders) = Return tt
  end
  /\ (forall e, outcome (validate this address requestHeaders) = Throw e ->
        (forall path stream,
            outcome (handleRequest this address path requestHeaders stream)
            = Throw e)
        /\ (forall page,
               outcome (handleListFiles this address page requestHeaders)
               = Throw e)).
Proof.
  intros Hv. split.
  - rewrite validate_unfold, Hv. cbn [outcome snd].
    destruct (whitelist this) as [wl|]; [|reflexivity].
    destruct (includes wl signingAddress) eqn:Ei.
    + apply includes_In in Ei. split; [tauto|]. intros Hn. contradiction.
    + assert (Hn : ~ In signingAddress wl).
      { intros Hin. apply includes_In in Hin. congruence. }
      split; [|reflexivity]. split; [discriminate|contradiction].
  - intros e He. split.
    + intros path stream. rewrite handleRequest_unfold. cbv zeta.
      now rewrite He.
    + intros page. unfold handleListFiles, bind, tbind.
      destruct (validate this address requestHeaders) as [t r].
      cbn [outcome snd] in He. subst r. reflexivity.
Qed.

(** *** Path authorization *)

(** Once the token is validated and its scopes are read, [handleRequest]
    throws what the scope check throws, and otherwise returns its promise. *)
Lemma handleRequest_after_scopes `{Authentication} (this : HubServer)
    (address path : string) (requestHeaders : Headers) (stream : Readable)
    (scopes : list AuthScope) :
  outcome (validate this address requestHeaders) = Return tt ->
  getAuthenticationScopes (authorization requestHeaders) = Return scopes ->
  match outcome (checkScopes address path scopes) with
  | Throw e =>
      outcome (handleRequest this address path requestHeaders stream) = Throw e
  | Return _ =>
      exists p,
        outcome (handleRequest this address path requestHeaders stream) = Return p
  end.
Proof.
  intros Hv Hs. rewrite handleRequest_unfold. cbv zeta. rewrite Hv, Hs.
  destruct (outcome (checkScopes address path scopes)) as [[]|e]; [|reflexivity].
  destruct (checkProofs _ _ _ _) as [[]|e]; [|eexists; reflexivity].
  destruct (performWrite _ _) as [u|e]; eexists; reflexivity.
Qed.

(** C1, as the code has it.  For a validated write request whose scopes of
    kind [putFilePrefix] and [putFile] have non-empty domains: if no scope
    of the list is of these two kinds (in particular if the list is empty)
    every path passes; otherwise the request passes if and only if some
    [putFilePrefix] domain is a prefix of the path or some [putFile] domain
    is the path; when none is, [handleRequest] throws a [ValidationError];
    the order of the scopes does not change the decision.  With the single
    scope [{putFilePrefix, "a/"}], the paths ["a/b"] and ["a/"] pass and
    ["b/a"] does not. *)
Theorem handleRequest_scopes `{Authentication} (this : HubServer)
    (address path : string) (requestHeaders : Headers) (stream : Readable)
    (scopes : list AuthScope) :
  outcome (validate this address requestHeaders) = Return tt ->
  getAuthenticationScopes (authorization requestHeaders) = Return scopes ->
  (forall s, In s scopes -> restricts s = true -> domain s <> "") ->
  let passes :=
    exists p,
      outcome (handleRequest this address path requestHeaders stream) = Return p in
  (existsb restricts scopes = false -> passes)
  /\ (existsb restricts scopes = true ->
      (passes <-> exists s, In s scopes /\ grants path s = true))
  /\ (existsb restricts scopes = true ->
      (forall s, In s scopes -> grants path s = false) ->
      outcome (handleRequest this address path requestHeaders stream)
      = Throw (ValidationError
                 ("Address " ++ address ++ " not authorized to write to "
                  ++ path ++ " by scopes")))
  /\ (forall scopes', Permutation scopes scopes' ->
      outcome (checkScopes address path scopes')
      = outcome (checkScopes address path scopes))
  /\ (let a := [{| scope := "putFilePrefix"; domain := "a/" |}] in
      outcome (checkScopes address "a/b" a) = Return tt
      /\ outcome (checkScopes address "a/" a) = Return tt
      /\ outcome (checkScopes address "b/a" a)
         = Throw (ValidationError
                    ("Address " ++ address
                     ++ " not authorized to write to b/a by scopes"))).
Proof.
  intros Hv Hs Hne passes. subst passes.
  pose proof (handleRequest_after_scopes this address path requestHeaders stream
                scopes Hv Hs) as Hafter.
  rewrite (checkScopes_decision address path scopes Hne) in Hafter.
  cbn [outcome snd] in Hafter.
  split; [|split; [|split; [|split]]].
  - intros Hr. now rewrite Hr in Hafter.
  - intros Hr. rewrite Hr in Hafter. rewrite <- existsb_exists.
    destruct (existsb (grants path) scopes).
    + split; [reflexivity|intros _; exact Hafter].
    + split; [|discriminate]. intros [p Hp]. congruence.
  - intros Hr Hnone. rewrite Hr in Hafter.
    destruct (existsb (grants path) scopes) eqn:Eg; [|exact Hafter].
    apply existsb_exists in Eg as (s & Hin & Hg).
    rewrite (Hnone s Hin) in Hg. discriminate.
  - intros scopes' HP.
    rewrite (checkScopes_decision address path scopes Hne).
    rewrite (checkScopes_decision address path scopes').
    + cbn [outcome snd].
      now rewrite <- (existsb_Permutation restricts scopes scopes' HP),
                  <- (existsb_Permutation (grants path) scopes scopes' HP).
    + intros s Hin. apply Hne. eapply Permutation_in; [|exact Hin].
      now apply Permutation_sym.
  - repeat split.
Qed.

(** The scopes of the example of C1 pass the first premise of the theorem
    on a hub without whitelist. *)
Lemma handleRequest_scopes_witness :
  exists p,
    outcome (handleRequest
               (H := Fixtures.authenticationWith
                       [{| scope := "putFilePrefix"; domain := "a/" |}])
               (Fixtures.hub Fixtures.okDriver Fixtures.okProofs None None)
               "1A" "a/b" (Fixtures.bearer "1A") [])
    = Return p.
Proof.
  apply (handleRequest_scopes
           (H := Fixtures.authenticationWith
                   [{| scope := "putFilePrefix"; domain := "a/" |}])
           (Fixtures.hub Fixtures.okDriver Fixtures.okProofs None None)
           "1A" "a/b" (Fixtures.bearer "1A") []
           [{| scope := "putFilePrefix"; domain := "a/" |}]).
  - reflexivity.
  - reflexivity.
  - intros s [<-|[]] _. discriminate.
  - reflexivity.
  - exists {| scope := "putFilePrefix"; domain := "a/" |}.
    split; [now left|reflexivity].
Defined.

(** C1, as stated, fails: a list that is not empty but holds no scope of the
    two kinds lets through a path that no scope grants. *)
Lemma handleRequest_scopes_counterexample :
  ~ (forall (A : Authentication) (this : HubServer) (address path : string)
            (requestHeaders : Headers) (stream : Readable)
            (scopes : list AuthScope),
        outcome (validate this address requestHeaders) = Return tt ->
        getAuthenticationScopes (authorization requestHeaders) = Return scopes ->
        scopes <> [] ->
        ((exists p,
             outcome (handleRequest this address path requestHeaders stream)
             = Return p)
         <-> exists s, In s scopes /\ grants path s = true)).
Proof.
  intros claim.
  pose (other := {| scope := "deleteFile"; domain := "x" |}).
  destruct (claim (Fixtures.authenticationWith [other])
                  (Fixtures.hub Fixtures.okDriver Fixtures.okProofs None None)
                  "1A" "y" (Fixtures.bearer "1A") [] [other]
                  eq_refl eq_refl) as [Hpass _]; [discriminate|].
  destruct Hpass as (s & [<-|[]] & Hg).
  - eexists. reflexivity.
  - discriminate.
Qed.

(** What the hypothesis on domains leaves out: a [putFilePrefix] scope with
    the empty domain is found by [find] and lost by [!!], so that it grants
    nothing, and hides the scopes after it. *)
Example checkScopes_empty_domain :
  let empty := {| scope := "putFilePrefix"; domain := "" |} in
  let a := {| scope := "putFilePrefix"; domain := "a/" |} in
  outcome (checkScopes "1A" "a/b" [empty])
  = Throw (notAuthorizedByScopes "1A" "a/b")
  /\ outcome (checkScopes "1A" "a/b" [empty; a])
     = Throw (notAuthorizedByScopes "1A" "a/b")
  /\ outcome (checkScopes "1A" "a/b" [a; empty]) = Return tt.
Proof. repeat split. Qed.

(** *** The write pipeline *)

Section Stages.
Context `{Authentication}.
Variables (this : HubServer) (address path : string).
Variables (requestHeaders : Headers) (stream : Readable).

Let V := CallValidateAuthorizationHeader (authorization requestHeaders) address.
Let S := CallGetAuthenticationScopes (authorization requestHeaders).
Let pc := getReadURLPrefix this.
Let CP := CallCheckProofs address path (outcome pc).
Let cmd :=
  makeWriteCommand address path stream (contentTypeOf requestHeaders)
    requestHeaders.
Let run := handleRequest this address path requestHeaders stream.

(** How far a write request gets: it stops at the validation, at the
    scopes, at the proof check or at the driver write, or it goes through. *)
Lemma handleRequest_stages :
  (exists e, outcome (validate this address requestHeaders) = Throw e
             /\ run = ([V], Throw e))
  \/ (exists e, outcome (validate this address requestHeaders) = Return tt
                /\ run = ([V; S], Throw e))
  \/ (exists e, outcome (validate this address requestHeaders) = Return tt
                /\ checkProofs (proofChecker this) address path (outcome pc)
                   = Rejected e
                /\ run = (([V; S] ++ calls pc ++ [CP])%list, Return (Rejected e)))
  \/ (exists e, outcome (validate this address requestHeaders) = Return tt
                /\ checkProofs (proofChecker this) address path (outcome pc)
                   = Resolved tt
                /\ performWrite (driver this) cmd = Rejected e
                /\ run = (([V; S] ++ calls pc ++ [CP; CallPerformWrite cmd])%list,
                          Return (Rejected e)))
  \/ (exists readURL,
         outcome (validate this address requestHeaders) = Return tt
         /\ checkProofs (proofChecker this) address path (outcome pc)
            = Resolved tt
         /\ performWrite (driver this) cmd = Resolved readURL
         /\ run = (pipelineCalls this address path requestHeaders stream,
                   Return (outcome (rewriteReadURL this readURL)))).
Proof.
  subst run. rewrite handleRequest_unfold. cbv zeta.
  destruct (outcome (validate this address requestHeaders)) as [[]|e] eqn:Ev;
    [|left; now exists e].
  right.
  destruct (getAuthenticationScopes (authorization requestHeaders)) as [scopes|e];
    [|left; now exists e].
  destruct (outcome (checkScopes address path scopes)) as [[]|e];
    [|left; now exists e].
  right. fold pc.
  destruct (checkProofs (proofChecker this) address path (outcome pc)) as [[]|e]
    eqn:Ep; [|left; now exists e].
  right. fold cmd.
  destruct (performWrite (driver this) cmd) as [readURL|e] eqn:Ew;
    [|left; now exists e].
  right. exists readURL. repeat split.
  rewrite rewriteReadURL_unfold. reflexivity.
Qed.

End Stages.

Ltac stages this address path requestHeaders stream :=
  destruct (handleRequest_stages this address path requestHeaders stream)
    as [(e & Hv & Hrun)
       |[(e & Hv & Hrun)
        |[(e & Hv & Hp & Hrun)
         |[(e & Hv & Hp & Hw & Hrun)
          |(readURL & Hv & Hp & Hw & Hrun)]]]];
  rewrite Hrun; cbn [calls outcome fst snd].

Ltac prefix_calls this :=
  destruct (getReadURLPrefix_calls this) as [Hpc|Hpc]; rewrite ?Hpc in *.

(** C8.  The calls of [handleRequest] are an initial part of the sequence
    validate, scopes, proof check, driver write, URL rewrite; the proof
    checker is not consulted when the validation fails; [performWrite] is
    not invoked when the proof check fails, and its failure is the failure
    of the request; a failed write is the last call, and its failure is
    passed on without rewrite.  The scope check has its place between the
    validation and the proof check: when the scopes cannot be read or
    refuse the path, the request ends there with this exception, after the
    two calls of the validation and of the scopes; whenever [handleRequest]
    throws, neither the proof checker nor the driver has been called; and
    the proof checker is consulted only once the validation and the scope
    check have both passed. *)
Theorem handleRequest_order `{Authentication} (this : HubServer)
    (address path : string) (requestHeaders : Headers) (stream : Readable) :
  let run := handleRequest this address path requestHeaders stream in
  (exists n, calls run
             = firstn n (pipelineCalls this address path requestHeaders stream))
  /\ (forall e, outcome (validate this address requestHeaders) = Throw e ->
        outcome run = Throw e
        /\ existsb isCheckProofs (calls run) = false
        /\ existsb isPerformWrite (calls run) = false)
  /\ (forall a p r e,
        In (CallCheckProofs a p r) (calls run) ->
        checkProofs (proofChecker this) a p r = Rejected e ->
        outcome run = Return (Rejected e)
        /\ existsb isPerformWrite (calls run) = false)
  /\ (forall cmd e,
        In (CallPerformWrite cmd) (calls run) ->
        performWrite (driver this) cmd = Rejected e ->
        outcome run = Return (Rejected e)
        /\ exists before, calls run = (before ++ [CallPerformWrite cmd])%list)
  /\ (forall readURL, outcome run = Return (Resolved readURL) ->
        calls run = pipelineCalls this address path requestHeaders stream)
  /\ (outcome (validate this address requestHeaders) = Return tt ->
      match getAuthenticationScopes (authorization requestHeaders) with
      | Throw e =>
          run = ([CallValidateAuthorizationHeader (authorization requestHeaders)
                    address;
                  CallGetAuthenticationScopes (authorization requestHeaders)],
                 Throw e)
      | Return scopes =>
          forall e, outcome (checkScopes address path scopes) = Throw e ->
            run = ([CallValidateAuthorizationHeader
                      (authorization requestHeaders) address;
                    CallGetAuthenticationScopes (authorization requestHeaders)],
                   Throw e)
      end)
  /\ (forall e, outcome run = Throw e ->
        forall ev, In ev (calls run) ->
          ev = CallValidateAuthorizationHeader (authorization requestHeaders)
                 address
          \/ ev = CallGetAuthenticationScopes (authorization requestHeaders))
  /\ (forall a p r, In (CallCheckProofs a p r) (calls run) ->
        outcome (validate this address requestHeaders) = Return tt
        /\ exists scopes,
             getAuthenticationScopes (authorization requestHeaders) = Return scopes
             /\ outcome (checkScopes address path scopes) = Return tt).
Proof.
  intros run. subst run.
  split; [|split; [|split; [|split; [|split; [|split; [|split]]]]]].
  - unfold pipelineCalls.
    stages this address path requestHeaders stream.
    + now exists 1%nat.
    + now exists 2%nat.
    + exists (3 + List.length (calls (getReadURLPrefix this)))%nat.
      prefix_calls this; reflexivity.
    + exists (4 + List.length (calls (getReadURLPrefix this)))%nat.
      prefix_calls this; reflexivity.
    + exists (List.length (pipelineCalls this address path requestHeaders stream)).
      now rewrite firstn_all.
  - intros e' He'.
    stages this address path requestHeaders stream; try congruence.
    split; [congruence|split; reflexivity].
  - intros a p r e' Hin Hrej. revert Hin.
    stages this address path requestHeaders stream; unfold pipelineCalls;
      prefix_calls this; cbn [app In existsb isPerformWrite orb];
      intros Hin; repeat (destruct Hin as [Hin|Hin]; try discriminate Hin);
      try contradiction; injection Hin as <- <- <-;
      try congruence; (split; [congruence|reflexivity]).
  - intros cmd e' Hin Hrej. revert Hin.
    stages this address path requestHeaders stream; unfold pipelineCalls;
      prefix_calls this; cbn [app In existsb isPerformWrite orb];
      intros Hin; repeat (destruct Hin as [Hin|Hin]; try discriminate Hin);
      try contradiction; injection Hin as <-;
      try congruence;
      (split; [congruence|]);
      match goal with
      | |- exists b, ?l = _ => exists (removelast l); reflexivity
      end.
  - intros u.
    stages this address path requestHeaders stream; try discriminate.
    reflexivity.
  - intros Hv. rewrite handleRequest_unfold. cbv zeta. rewrite Hv.
    destruct (getAuthenticationScopes (authorization requestHeaders))
      as [scopes|e]; [|reflexivity].
    intros e He. now rewrite He.
  - intros e'.
    stages this address path requestHeaders stream; try discriminate;
      intros _ ev Hin; cbn [In] in Hin; intuition.
  - intros a p r. rewrite handleRequest_unfold. cbv zeta.
    destruct (outcome (validate this address requestHeaders)) as [[]|e];
      [|intros [Hin|[]]; discriminate Hin].
    destruct (getAuthenticationScopes (authorization requestHeaders))
      as [scopes|e]; [|intros [Hin|[Hin|[]]]; discriminate Hin].
    destruct (outcome (checkScopes address path scopes)) as [[]|e] eqn:Es;
      [|intros [Hin|[Hin|[]]]; discriminate Hin].
    intros _. split; [reflexivity|]. exists scopes. now split.
Qed.

(** The write command of a request is the one [handleRequest] builds. *)
Lemma performWrite_call `{Authentication} (this : HubServer)
    (address path : string) (requestHeaders : Headers) (stream : Readable)
    (cmd : WriteCommand) :
  In (CallPerformWrite cmd)
     (calls (handleRequest this address path requestHeaders stream)) ->
  cmd = makeWriteCommand address path stream (contentTypeOf requestHeaders)
          requestHeaders.
Proof.
  stages this address path requestHeaders stream; unfold pipelineCalls;
    prefix_calls this; cbn [app In];
    intros Hin; repeat (destruct Hin as [Hin|Hin]; try discriminate Hin);
    try contradiction; now injection Hin as <-.
Qed.

(** C7.  When the driver has written and returned [driverURL]: if the hub
    has a configured (non-empty) read URL that differs from the driver's
    prefix and [driverURL] starts with the driver's prefix, [handleRequest]
    resolves to [driverURL] with that prefix replaced by the configured
    one; in every other case it resolves to [driverURL] itself. *)
Theorem handleRequest_readURL `{Authentication} (this : HubServer)
    (address path : string) (requestHeaders : Headers) (stream : Readable)
    (cmd : WriteCommand) (driverURL : string) :
  In (CallPerformWrite cmd)
     (calls (handleRequest this address path requestHeaders stream)) ->
  performWrite (driver this) cmd = Resolved driverURL ->
  let driverPrefix := driver_getReadURLPrefix (driver this) in
  let result := outcome (handleRequest this address path requestHeaders stream) in
  (forall configured,
      readURL this = Some configured -> configured <> "" ->
      configured <> driverPrefix -> prefix driverPrefix driverURL = true ->
      exists postFix,
        driverURL = driverPrefix ++ postFix
        /\ result = Return (Resolved (configured ++ postFix)))
  /\ (readURL this = None \/ readURL this = Some ""
      \/ readURL this = Some driverPrefix
      \/ prefix driverPrefix driverURL = false ->
      result = Return (Resolved driverURL)).
Proof.
  intros Hin Hw' driverPrefix result. subst driverPrefix result.
  pose proof (performWrite_call _ _ _ _ _ _ Hin) as ->.
  assert (Hrun : outcome (handleRequest this address path requestHeaders stream)
                 = Return (outcome (rewriteReadURL this driverURL))).
  { revert Hin.
    stages this address path requestHeaders stream;
      [intros Hin; exfalso; prefix_calls this; cbn [app In] in Hin;
       repeat (destruct Hin as [Hin|Hin]; try discriminate Hin);
       contradiction ..
      |congruence
      |congruence]. }
  rewrite Hrun, rewriteReadURL_unfold, getReadURLPrefix_outcome.
  cbn [outcome snd]. cbv zeta.
  set (dp := driver_getReadURLPrefix (driver this)).
  split.
  - intros configured Hc Hne Hdiff Hpre. rewrite Hc.
    apply String.eqb_neq in Hne, Hdiff. rewrite Hne, Hdiff, Hpre. cbn [negb andb].
    exists (slice_from (String.length dp) driverURL).
    split; [now apply prefix_slice|reflexivity].
  - intros [Hnone|[Hempty|[Hsame|Hpre]]].
    + rewrite Hnone, String.eqb_refl. reflexivity.
    + rewrite Hempty. cbn. rewrite String.eqb_refl. reflexivity.
    + rewrite Hsame. destruct (dp =? ""); rewrite String.eqb_refl; reflexivity.
    + rewrite Hpre, andb_false_r. reflexivity.
Qed.

(** A hub that advertises [http://read/] over a driver that writes under
    [http://driver/]: the URL of the write is rewritten. *)
Lemma handleRequest_readURL_witness :
  exists postFix,
    "http://driver/1A/foo/bar" = "http://driver/" ++ postFix
    /\ outcome (handleRequest (H := Fixtures.authenticationWith [])
                  (Fixtures.hub Fixtures.okDriver Fixtures.okProofs None
                     (Some "http://read/"))
                  "1A" "foo/bar" (Fixtures.bearer "1A") [])
       = Return (Resolved ("http://read/" ++ postFix)).
Proof.
  apply (handleRequest_readURL (H := Fixtures.authenticationWith [])
           (Fixtures.hub Fixtures.okDriver Fixtures.okProofs None
              (Some "http://read/"))
           "1A" "foo/bar" (Fixtures.bearer "1A") []
           (makeWriteCommand "1A" "foo/bar" [] "application/octet-stream"
              (Fixtures.bearer "1A"))
           "http://driver/1A/foo/bar").
  - cbn. right. right. right. now left.
  - reflexivity.
  - reflexivity.
  - discriminate.
  - discriminate.
  - reflexivity.
Defined.

(** C9.  The command handed to [performWrite] carries the content type
    [application/octet-stream] when the [content-type] header is [null] or
    [undefined], and the value of the header otherwise; a write that
    completes has handed such a command to the driver. *)
Theorem handleRequest_contentType `{Authentication} (this : HubServer)
    (address path : string) (requestHeaders : Headers) (stream : Readable) :
  let run := handleRequest this address path requestHeaders stream in
  (forall cmd, In (CallPerformWrite cmd) (calls run) ->
     (content_type requestHeaders = Undefined
      \/ content_type requestHeaders = Null ->
      contentType cmd = "application/octet-stream")
     /\ (forall s, content_type requestHeaders = Str s -> contentType cmd = s))
  /\ (forall readURL, outcome run = Return (Resolved readURL) ->
      exists cmd, In (CallPerformWrite cmd) (calls run)).
Proof.
  intros run. subst run. split.
  - intros cmd Hin. rewrite (performWrite_call _ _ _ _ _ _ Hin).
    unfold makeWriteCommand, contentTypeOf. cbn [contentType]. split.
    + intros [->| ->]; reflexivity.
    + intros s ->. reflexivity.
  - intros u.
    stages this address path requestHeaders stream; try discriminate.
    intros _. eexists. unfold pipelineCalls.
    apply in_or_app. right. apply in_or_app. right. right. left. reflexivity.
Qed.

(** Two runs on the test doubles: a header is passed on as it is, and a
    request without one gets the default. *)
Example handleRequest_contentType_runs :
  let hub := Fixtures.hub Fixtures.okDriver Fixtures.okProofs None None in
  let typed := {| content_type := Str "text/plain";
                  content_length := Str "5";
                  authorization := "bearer 1A" |} in
  In (CallPerformWrite
        {| storageTopLevel := "1A"; path := "f"; stream := [];
           contentType := "text/plain"; contentLength := Num 5 |})
     (calls (handleRequest (H := Fixtures.authenticationWith [])
               hub "1A" "f" typed []))
  /\ In (CallPerformWrite
           {| storageTopLevel := "1A"; path := "f"; stream := [];
              contentType := "application/octet-stream"; contentLength := NaN |})
        (calls (handleRequest (H := Fixtures.authenticationWith [])
                  hub "1A" "f" (Fixtures.bearer "1A") [])).
Proof. cbn. intuition. Qed.

(** Three runs on the test doubles: a refused address stops at the
    validation, a missing proof stops before the driver, a failed write is
    not rewritten. *)
Example handleRequest_order_runs :
  let A := Fixtures.authenticationWith [] in
  let V := CallValidateAuthorizationHeader "bearer 1A" "1A" in
  let S := CallGetAuthenticationScopes "bearer 1A" in
  let cmd := makeWriteCommand "1A" "f" [] "application/octet-stream"
               (Fixtures.bearer "1A") in
  handleRequest (H := A)
    (Fixtures.hub Fixtures.okDriver Fixtures.okProofs (Some ["1B"]) None)
    "1A" "f" (Fixtures.bearer "1A") []
  = ([V], Throw (notAuthorizedForWrites "1A"))
  /\ handleRequest (H := A)
       (Fixtures.hub Fixtures.okDriver Fixtures.noProofs None (Some "http://read/"))
       "1A" "f" (Fixtures.bearer "1A") []
     = ([V; S; CallCheckProofs "1A" "f" "http://read/"],
        Return (Rejected (NotEnoughProofError "Not enough social proofs")))
  /\ handleRequest (H := A)
       (Fixtures.hub Fixtures.failingDriver Fixtures.okProofs None
          (Some "http://read/"))
       "1A" "f" (Fixtures.bearer "1A") []
     = ([V; S; CallCheckProofs "1A" "f" "http://read/"; CallPerformWrite cmd],
        Return (Rejected (Error "disk full"))).
Proof. repeat split. Qed.

(** A hub whose proof checker refuses: the request fails with the error of
    the checker and the driver is not asked to write. *)
Lemma handleRequest_order_witness :
  let run :=
    handleRequest (H := Fixtures.authenticationWith [])
      (Fixtures.hub Fixtures.okDriver Fixtures.noProofs None (Some "http://read/"))
      "1A" "f" (Fixtures.bearer "1A") [] in
  outcome run = Return (Rejected (NotEnoughProofError "Not enough social proofs"))
  /\ existsb isPerformWrite (calls run) = false.
Proof.
  apply (proj1 (proj2 (proj2
           (handleRequest_order (H := Fixtures.authenticationWith [])
              (Fixtures.hub Fixtures.okDriver Fixtures.noProofs None
                 (Some "http://read/"))
              "1A" "f" (Fixtures.bearer "1A") [])))
           "1A" "f" "http://read/").
  - cbn. right. right. now left.
  - reflexivity.
Defined.

(** A request with the header [content-type: text/plain]: the driver is
    handed that content type. *)
Lemma handleRequest_contentType_witness :
  contentType
    (makeWriteCommand "1A" "f" [] "text/plain"
       {| content_type := Str "text/plain";
          content_length := Str "5";
          authorization := "bearer 1A" |})
  = "text/plain".
Proof.
  apply (proj1 (handleRequest_contentType (H := Fixtures.authenticationWith [])
                  (Fixtures.hub Fixtures.okDriver Fixtures.okProofs None None)
                  "1A" "f"
                  {| content_type := Str "text/plain";
                     content_length := Str "5";
                     authorization := "bearer 1A" |} [])).
  - cbn. right. right. right. right. now left.
  - reflexivity.
Defined.

(** A request from an address off the whitelist: [validate] throws the
    error that names the address. *)
Lemma validate_whitelist_witness :
  outcome (validate (H := Fixtures.authenticationWith [])
             (Fixtures.hub Fixtures.okDriver Fixtures.okProofs (Some ["1A"]) None)
             "1B" (Fixtures.bearer "1B"))
  = Throw (ValidationError "Address 1B not authorized for writes").
Proof.
  destruct (validate_whitelist (H := Fixtures.authenticationWith [])
              (Fixtures.hub Fixtures.okDriver Fixtures.okProofs (Some ["1A"]) None)
              "1B" (Fixtures.bearer "1B") "1B" eq_refl) as [[_ Hthrow] _].
  apply Hthrow. intros [E|[]]. discriminate E.
Defined.

End HubFacts.

(** ** Client side: choosing and building a token *)

Module WireFacts.
Import Js Wire Spec.

(** *** [parseInt] reads back a decimal numeral *)

(** One step of [parseDigits] on a character that is a decimal digit. *)
Ltac read_digit :=
  cbn [parseDigits];
  match goal with
  | |- context [digitValue ?c] =>
      let v := eval vm_compute in (digitValue c) in
      change (digitValue c) with v
  end;
  cbv iota;
  match goal with
  | |- context [(?a <? 10)%Z] => change (a <? 10)%Z with true
  end;
  cbv iota.

Lemma parseDigits_uint (d : Decimal.uint) :
  forall acc : Z,
    (0 <= acc)%Z ->
    parseDigits 10 (NilEmpty.string_of_uint d) true acc
    = Some (Z.of_nat (Nat.of_uint_acc d (Z.to_nat acc))).
Proof.
  induction d; intros acc Hacc; cbn [NilEmpty.string_of_uint Nat.of_uint_acc];
    [cbn; f_equal; lia|..];
    read_digit; (rewrite IHd by lia); do 3 f_equal;
    rewrite Nat.tail_mul_spec; lia.
Qed.

Lemma parseDigits_decimal (n : nat) (seen : bool) :
  parseDigits 10 (decimal n) seen 0 = Some (Z.of_nat n).
Proof.
  unfold decimal. rewrite <- (DecimalNat.Unsigned.of_to n) at 2.
  unfold Nat.of_uint.
  destruct (Nat.to_uint n) as [|d|d|d|d|d|d|d|d|d|d];
    cbn [NilZero.string_of_uint NilEmpty.string_of_uint Nat.of_uint_acc];
    [reflexivity|..];
    read_digit; (rewrite parseDigits_uint by lia); reflexivity.
Qed.

(** A decimal numeral starts with a digit: it has no white space to skip,
    no sign and no [0x] prefix to strip. *)
Lemma parseInt_decimal (n : nat) :
  parseInt (decimal n) (Some 10%Z) = of_integer (Z.of_nat n).
Proof.
  unfold parseInt.
  assert (Hshape : trimStart (decimal n) = decimal n
                   /\ prefix "-" (decimal n) = false
                   /\ prefix "+" (decimal n) = false).
  { unfold decimal.
    destruct (Nat.to_uint n); cbn; repeat split. }
  destruct Hshape as (-> & -> & ->). cbn.
  now rewrite parseDigits_decimal.
Qed.

Lemma slice_from_1 (c : ascii) (s : string) : slice_from 1 (String c s) = s.
Proof.
  unfold slice_from. cbn. rewrite Nat.sub_0_r.
  induction s as [|d s IH]; cbn; [reflexivity|now rewrite IH].
Qed.

Lemma ge_int_of_nat (n : nat) :
  ge_int (of_integer (Z.of_nat n)) 1 = (1 <=? n)%nat.
Proof.
  unfold of_integer.
  destruct (Z.abs (Z.of_nat n) <? overflow_bound)%Z eqn:E; cbn [ge_int].
  - destruct n; [reflexivity|]. cbn [Nat.leb]. apply Z.leb_le. lia.
  - apply Z.ltb_ge in E.
    assert (Hb : (1 < overflow_bound)%Z) by reflexivity.
    assert (Hlt : (Z.of_nat n <? 0)%Z = false) by (apply Z.ltb_ge; lia).
    rewrite Hlt. destruct n; [cbn in E; lia|reflexivity].
Qed.

(** *** [parseInt] on every version text *)

Lemma digitValue_cases (c : ascii) (v : Z) :
  digitValue c = Some v ->
  let n := Z.of_nat (nat_of_ascii c) in
  (48 <= n <= 57 /\ v = n - 48)%Z \/ (10 <= v)%Z.
Proof.
  unfold digitValue. cbv zeta.
  destruct ((48 <=? _) && (_ <=? 57))%Z eqn:E1.
  - intros [= <-]. left. apply andb_prop in E1. lia.
  - destruct ((97 <=? _) && (_ <=? 122))%Z eqn:E2.
    + intros [= <-]. right. apply andb_prop in E2. lia.
    + destruct ((65 <=? _) && (_ <=? 90))%Z eqn:E3; [|discriminate].
      intros [= <-]. right. apply andb_prop in E3. lia.
Qed.

Lemma digitValue_decimal (c : ascii) :
  let n := Z.of_nat (nat_of_ascii c) in
  (48 <= n <= 57)%Z -> digitValue c = Some (n - 48)%Z.
Proof.
  cbv zeta. intros Hn. unfold digitValue. cbv zeta.
  destruct ((48 <=? _) && (_ <=? 57))%Z eqn:E1; [reflexivity|].
  apply andb_false_iff in E1. lia.
Qed.

Lemma digitValue_nonneg (c : ascii) (v : Z) :
  digitValue c = Some v -> (0 <= v)%Z.
Proof. intros Hv. apply digitValue_cases in Hv. cbv zeta in Hv. lia. Qed.

Lemma digitValue_nonzero (c : ascii) :
  isNonZeroDigit c = true <->
  exists v, digitValue c = Some v /\ (1 <= v < 10)%Z.
Proof.
  unfold isNonZeroDigit. cbv zeta. split.
  - intros Hc. apply andb_prop in Hc. destruct Hc as [Hlo Hhi].
    apply Nat.leb_le in Hlo, Hhi.
    exists (Z.of_nat (nat_of_ascii c) - 48)%Z.
    split; [apply digitValue_decimal|]; lia.
  - intros (v & Hv & Hrange). apply digitValue_cases in Hv. cbv zeta in Hv.
    apply andb_true_intro. split; apply Nat.leb_le; lia.
Qed.

Lemma digitValue_zero (c : ascii) :
  isZeroDigit c = true <-> digitValue c = Some 0%Z.
Proof.
  unfold isZeroDigit. rewrite Ascii.eqb_eq. split.
  - now intros ->.
  - intros Hv. apply digitValue_cases in Hv. cbv zeta in Hv.
    assert (Hn : nat_of_ascii c = 48%nat) by lia.
    rewrite <- (ascii_nat_embedding c), Hn. reflexivity.
Qed.

(** A digit and a plus sign are neither white space nor a minus sign. *)
Lemma digit_not_white (c : ascii) :
  isZeroDigit c = true \/ isNonZeroDigit c = true \/ c = "+"%char ->
  isWhiteSpace c = false
  /\ (if ascii_dec "-" c then true else false) = false
  /\ (c = "+"%char
      \/ (if ascii_dec "+" c then true else false) = false).
Proof.
  intros Hc.
  assert (Hn : (nat_of_ascii c = 43 \/ 48 <= nat_of_ascii c <= 57)%nat).
  { destruct Hc as [Hc|[Hc|Hc]].
    - apply Ascii.eqb_eq in Hc. subst c. right. cbn. lia.
    - unfold isNonZeroDigit in Hc. cbv zeta in Hc. apply andb_prop in Hc.
      destruct Hc as [Hlo Hhi]. apply Nat.leb_le in Hlo, Hhi. lia.
    - subst c. now left. }
  split; [|split].
  - unfold isWhiteSpace. cbv zeta.
    apply orb_false_iff. split; [apply orb_false_iff; split|].
    + apply andb_false_iff.
      destruct (Nat.leb_spec 9 (nat_of_ascii c)); [right|now left].
      apply Nat.leb_gt. lia.
    + apply Nat.eqb_neq. lia.
    + apply Nat.eqb_neq. lia.
  - destruct (ascii_dec "-" c) as [<-|]; [cbn in Hn; lia|reflexivity].
  - destruct (ascii_dec "+" c) as [<-|]; [now left|now right].
Qed.

Lemma trimStart_app (ws x : string) :
  madeOf isWhiteSpace ws = true -> trimStart (ws ++ x) = trimStart x.
Proof.
  unfold madeOf. induction ws as [|c ws IH]; cbn; [reflexivity|].
  intros Hws. apply andb_prop in Hws. destruct Hws as [-> Hws]. now apply IH.
Qed.

Lemma trimStart_split (s : string) :
  exists ws, s = ws ++ trimStart s /\ madeOf isWhiteSpace ws = true.
Proof.
  unfold madeOf. induction s as [|c s (ws & Hs & Hws)]; cbn [trimStart].
  - now exists "".
  - destruct (isWhiteSpace c) eqn:Ec.
    + exists (String c ws). cbn. rewrite Ec, Hws. now rewrite <- Hs.
    + now exists "".
Qed.

(** Reading digits never lowers the value read so far. *)
Lemma parseDigits_grows (s : string) :
  forall (seen : bool) (acc m : Z),
    (0 <= acc)%Z -> parseDigits 10 s seen acc = Some m -> (acc <= m)%Z.
Proof.
  induction s as [|c s IH]; intros seen acc m Hacc; cbn [parseDigits].
  - destruct seen; [intros [= <-]; lia|discriminate].
  - destruct (digitValue c) as [d|] eqn:Ed.
    + destruct (d <? 10)%Z eqn:Elt.
      * intros Hm. apply IH in Hm.
        -- apply digitValue_nonneg in Ed. lia.
        -- apply digitValue_nonneg in Ed. lia.
      * destruct seen; [intros [= <-]; lia|discriminate].
    + destruct seen; [intros [= <-]; lia|discriminate].
Qed.

(** After a digit, reading digits gives a value. *)
Lemma parseDigits_seen (s : string) :
  forall acc : Z, exists m, parseDigits 10 s true acc = Some m.
Proof.
  induction s as [|c s IH]; intros acc; cbn [parseDigits]; [now exists acc|].
  destruct (digitValue c) as [d|]; [|now exists acc].
  destruct (d <? 10)%Z; [apply IH|now exists acc].
Qed.

Lemma parseDigits_zeros (zeros x : string) :
  madeOf isZeroDigit zeros = true ->
  forall seen,
    parseDigits 10 (zeros ++ x) seen 0
    = parseDigits 10 x (seen || negb (zeros =? "")) 0.
Proof.
  unfold madeOf. induction zeros as [|c zeros IH]; cbn [append]; intros Hz seen.
  - cbn. now rewrite orb_false_r.
  - cbn in Hz. apply andb_prop in Hz. destruct Hz as [Hc Hz].
    apply digitValue_zero in Hc. cbn [parseDigits]. rewrite Hc.
    cbn. rewrite (IH Hz). cbn. now rewrite orb_true_r.
Qed.

(** A value of 1 or more is read of zeros followed by another digit. *)
Lemma parseDigits_positive (s : string) :
  forall (seen : bool) (m : Z),
    parseDigits 10 s seen 0 = Some m -> (1 <= m)%Z ->
    exists zeros d rest,
      s = zeros ++ String d rest
      /\ madeOf isZeroDigit zeros = true
      /\ isNonZeroDigit d = true.
Proof.
  induction s as [|c s IH]; intros seen m; cbn [parseDigits].
  - destruct seen; [intros [= <-]; lia|discriminate].
  - destruct (digitValue c) as [d|] eqn:Ed;
      [|destruct seen; [intros [= <-]; lia|discriminate]].
    destruct (d <? 10)%Z eqn:Elt;
      [|destruct seen; [intros [= <-]; lia|discriminate]].
    apply Z.ltb_lt in Elt.
    destruct (Z.eq_dec d 0) as [->|Hd].
    + intros Hm Hpos. cbn in Hm.
      destruct (IH true m Hm Hpos) as (zeros & d' & rest & -> & Hz & Hd').
      exists (String c zeros), d', rest. split; [reflexivity|]. split; [|exact Hd'].
      unfold madeOf in *. cbn. rewrite Hz.
      now rewrite (proj2 (digitValue_zero c) Ed).
    + intros _ _. exists "", c, s. split; [reflexivity|]. split; [reflexivity|].
      apply digitValue_nonzero. exists d. split; [exact Ed|].
      apply digitValue_nonneg in Ed. lia.
Qed.

Lemma ge_int_of_integer (z : Z) :
  ge_int (of_integer z) 1 = true <-> (1 <= z)%Z.
Proof.
  unfold of_integer.
  assert (Hb : (1 < overflow_bound)%Z) by reflexivity.
  destruct (Z.abs z <? overflow_bound)%Z eqn:E; cbn [ge_int].
  - apply Z.leb_le.
  - apply Z.ltb_ge in E. destruct (z <? 0)%Z eqn:Ez; cbn [negb].
    + apply Z.ltb_lt in Ez. split; [discriminate|lia].
    + apply Z.ltb_ge in Ez. split; [lia|reflexivity].
Qed.

(** [parseInt(s, 10)], step by step. *)
Lemma parseInt_10 (s : string) :
  parseInt s (Some 10%Z)
  = let S0 := trimStart s in
    let S1 := if prefix "-" S0 || prefix "+" S0
              then substring 1 (String.length S0 - 1) S0 else S0 in
    match parseDigits 10 S1 false 0 with
    | None => NaN
    | Some mathInt =>
        of_integer (if prefix "-" S0 then (- mathInt)%Z else mathInt)
    end.
Proof. reflexivity. Qed.

Lemma prefix_empty (s : string) : prefix "" s = true.
Proof. now destruct s. Qed.

(** The client takes the text after the first character for a number of 1
    or more exactly when the whole reports a version 1 or greater. *)
Lemma parseInt_reportsV1 (c : ascii) (s : string) :
  ge_int (parseInt s (Some 10%Z)) 1 = true <-> reportsV1 (String c s).
Proof.
  rewrite parseInt_10. cbv zeta. split.
  - destruct (trimStart_split s) as (ws & Hs & Hws).
    destruct (trimStart s) as [|a r] eqn:ES0; [cbn; discriminate|].
    cbn [prefix]. cbn [String.length]. rewrite Nat.sub_succ, Nat.sub_0_r.
    cbn [substring]. rewrite HubFacts.substring_all, !prefix_empty.
    destruct (ascii_dec "-" a) as [Hminus|Hminus].
    + cbn [orb].
      destruct (parseDigits 10 r false 0) as [m|] eqn:Em; [|cbn; discriminate].
      intros Hge. apply ge_int_of_integer in Hge.
      apply parseDigits_grows in Em; lia.
    + cbn [orb]. destruct (ascii_dec "+" a) as [Hplus|Hplus].
      * destruct (parseDigits 10 r false 0) as [m|] eqn:Em; [|cbn; discriminate].
        intros Hge. apply ge_int_of_integer in Hge.
        destruct (parseDigits_positive r false m Em Hge)
          as (zeros & d & rest & -> & Hz & Hd).
        exists c, d, ws, "+", zeros, rest. subst a.
        repeat split; auto. now rewrite Hs.
      * destruct (parseDigits 10 (String a r) false 0) as [m|] eqn:Em;
          [|cbn; discriminate].
        intros Hge. apply ge_int_of_integer in Hge.
        destruct (parseDigits_positive (String a r) false m Em Hge)
          as (zeros & d & rest & Hr & Hz & Hd).
        exists c, d, ws, "", zeros, rest.
        repeat split; auto. rewrite Hs. cbn [append]. now rewrite Hr.
  - intros (c' & d & ws & sign & zeros & rest & Hv & Hws & Hsign & Hz & Hd).
    injection Hv as _ ->.
    rewrite (trimStart_app ws _ Hws).
    assert (Hdigits : exists m,
              parseDigits 10 (zeros ++ String d rest) false 0 = Some m
              /\ (1 <= m)%Z).
    { rewrite (parseDigits_zeros zeros _ Hz). cbn [parseDigits].
      apply digitValue_nonzero in Hd. destruct Hd as (v & -> & Hlo & Hhi).
      apply Z.ltb_lt in Hhi. rewrite Hhi. cbn [Z.mul Z.add].
      destruct (parseDigits_seen rest v) as [m Hm]. exists m.
      split; [exact Hm|]. apply parseDigits_grows in Hm; lia. }
    destruct Hdigits as (m & Hm & Hpos).
    assert (Hhead :
              trimStart (zeros ++ String d rest) = zeros ++ String d rest
              /\ prefix "-" (zeros ++ String d rest) = false
              /\ prefix "+" (zeros ++ String d rest) = false).
    { assert (Hfirst : exists a r,
                zeros ++ String d rest = String a r
                /\ (isZeroDigit a = true \/ isNonZeroDigit a = true)).
      { unfold madeOf in Hz. destruct zeros as [|z zeros]; cbn [append].
        - exists d, rest. auto.
        - cbn in Hz. apply andb_prop in Hz. destruct Hz as [Hz0 _].
          exists z, (zeros ++ String d rest). auto. }
      destruct Hfirst as (a & r & -> & Ha).
      assert (Ha' : isZeroDigit a = true \/ isNonZeroDigit a = true
                    \/ a = "+"%char) by tauto.
      destruct (digit_not_white a Ha') as (Hw & Hminus & Hplus).
      cbn [trimStart prefix]. rewrite !prefix_empty, Hw, Hminus.
      repeat split. destruct Hplus as [->|Hplus]; [|exact Hplus].
      exfalso. destruct Ha as [Ha|Ha]; discriminate Ha. }
    destruct Hsign as [->| ->]; cbn [append].
    + destruct Hhead as (-> & -> & ->). cbn [orb].
      rewrite Hm. now apply ge_int_of_integer.
    + cbn [trimStart]. change (isWhiteSpace "+") with false. cbv iota.
      cbn [prefix]. rewrite !prefix_empty.
      destruct (ascii_dec "-" "+") as [Habs|_]; [discriminate Habs|].
      destruct (ascii_dec "+" "+") as [_|Habs]; [|contradiction].
      cbn [orb String.length]. rewrite Nat.sub_succ, Nat.sub_0_r.
      cbn [substring]. rewrite HubFacts.substring_all.
      rewrite Hm. now apply ge_int_of_integer.
Qed.

(** C4, as the code has it.  [makeAuthToken] takes the legacy path when the
    hub handles no v1 token and the v1 path when it does; a hub that
    reports no version handles none; a hub that reports the version [N] (a
    marker character followed by the numeral of [N]) handles v1 exactly
    when [N >= 1]; a token built on the v1 path starts with [v1:].  For
    every version text whatever, the v1 path is taken exactly when the text
    reports a version 1 or greater as the client reads it, that is, past
    its first character; every other text, a bare [1] among them, takes
    the legacy path. *)
Theorem makeAuthToken_version `{Imports} (hubInfo : HubInfo)
    (signerKeyHex hubUrl : string) (associationToken : option string) :
  makeAuthToken hubInfo signerKeyHex hubUrl associationToken
  = (if handlesV1Auth hubInfo
     then makeV1AuthToken signerKeyHex (challenge_text hubInfo)
            associationToken (Some hubUrl)
     else makeLegacyAuthToken (challenge_text hubInfo) signerKeyHex)
  /\ (latest_auth_version hubInfo = None -> handlesV1Auth hubInfo = false)
  /\ (forall (c : ascii) (n : nat),
        latest_auth_version hubInfo = Some (String c (decimal n)) ->
        handlesV1Auth hubInfo = (1 <=? n)%nat)
  /\ (forall token,
        makeV1AuthToken signerKeyHex (challenge_text hubInfo)
          associationToken (Some hubUrl) = Return token ->
        prefix "v1:" token = true)
  /\ (forall version,
        latest_auth_version hubInfo = Some version ->
        (handlesV1Auth hubInfo = true <-> reportsV1 version)
        /\ (reportsV1 version ->
            makeAuthToken hubInfo signerKeyHex hubUrl associationToken
            = makeV1AuthToken signerKeyHex (challenge_text hubInfo)
                associationToken (Some hubUrl))
        /\ (~ reportsV1 version ->
            makeAuthToken hubInfo signerKeyHex hubUrl associationToken
            = makeLegacyAuthToken (challenge_text hubInfo) signerKeyHex)).
Proof.
  assert (Hreads : forall version,
            latest_auth_version hubInfo = Some version ->
            (handlesV1Auth hubInfo = true <-> reportsV1 version)).
  { intros version Hv. unfold handlesV1Auth. rewrite Hv.
    destruct version as [|c s].
    - cbn. split; [discriminate|].
      intros (c & d & ws & sign & zeros & rest & Habs & _). discriminate Habs.
    - rewrite slice_from_1. cbn [String.eqb negb andb].
      apply parseInt_reportsV1. }
  split; [|split; [|split; [|split]]].
  - unfold makeAuthToken. destruct (handlesV1Auth hubInfo); reflexivity.
  - unfold handlesV1Auth. now intros ->.
  - intros c n Hv. unfold handlesV1Auth. rewrite Hv.
    rewrite slice_from_1, parseInt_decimal. cbn [String.eqb negb andb].
    apply ge_int_of_nat.
  - intros token. unfold makeV1AuthToken.
    destruct (getPublicKeyFromPrivate _) as [pk|]; [|discriminate].
    destruct (TokenSigner_sign _ _) as [s0|]; [|discriminate].
    intros [= <-]. apply prefix_correct. cbn.
    now destruct s0.
  - intros version Hv. split; [now apply Hreads|].
    unfold makeAuthToken. split.
    + intros Hr. apply (Hreads version Hv) in Hr. now rewrite Hr.
    + intros Hr. destruct (handlesV1Auth hubInfo) eqn:E; [|reflexivity].
      exfalso. apply Hr. now apply (Hreads version Hv).
Qed.

(** Hubs that report [v0], [v1] and nothing, on the test doubles. *)
Example makeAuthToken_runs :
  let challenge := Fixtures.arrayText
                     ["gaiahub"; "0"; "gaia-0"; "blockstack_storage_please_sign"] in
  let info v := {| challenge_text := challenge;
                   latest_auth_version := v;
                   read_url_prefix := "http://driver/" |} in
  let make v := @makeAuthToken _ Fixtures.imports (info v) Fixtures.key64
                  "http://hub" None in
  make (Some "v1")
  = @makeV1AuthToken _ Fixtures.imports Fixtures.key64 challenge None
      (Some "http://hub")
  /\ make (Some "v0") = @makeLegacyAuthToken _ Fixtures.imports challenge Fixtures.key64
  /\ make None = @makeLegacyAuthToken _ Fixtures.imports challenge Fixtures.key64.
Proof. repeat split. Qed.

(** A hub that reports [v1] handles v1 tokens. *)
Lemma makeAuthToken_version_witness :
  handlesV1Auth {| challenge_text := "c1";
                   latest_auth_version := Some "v1";
                   read_url_prefix := "http://driver/" |}
  = true.
Proof.
  exact (proj1 (proj2 (proj2
           (@makeAuthToken_version _ Fixtures.imports
              {| challenge_text := "c1";
                 latest_auth_version := Some "v1";
                 read_url_prefix := "http://driver/" |}
              Fixtures.key64 "http://hub" None)))
           "v"%char 1%nat eq_refl).
Defined.

(** C4, as stated, fails: a hub that reports the version [1], without a
    marker character, is sent a legacy token. *)
Lemma makeAuthToken_counterexample :
  let challenge := Fixtures.arrayText
                     ["gaiahub"; "0"; "gaia-0"; "blockstack_storage_please_sign"] in
  let info := {| challenge_text := challenge;
                 latest_auth_version := Some "1";
                 read_url_prefix := "http://driver/" |} in
  @makeAuthToken _ Fixtures.imports info Fixtures.key64 "http://hub" None
  = @makeLegacyAuthToken _ Fixtures.imports challenge Fixtures.key64
  /\ exists token,
       @makeAuthToken _ Fixtures.imports info Fixtures.key64 "http://hub" None
       = Return token
       /\ prefix "v1:" token = false.
Proof. split; [reflexivity|]. eexists. split; reflexivity. Qed.

(** Version texts on the test doubles: the first character is not read. *)
Example handlesV1Auth_runs :
  let handles v := handlesV1Auth {| challenge_text := "c";
                                    latest_auth_version := Some v;
                                    read_url_prefix := "p" |} in
  handles "v1" = true /\ handles "v10" = true /\ handles "x2" = true
  /\ handles "v01" = true /\ handles "v 1" = true /\ handles "v+1" = true
  /\ handles "v1.5" = true /\ handles "11" = true
  /\ handles "v0" = false /\ handles "v" = false /\ handles "" = false
  /\ handles "1" = false /\ handles "2" = false /\ handles "v-1" = false
  /\ handles "vv1" = false.
Proof. repeat split. Qed.

(** *** The legacy token *)

Lemma strictEqString_true `{Numbers} (x : option json) (s : string) :
  strictEqString x s = true <-> x = Some (JString s).
Proof.
  unfold strictEqString.
  destruct x as [[| | |t| |]|]; try (split; [discriminate|congruence]).
  rewrite String.eqb_eq. split; congruence.
Qed.

(** C3, as the code has it.  For a key that the key functions accept,
    [makeLegacyAuthToken] returns the base64 encoding of the JSON text of
    [{publickey, signature}] exactly when the challenge parses to a value
    whose element 0 is the marker and whose element 3 is the sentinel
    phrase; the number of elements is not looked at, so that an array has
    this shape when its first and fourth elements are the two strings.  On
    every other challenge it throws: the [Error] of the failed parse when
    the text is not JSON, a [TypeError] when the text is the JSON [null],
    and the [Error] of the legacy hub for every other value. *)
Theorem makeLegacyAuthToken_shape `{Imports} (challengeText secretKey : string)
    (signer : ECPair) (publickey : string) :
  hexStringToECPair (slice_to 64 secretKey ++ "01") = Return signer ->
  getPublicKeyFromPrivate (slice_to 64 secretKey) = Return publickey ->
  let legacy :=
    exists v, JSON_parse challengeText = Some v
              /\ index v 0 = inr (Some (JString LEGACY_MARKER))
              /\ index v 3 = inr (Some (JString LEGACY_SENTINEL)) in
  let token :=
    base64 (JSON_stringify
              (JObject [("publickey", JString publickey);
                        ("signature",
                         JString (signDERHex signer (sha256 challengeText)))])) in
  (legacy -> makeLegacyAuthToken challengeText secretKey = Return token)
  /\ (~ legacy ->
      match JSON_parse challengeText with
      | None =>
          makeLegacyAuthToken challengeText secretKey
          = Throw (Error "Failed in parsing legacy challenge text from the gaia hub.")
      | Some JNull =>
          exists msg,
            makeLegacyAuthToken challengeText secretKey = Throw (TypeError msg)
      | Some _ =>
          makeLegacyAuthToken challengeText secretKey
          = Throw (Error "Failed to connect to legacy gaia hub. If you operate this hub, please update.")
      end)
  /\ (forall l, JSON_parse challengeText = Some (JArray l) ->
        (legacy <-> nth_error l 0 = Some (JString LEGACY_MARKER)
                    /\ nth_error l 3 = Some (JString LEGACY_SENTINEL))).
Proof.
  intros Hkey Hpub legacy token. subst legacy token.
  unfold makeLegacyAuthToken. rewrite Hkey, Hpub.
  split; [|split].
  - intros (v & -> & -> & ->).
    unfold strictEqString. now rewrite !String.eqb_refl.
  - intros Hnot.
    destruct (JSON_parse challengeText) as [v|]; [|reflexivity].
    assert (Hrefused :
      forall first fourth,
        index v 0 = inr first -> index v 3 = inr fourth ->
        strictEqString first LEGACY_MARKER
        && strictEqString fourth LEGACY_SENTINEL = false).
    { intros first fourth E0 E3.
      destruct (strictEqString first LEGACY_MARKER) eqn:Ef; [|reflexivity].
      destruct (strictEqString fourth LEGACY_SENTINEL) eqn:Es; [|reflexivity].
      exfalso. apply Hnot. exists v.
      apply strictEqString_true in Ef, Es. subst. auto. }
    destruct v as [|b|n|t|l|ms]; cbn [index] in *;
      [eexists; reflexivity|..];
      match goal with
      | |- context [strictEqString ?first LEGACY_MARKER && ?rest] =>
          match rest with
          | strictEqString ?fourth _ =>
              now rewrite (Hrefused first fourth eq_refl eq_refl)
          end
      end.
  - intros l Hl. split.
    + intros (v & Hv & Hi0 & Hi3). rewrite Hl in Hv. injection Hv as <-.
      cbn [index] in Hi0, Hi3. split; congruence.
    + intros [Hi0 Hi3]. exists (JArray l). cbn [index]. rewrite Hi0, Hi3. auto.
Qed.

(** The challenge of the hub [gaia-0], signed with a key of 64 digits on
    the test doubles. *)
Lemma makeLegacyAuthToken_shape_witness :
  exists token,
    @makeLegacyAuthToken _ Fixtures.imports
      (Fixtures.arrayText
         ["gaiahub"; "0"; "gaia-0"; "blockstack_storage_please_sign"])
      Fixtures.key64
    = Return token.
Proof.
  eexists.
  refine (proj1 (@makeLegacyAuthToken_shape _ Fixtures.imports
                   (Fixtures.arrayText
                      ["gaiahub"; "0"; "gaia-0"; "blockstack_storage_please_sign"])
                   Fixtures.key64 (Fixtures.key64 ++ "01")
                   ("pub(" ++ Fixtures.key64 ++ ")") eq_refl eq_refl) _).
  eexists. split; [reflexivity|]. split; reflexivity.
Defined.

(** C3, as stated, fails: a challenge that parses to an array of five
    elements, not four, is signed. *)
Lemma makeLegacyAuthToken_counterexample :
  let challengeText :=
    Fixtures.arrayText
      ["gaiahub"; "0"; "gaia-0"; "blockstack_storage_please_sign"; "more"] in
  @JSON_parse _ Fixtures.imports challengeText
  = Some (JArray [JString "gaiahub"; JString "0"; JString "gaia-0";
                  JString "blockstack_storage_please_sign"; JString "more"])
  /\ exists token,
       @makeLegacyAuthToken _ Fixtures.imports challengeText Fixtures.key64
       = Return token.
Proof. split; [reflexivity|]. eexists. reflexivity. Qed.

(** On the test doubles, the three ways a challenge is refused: a text that
    is not JSON, an array without the sentinel, and [null]. *)
Example makeLegacyAuthToken_refusals :
  @makeLegacyAuthToken _ Fixtures.imports "{" Fixtures.key64
  = Throw (Error "Failed in parsing legacy challenge text from the gaia hub.")
  /\ @makeLegacyAuthToken _ Fixtures.imports
       (Fixtures.arrayText ["gaiahub"; "0"; "gaia-0"]) Fixtures.key64
     = Throw (Error "Failed to connect to legacy gaia hub. If you operate this hub, please update.")
  /\ @makeLegacyAuthToken _ Fixtures.imports "null" Fixtures.key64
     = Throw (TypeError "Cannot read properties of null").
Proof. repeat split. Qed.

End WireFacts.

(** ** The HTTP routes *)

Module HttpFacts.
Import Js Trace Hub Http Spec.

(** The answers of the store route to a settled promise: 202 with the
    public URL; 401, 403 and 402 with the message and the name of the
    error; 500 with a fixed message for every other error. *)
Lemma storeSettled_responses `{Numbers} :
  (forall publicURL,
      outcome (storeSettled (Resolved publicURL))
      = writeResponse (JObject [("publicURL", JString publicURL)]) 202)
  /\ (forall m, outcome (storeSettled (Rejected (ValidationError m)))
                = writeResponse (errorBody (ValidationError m)) 401)
  /\ (forall m,
         outcome (storeSettled (Rejected (AuthTokenTimestampValidationError m)))
         = writeResponse (errorBody (AuthTokenTimestampValidationError m)) 401)
  /\ (forall m, outcome (storeSettled (Rejected (BadPathError m)))
                = writeResponse (errorBody (BadPathError m)) 403)
  /\ (forall m, outcome (storeSettled (Rejected (NotEnoughProofError m)))
                = writeResponse (errorBody (NotEnoughProofError m)) 402)
  /\ (forall m, outcome (storeSettled (Rejected (Error m)))
                = writeResponse (JObject [("message", JString "Server Error")]) 500)
  /\ (forall m, outcome (storeSettled (Rejected (TypeError m)))
                = writeResponse (JObject [("message", JString "Server Error")]) 500).
Proof. repeat split. Qed.

(** An exception thrown by [handleRequest] itself, before it returns its
    promise, leaves the callback of the store route: neither [.then] nor
    [.catch] sees it, and the route writes no response. *)
Lemma storeRoute_uncaught `{Numbers} `{Authentication} (server : HubServer)
    (req : Request) (e : error) :
  outcome (handleRequest server (params0 req)
             (if endsWith (params1 req) "/"
              then substring 0 (String.length (params1 req) - 1) (params1 req)
              else params1 req)
             (headers req) (req_stream req))
  = Throw e ->
  outcome (storeRoute server req) = Uncaught e.
Proof.
  unfold storeRoute, tbind.
  destruct (handleRequest _ _ _ _ _) as [t r]. cbn [outcome snd].
  intros ->. reflexivity.
Qed.

(** C6 at a failing input.  A write by an address off the whitelist: the
    [ValidationError] of [validate] is thrown by [handleRequest] before any
    promise exists, so that the store route answers nothing, where the
    claim has a 401. *)
Theorem storeRoute_validation_uncaught :
  @storeRoute Fixtures.integers (Fixtures.authenticationWith [])
    (Fixtures.hub Fixtures.okDriver Fixtures.okProofs (Some ["1A"]) None)
    (Fixtures.storeRequest "1B" "foo/bar")
  = ([CallValidateAuthorizationHeader "bearer 1B" "1B"],
     Uncaught (ValidationError "Address 1B not authorized for writes")).
Proof. reflexivity. Qed.

(** On the same hub, the route does answer what reaches it through the
    promise: 202 to a write that goes through, 402 to a missing proof. *)
Example storeRoute_runs :
  let A := Fixtures.authenticationWith [] in
  outcome (@storeRoute Fixtures.integers A
             (Fixtures.hub Fixtures.okDriver Fixtures.okProofs (Some ["1A"]) None)
             (Fixtures.storeRequest "1A" "foo/bar/"))
  = Responded
      (writeResponse
         (JObject [("publicURL", JString "http://driver/1A/foo/bar")]) 202)
  /\ outcome (@storeRoute Fixtures.integers A
                (Fixtures.hub Fixtures.okDriver Fixtures.noProofs (Some ["1A"]) None)
                (Fixtures.storeRequest "1A" "foo/bar"))
     = Responded
         (writeResponse
            (JObject [("message", JString "Not enough social proofs");
                      ("error", JString "NotEnoughProofError")]) 402).
Proof. repeat split. Qed.

(** *** The revoke-all route *)

Section Revoke.
Context `{Numbers} `{AuthBump}.
Variable req : Request.

Let field := oldestValidTimestampOf (body req).
Let parsed :=
  match field with
  | Some v => parseInt (ToString v) None
  | None => NaN
  end.

(** The two guards on the body, as one test on the field. *)
Lemma missing_field :
  not_ (body req) || not_ field
  = match field with
    | Some v => negb (ToBoolean v)
    | None => true
    end.
Proof.
  subst field. unfold oldestValidTimestampOf, not_.
  destruct (body req) as [b|]; [|reflexivity].
  destruct (get b "oldestValidTimestamp") as [v|] eqn:Eg.
  - destruct b; try discriminate Eg. reflexivity.
  - apply orb_true_r.
Qed.

(** The route, as a decision on the header, the field and its integer. *)
Lemma revokeAllRoute_unfold :
  revokeAllRoute req
  = if tooLong (content_length (headers req))
    then ([], Responded
                (writeResponse
                   (JObject [("message", JString "Invalid JSON: too long")]) 400))
    else if match field with
            | Some v => negb (ToBoolean v)
            | None => true
            end
    then ([], Responded
                (writeResponse
                   (JObject [("message",
                              JString "Invalid JSON: missing oldestValidTimestamp")])
                   400))
    else if negb (Number_isFinite parsed)
    then ([], Responded
                (writeResponse
                   (JObject [("message",
                              JString "Invalid JSON: oldestValidTimestamp is not a valid integer")])
                   400))
    else
      (CallHandleAuthBump (params0 req) parsed
         :: match handleAuthBump (params0 req) parsed (headers req) with
            | Return (Rejected err) => [CallLoggerError err]
            | _ => []
            end,
       match handleAuthBump (params0 req) parsed (headers req) with
       | Throw e => Uncaught e
       | Return (Resolved _) =>
           Responded (writeResponse (JObject [("status", JString "success")]) 202)
       | Return (Rejected err) => Responded (revokeCatch err)
       end).
Proof.
  unfold revokeAllRoute. fold field. rewrite missing_field. fold parsed.
  destruct (tooLong _); [reflexivity|].
  destruct (match field with Some v => negb (ToBoolean v) | None => true end);
    [reflexivity|].
  destruct (negb (Number_isFinite parsed)); [reflexivity|].
  unfold tbind, call.
  destruct (handleAuthBump _ _ _) as [[[]|err]|e]; reflexivity.
Qed.

End Revoke.

(** C5, as the code has it.  The revoke-all route answers 400, without
    calling the bump, when the body is too long, when [oldestValidTimestamp]
    is missing or falsy ([null], [false], [0], the empty string), and when
    [parseInt] does not read a finite integer from it; the bump is called
    only with the address of the request and that finite integer, of either
    sign; and it is called whenever none of the three guards applies. *)
Theorem revokeAllRoute_guard `{Numbers} `{AuthBump} (req : Request) :
  let field := oldestValidTimestampOf (body req) in
  let parsed :=
    match field with
    | Some v => parseInt (ToString v) None
    | None => NaN
    end in
  let rejected :=
    calls (revokeAllRoute req) = []
    /\ exists msg,
         outcome (revokeAllRoute req)
         = Responded (writeResponse (JObject [("message", JString msg)]) 400) in
  (tooLong (content_length (headers req)) = true -> rejected)
  /\ (field = None -> rejected)
  /\ (forall v, field = Some v -> ToBoolean v = false -> rejected)
  /\ (Number_isFinite parsed = false -> rejected)
  /\ (forall a t, In (CallHandleAuthBump a t) (calls (revokeAllRoute req)) ->
        a = params0 req /\ t = parsed /\ exists z, t = Num z)
  /\ (forall v z,
        tooLong (content_length (headers req)) = false ->
        field = Some v -> ToBoolean v = true -> parsed = Num z ->
        exists rest,
          calls (revokeAllRoute req)
          = CallHandleAuthBump (params0 req) (Num z) :: rest).
Proof.
  intros field parsed rejected. subst rejected.
  rewrite revokeAllRoute_unfold. fold field. fold parsed.
  split; [|split; [|split; [|split; [|split]]]].
  - intros ->. split; [reflexivity|eexists; reflexivity].
  - intros ->. destruct (tooLong _); split; try reflexivity; eexists; reflexivity.
  - intros v -> ->. cbn [negb].
    destruct (tooLong _); split; try reflexivity; eexists; reflexivity.
  - intros ->. cbn [negb].
    destruct (tooLong _); [split; [reflexivity|eexists; reflexivity]|].
    destruct (match field with Some v => negb (ToBoolean v) | None => true end);
      split; try reflexivity; eexists; reflexivity.
  - intros a t.
    destruct (tooLong _); [intros []|].
    destruct (match field with Some v => negb (ToBoolean v) | None => true end);
      [intros []|].
    destruct (Number_isFinite parsed) eqn:Ef; cbn [negb]; [|intros []].
    cbn [calls fst In].
    intros [Hin|Hin].
    + injection Hin as <- <-. repeat split.
      destruct parsed as [| |z]; try discriminate Ef. now exists z.
    + exfalso.
      destruct (handleAuthBump _ _ _) as [[[]|err]|e]; cbn in Hin;
        intuition discriminate.
  - intros v z -> Hf Ht Hp. rewrite Hf, Ht, Hp. cbn [negb Number_isFinite].
    eexists. reflexivity.
Qed.

(** A body whose [oldestValidTimestamp] holds no digit is answered 400 and
    the bump is not called. *)
Lemma revokeAllRoute_guard_witness :
  let route :=
    @revokeAllRoute Fixtures.integers Fixtures.okBump
      (Fixtures.revokeRequest "1A" (JString "soon")) in
  calls route = []
  /\ exists msg,
       outcome route
       = Responded (writeResponse (JObject [("message", JString msg)]) 400).
Proof.
  apply (proj1 (proj2 (proj2 (proj2
           (@revokeAllRoute_guard Fixtures.integers Fixtures.okBump
              (Fixtures.revokeRequest "1A" (JString "soon"))))))).
  reflexivity.
Defined.

(** C5, as stated, fails: on the test doubles, a body whose
    [oldestValidTimestamp] is [-5] reaches the bump, which is called with
    [-5], and the route answers 202. *)
Lemma revokeAllRoute_counterexample :
  @revokeAllRoute Fixtures.integers Fixtures.okBump
    (Fixtures.revokeRequest "1A" (Fixtures.integer (-5)))
  = ([CallHandleAuthBump "1A" (Num (-5))],
     Responded (writeResponse (JObject [("status", JString "success")]) 202)).
Proof. reflexivity. Qed.

(** On the test doubles: the timestamp [0] is taken for a missing one, a
    string that starts with digits is read up to them, a hexadecimal string
    is read as such, and a string without digits is refused. *)
Example revokeAllRoute_runs :
  let route v :=
    @revokeAllRoute Fixtures.integers Fixtures.okBump
      (Fixtures.revokeRequest "1A" v) in
  outcome (route (Fixtures.integer 0))
  = Responded
      (writeResponse
         (JObject [("message",
                    JString "Invalid JSON: missing oldestValidTimestamp")]) 400)
  /\ calls (route (JString "15abc")) = [CallHandleAuthBump "1A" (Num 15)]
  /\ calls (route (JString "0x10")) = [CallHandleAuthBump "1A" (Num 16)]
  /\ calls (route (JString "soon")) = [].
Proof. repeat split. Qed.

End HttpFacts.

(** ** More on the hub: listing, the blacklist, what a write calls *)

Module HubMoreFacts.
Import Js Trace Hub Http HubMore Spec.

(** *** Listing *)

(** X1.  [handleListFiles] is gated by [validate] alone: when [validate]
    throws, the driver is not asked and the error is thrown; otherwise the
    driver is asked once, for the address and page of the request, and its
    promise is returned as it is.  The scopes of the token and the proof
    checker play no part: replacing them changes nothing. *)
Theorem handleListFiles_gate `{Authentication} (this : HubServer)
    (address : string) (page : option string) (requestHeaders : Headers) :
  let V := CallValidateAuthorizationHeader (authorization requestHeaders) address in
  match outcome (validate this address requestHeaders) with
  | Throw e =>
      handleListFiles this address page requestHeaders = ([V], Throw e)
  | Return _ =>
      handleListFiles this address page requestHeaders
      = ([V; CallListFiles address page],
         Return (listFiles (driver this) address page))
  end
  /\ (forall scopesOf proofs,
        handleListFiles
          (H := {| validateAuthorizationHeader := validateAuthorizationHeader;
                   getAuthenticationScopes := scopesOf |})
          {| driver := driver this;
             proofChecker := proofs;
             whitelist := whitelist this;
             blacklist := blacklist this;
             serverName := serverName this;
             readURL := readURL this;
             requireCorrectHubUrl := requireCorrectHubUrl this;
             validHubUrls := validHubUrls this |}
          address page requestHeaders
        = handleListFiles this address page requestHeaders).
Proof.
  intros V. subst V. split.
  - unfold handleListFiles, bind, tbind.
    pose proof (HubFacts.validate_calls this address requestHeaders) as Hc.
    destruct (validate this address requestHeaders) as [t [[]|e]];
      cbn [calls outcome fst snd] in *; subst t; reflexivity.
  - intros scopesOf proofs. reflexivity.
Qed.

(** *** The token blacklist *)

Lemma Map_get_set (m : list (string * bool)) (k x : string) (v : bool) :
  Map_get (Map_set m k v) x = if k =? x then Some v else Map_get m x.
Proof.
  induction m as [|[k' v'] m IH]; cbn [Map_set Map_get].
  - reflexivity.
  - destruct (k' =? k) eqn:Ek; cbn [Map_get].
    + apply String.eqb_eq in Ek. subst k'. destruct (k =? x); reflexivity.
    + destruct (k' =? x) eqn:Ex.
      * apply String.eqb_eq in Ex. subst k'.
        rewrite String.eqb_sym in Ek. now rewrite Ek.
      * exact IH.
Qed.

Lemma Map_keys_set (m : list (string * bool)) (k : string) (v : bool) :
  Map_keys (Map_set m k v)
  = if existsb (fun k' => k' =? k) (Map_keys m) then Map_keys m
    else (Map_keys m ++ [k])%list.
Proof.
  unfold Map_keys. induction m as [|[k' v'] m IH]; cbn [Map_set map fst existsb].
  - reflexivity.
  - destruct (k' =? k) eqn:Ek; cbn [map fst orb]; [reflexivity|].
    rewrite IH. destruct (existsb _ (map fst m)); reflexivity.
Qed.

Lemma NoDup_snoc (l : list string) (k : string) :
  NoDup l -> ~ In k l -> NoDup (l ++ [k]).
Proof.
  intros Hl Hk. induction Hl as [|x l Hx Hl IH]; cbn.
  - constructor; [intros []|constructor].
  - constructor.
    + intros Hin. apply in_app_or in Hin as [Hin|[->|[]]]; [contradiction|].
      apply Hk. now left.
    + apply IH. intros Hin. apply Hk. now right.
Qed.

(** Setting the tokens of [l] to [true], one after the other, in a map
    whose keys are distinct and whose values are all [true]. *)
Lemma blacklist_fold (l : list string) :
  forall m : list (string * bool),
    NoDup (Map_keys m) ->
    (forall x, Map_get m x <> Some false) ->
    let m' := fold_left (fun m x => Map_set m x true) l m in
    NoDup (Map_keys m')
    /\ (forall x, Map_get m' x <> Some false)
    /\ (forall x, Map_get m' x = Some true
                  <-> Map_get m x = Some true \/ In x l).
Proof.
  induction l as [|k l IH]; intros m Hnd Htrue; cbn [fold_left].
  - split; [exact Hnd|]. split; [exact Htrue|]. intros x. cbn. tauto.
  - assert (Hnd' : NoDup (Map_keys (Map_set m k true))).
    { rewrite Map_keys_set.
      destruct (existsb (fun k' => k' =? k) (Map_keys m)) eqn:Ee; [exact Hnd|].
      apply NoDup_snoc; [exact Hnd|]. intros Hin.
      assert (existsb (fun k' => k' =? k) (Map_keys m) = true).
      { apply existsb_exists. exists k. split; [exact Hin|apply String.eqb_refl]. }
      congruence. }
    assert (Htrue' : forall x, Map_get (Map_set m k true) x <> Some false).
    { intros x. rewrite Map_get_set. destruct (k =? x); [discriminate|apply Htrue]. }
    destruct (IH _ Hnd' Htrue') as (H1 & H2 & H3).
    split; [exact H1|]. split; [exact H2|].
    intros x. rewrite H3, Map_get_set. cbn [In].
    destruct (k =? x) eqn:Ek.
    + apply String.eqb_eq in Ek. subst. tauto.
    + apply String.eqb_neq in Ek. tauto.
Qed.

(** X2.  The blacklist a new hub holds: a token is mapped to [true] exactly
    when the configuration lists it, no token is mapped to [false], and no
    token is held twice, however often the configuration repeats it. *)
Theorem constructor_blacklist (driver : DriverModel) (proofChecker : ProofChecker)
    (config : Config) :
  let server := constructor driver proofChecker config in
  (forall x, Map_get (blacklist server) x = Some true
             <-> exists l, cfg_tokenBlacklist config = Some l /\ In x l)
  /\ (forall x, Map_get (blacklist server) x <> Some false)
  /\ NoDup (Map_keys (blacklist server)).
Proof.
  cbn [constructor blacklist].
  destruct (cfg_tokenBlacklist config) as [l|].
  - destruct (blacklist_fold l [] (NoDup_nil _)) as (H1 & H2 & H3);
      [intros x; discriminate|].
    split; [|split; assumption].
    intros x. rewrite H3. cbn [Map_get]. split.
    + intros [Hx|Hx]; [discriminate|]. now exists l.
    + intros (l' & [= <-] & Hx). now right.
  - split; [|split].
    + intros x. cbn. split; [discriminate|]. intros (l & Hl & _). discriminate.
    + intros x. discriminate.
    + constructor.
Qed.

(** *** What a write calls, and with what *)

Ltac stages this address path requestHeaders stream :=
  destruct (HubFacts.handleRequest_stages this address path requestHeaders stream)
    as [(e & Hv & Hrun)
       |[(e & Hv & Hrun)
        |[(e & Hv & Hp & Hrun)
         |[(e & Hv & Hp & Hw & Hrun)
          |(readURL & Hv & Hp & Hw & Hrun)]]]];
  rewrite Hrun; cbn [calls outcome fst snd].

Ltac prefix_calls this :=
  destruct (HubFacts.getReadURLPrefix_calls this) as [Hpc|Hpc]; rewrite ?Hpc in *.

(** X3.  One write request asks the proof checker at most once and the
    driver to write at most once; it never lists files, never bumps a
    revocation timestamp and never logs. *)
Theorem handleRequest_calls_once `{Authentication} (this : HubServer)
    (address path : string) (requestHeaders : Headers) (stream : Readable) :
  let run := handleRequest this address path requestHeaders stream in
  List.length (filter isCheckProofs (calls run)) <= 1
  /\ List.length (filter isPerformWrite (calls run)) <= 1
  /\ forall ev, In ev (calls run) ->
       match ev with
       | CallListFiles _ _ | CallHandleAuthBump _ _ | CallLoggerError _ => False
       | _ => True
       end.
Proof.
  intros run. subst run.
  stages this address path requestHeaders stream; unfold pipelineCalls;
    prefix_calls this; cbn;
    (split; [lia|split; [lia|]]);
    intros ev Hin; repeat (destruct Hin as [<-|Hin]; [exact I|]);
    contradiction.
Qed.

(** A decimal numeral has no [0x] prefix. *)
Lemma hasHexPrefix_decimal (n : nat) : hasHexPrefix (decimal n) = false.
Proof.
  unfold decimal. destruct (Nat.to_uint n) as [|d|d|d|d|d|d|d|d|d|d];
    try reflexivity.
  destruct d; reflexivity.
Qed.

(** [parseInt] without radix reads back a decimal numeral. *)
Lemma parseInt_decimal_default (n : nat) :
  parseInt (decimal n) None = of_integer (Z.of_nat n).
Proof.
  unfold parseInt.
  assert (Hshape : trimStart (decimal n) = decimal n
                   /\ prefix "-" (decimal n) = false
                   /\ prefix "+" (decimal n) = false).
  { unfold decimal. destruct (Nat.to_uint n); cbn; repeat split. }
  destruct Hshape as (-> & -> & ->). cbn [orb negb Z.eqb andb].
  rewrite hasHexPrefix_decimal. cbn [andb].
  now rewrite WireFacts.parseDigits_decimal.
Qed.

(** X4.  What the collaborators are handed: the driver gets the address,
    the path and the stream of the request, and for content length the
    integer of a decimal [content-length] header, [NaN] when the header is
    absent; the proof checker gets the address, the path and the read
    prefix the hub advertises. *)
Theorem handleRequest_arguments `{Authentication} (this : HubServer)
    (address path : string) (requestHeaders : Headers) (stream : Readable) :
  let run := handleRequest this address path requestHeaders stream in
  (forall cmd, In (CallPerformWrite cmd) (calls run) ->
     storageTopLevel cmd = address
     /\ Trace.path cmd = path
     /\ Trace.stream cmd = stream
     /\ (forall n, content_length requestHeaders = Str (decimal n) ->
           contentLength cmd = of_integer (Z.of_nat n))
     /\ (content_length requestHeaders = Undefined -> contentLength cmd = NaN))
  /\ (forall a p r, In (CallCheckProofs a p r) (calls run) ->
        a = address /\ p = path
        /\ r = match readURL this with
               | Some configured =>
                   if configured =? "" then driver_getReadURLPrefix (driver this)
                   else configured
               | None => driver_getReadURLPrefix (driver this)
               end).
Proof.
  intros run. subst run. split.
  - intros cmd Hin. rewrite (HubFacts.performWrite_call _ _ _ _ _ _ Hin).
    unfold makeWriteCommand.
    cbn [storageTopLevel Trace.path Trace.stream contentLength].
    repeat split.
    + intros n ->. apply parseInt_decimal_default.
    + intros ->. reflexivity.
  - intros a p r. rewrite <- HubFacts.getReadURLPrefix_outcome.
    stages this address path requestHeaders stream; unfold pipelineCalls;
      prefix_calls this; cbn [app In];
      intros Hin; repeat (destruct Hin as [Hin|Hin]; try discriminate Hin);
      try contradiction; injection Hin as <- <- <-; repeat split.
Qed.

(** *** The URL of a write and the advertised prefix *)

Lemma prefix_app (p s : string) : prefix p (p ++ s) = true.
Proof.
  induction p as [|c p IH]; cbn.
  - now destruct s.
  - destruct (ascii_dec c c) as [_|Hne]; [exact IH|contradiction].
Qed.

Lemma prefix_refl (p : string) : prefix p p = true.
Proof.
  induction p as [|c p IH]; cbn; [reflexivity|].
  destruct (ascii_dec c c) as [_|Hne]; [exact IH|contradiction].
Qed.

(** The discovery route answers 500 when the challenge text has fewer than
    ten characters, and otherwise 200 with the challenge, the version and
    the prefix of [getReadURLPrefix]. *)
Lemma hubInfoRoute_unfold `{Numbers} `{Discovery} (server : HubServer) :
  outcome (hubInfoRoute server)
  = if (String.length (getChallengeText (serverName server)) <? 10)%nat
    then writeResponse
           (JObject [("message", JString "Server challenge text misconfigured")])
           500
    else writeResponse
           (JObject [("challenge_text",
                      JString (getChallengeText (serverName server)));
                     ("latest_auth_version", JString LATEST_AUTH_VERSION);
                     ("read_url_prefix",
                      JString (outcome (getReadURLPrefix server)))])
           200.
Proof.
  unfold hubInfoRoute, tbind.
  destruct (String.length _ <? 10)%nat; [reflexivity|].
  destruct (getReadURLPrefix server) as [t r]. reflexivity.
Qed.

(** X5.  The public URL of a write lies under the prefix the hub
    advertises: if the discovery route answers with [read_url_prefix]
    [advertised], and the driver returns URLs under its own prefix, then
    the URL every completed write resolves to starts with [advertised],
    whether or not a read URL is configured. *)
Theorem handleRequest_publicURL_advertised `{Numbers} `{Discovery}
    `{Authentication} (this : HubServer) (address path : string)
    (requestHeaders : Headers) (stream : Readable)
    (advertised publicURL : string) :
  get (data (outcome (hubInfoRoute this))) "read_url_prefix"
  = Some (JString advertised) ->
  (forall cmd driverURL,
      performWrite (driver this) cmd = Resolved driverURL ->
      prefix (driver_getReadURLPrefix (driver this)) driverURL = true) ->
  outcome (handleRequest this address path requestHeaders stream)
  = Return (Resolved publicURL) ->
  prefix advertised publicURL = true.
Proof.
  intros Hadv Hdriver.
  assert (Ha : advertised = outcome (getReadURLPrefix this)).
  { rewrite hubInfoRoute_unfold in Hadv.
    destruct (String.length _ <? 10)%nat; cbn in Hadv; [discriminate|].
    congruence. }
  subst advertised.
  stages this address path requestHeaders stream; try discriminate.
  rewrite HubFacts.rewriteReadURL_unfold. cbn [outcome snd]. cbv zeta.
  intros [= <-]. specialize (Hdriver _ _ Hw).
  set (dp := driver_getReadURLPrefix (driver this)) in *.
  set (rp := outcome (getReadURLPrefix this)) in *.
  destruct (rp =? dp) eqn:E; cbn [negb andb].
  - apply String.eqb_eq in E. now rewrite E.
  - rewrite Hdriver. apply prefix_app.
Qed.

(** A hub that advertises [http://read/] over the driver of the test
    doubles. *)
Lemma handleRequest_publicURL_advertised_witness :
  prefix "http://read/" "http://read/1A/foo/bar" = true.
Proof.
  apply (handleRequest_publicURL_advertised
           (H := Fixtures.integers)
           (H0 := {| getChallengeText := fun name => "[gaiahub," ++ name ++ "]";
                     LATEST_AUTH_VERSION := "v1" |})
           (H1 := Fixtures.authenticationWith [])
           (Fixtures.hub Fixtures.okDriver Fixtures.okProofs None
              (Some "http://read/"))
           "1A" "foo/bar" (Fixtures.bearer "1A") []).
  - reflexivity.
  - intros cmd driverURL [= <-]. apply (prefix_app "http://driver/").
  - reflexivity.
Defined.

(** *** A prefix scope with the empty domain *)

Lemma find_app_none {A} (pred : A -> bool) (l l' : list A) :
  (forall x, In x l -> pred x = false) -> find pred (l ++ l') = find pred l'.
Proof.
  induction l as [|x l IH]; intros Hl; cbn; [reflexivity|].
  rewrite (Hl x (or_introl eq_refl)). apply IH. intros y Hy. apply Hl. now right.
Qed.

Lemma find_none {A} (pred : A -> bool) (l : list A) :
  (forall x, In x l -> pred x = false) -> find pred l = None.
Proof.
  intros Hl. rewrite <- (app_nil_r l). now rewrite find_app_none.
Qed.

(** X6.  A [putFilePrefix] scope with the empty domain grants nothing and
    hides the prefix scopes after it: when no prefix scope before it
    matches the path and no [putFile] scope names the path, the write is
    refused with the [ValidationError] of the scope check, whatever the
    scopes that follow. *)
Theorem checkScopes_empty_prefix_domain (address path : string)
    (before after : list AuthScope) :
  (forall s, In s before -> isPutFilePrefix s = true ->
             prefix (domain s) path = false) ->
  (forall s, In s (before ++ after) -> isPutFile s = true -> domain s <> path) ->
  outcome (checkScopes address path
             (before ++ {| scope := "putFilePrefix"; domain := "" |} :: after))
  = Throw (ValidationError
             ("Address " ++ address ++ " not authorized to write to "
              ++ path ++ " by scopes")).
Proof.
  intros Hbefore Hpaths. unfold checkScopes.
  rewrite HubFacts.collectScopes_filter, !app_nil_l.
  rewrite !filter_app, !map_app. cbn [filter].
  change (isPutFilePrefix {| scope := "putFilePrefix"; domain := "" |}) with true.
  change (isPutFile {| scope := "putFilePrefix"; domain := "" |}) with false.
  cbv iota. cbn [map domain].
  assert (Hguard : (0 <? List.length
                           (map domain (filter isPutFilePrefix before)
                            ++ "" :: map domain (filter isPutFilePrefix after)))%nat
                   = true).
  { rewrite length_app. cbn [List.length]. apply Nat.ltb_lt. lia. }
  rewrite Hguard. cbn [orb].
  assert (Hprefix : found (fun p => startsWith path p)
                      (map domain (filter isPutFilePrefix before)
                       ++ "" :: map domain (filter isPutFilePrefix after))
                    = false).
  { unfold found. rewrite find_app_none.
    - cbn [find]. unfold startsWith. cbn [prefix].
      destruct path; reflexivity.
    - intros p Hp. apply in_map_iff in Hp as (s & <- & Hs).
      apply filter_In in Hs as [Hin Hk]. now apply Hbefore. }
  rewrite Hprefix. cbn [negb].
  assert (Hpath : found (fun p => path =? p)
                    (map domain (filter isPutFile before)
                     ++ map domain (filter isPutFile after))
                  = false).
  { unfold found. rewrite find_none; [reflexivity|].
    intros p Hp. rewrite <- map_app, <- filter_app in Hp.
    apply in_map_iff in Hp as (s & <- & Hs).
    apply filter_In in Hs as [Hin Hk].
    apply String.eqb_neq. intros E. now apply (Hpaths s Hin Hk). }
  rewrite Hpath. reflexivity.
Qed.

(** A token with the scopes [{putFilePrefix, ""}] and [{putFilePrefix,
    "a/"}], in this order, may not write [a/b]. *)
Lemma checkScopes_empty_prefix_domain_witness :
  outcome (checkScopes "1A" "a/b"
             [{| scope := "putFilePrefix"; domain := "" |};
              {| scope := "putFilePrefix"; domain := "a/" |}])
  = Throw (ValidationError "Address 1A not authorized to write to a/b by scopes").
Proof.
  apply (checkScopes_empty_prefix_domain "1A" "a/b" []
           [{| scope := "putFilePrefix"; domain := "a/" |}]).
  - intros s [].
  - intros s [<-|[]]. discriminate.
Defined.

(** *** The store route *)

Lemma length_append (a b : string) :
  String.length (a ++ b) = String.length a + String.length b.
Proof. induction a as [|c a IH]; cbn; [reflexivity|now rewrite IH]. Qed.

Lemma substring_0_append (a b : string) :
  substring 0 (String.length a) (a ++ b) = a.
Proof.
  induction a as [|c a IH]; cbn.
  - now destruct b.
  - now rewrite IH.
Qed.

Lemma substring_append_rest (a b : string) :
  substring (String.length a) (String.length b) (a ++ b) = b.
Proof.
  induction a as [|c a IH]; cbn; [apply HubFacts.substring_all|exact IH].
Qed.

Lemma endsWith_append (a b : string) : endsWith (a ++ b) b = true.
Proof.
  unfold endsWith. rewrite length_append.
  replace (String.length a + String.length b - String.length b)
    with (String.length a) by lia.
  rewrite substring_append_rest, String.eqb_refl.
  rewrite andb_true_r. apply Nat.leb_le. lia.
Qed.

(** X7.  A trailing slash does not change the file: the request for
    [filename/] is the request for [filename], when [filename] itself does
    not end with a slash (one slash only is removed). *)
Theorem storeRoute_trailing_slash `{Numbers} `{Authentication}
    (server : HubServer) (req : Request) :
  endsWith (params1 req) "/" = false ->
  storeRoute server
    {| params0 := params0 req;
       params1 := params1 req ++ "/";
       headers := headers req;
       body := body req;
       req_stream := req_stream req |}
  = storeRoute server req.
Proof.
  intros Hno. unfold storeRoute.
  cbn [params0 params1 headers req_stream].
  rewrite endsWith_append, Hno, length_append. cbn [String.length].
  replace (String.length (params1 req) + 1 - 1)
    with (String.length (params1 req)) by lia.
  now rewrite substring_0_append.
Qed.

(** The requests for [foo/bar/] and for [foo/bar] on the test doubles. *)
Lemma storeRoute_trailing_slash_witness :
  @storeRoute Fixtures.integers (Fixtures.authenticationWith [])
    (Fixtures.hub Fixtures.okDriver Fixtures.okProofs None None)
    (Fixtures.storeRequest "1A" "foo/bar/")
  = @storeRoute Fixtures.integers (Fixtures.authenticationWith [])
      (Fixtures.hub Fixtures.okDriver Fixtures.okProofs None None)
      (Fixtures.storeRequest "1A" "foo/bar").
Proof.
  apply (@storeRoute_trailing_slash Fixtures.integers
           (Fixtures.authenticationWith [])
           (Fixtures.hub Fixtures.okDriver Fixtures.okProofs None None)
           (Fixtures.storeRequest "1A" "foo/bar")).
  reflexivity.
Defined.

(** X8.  The answers of the store route.  An exception escapes the route
    exactly when [handleRequest] throws it.  Otherwise the status is one
    of 202, 401, 402, 403 and 500: 202 with the public URL exactly when
    the promise of [handleRequest] is resolved; any other status answers a
    rejection, which is logged; 401, 402 and 403 carry the message and the
    name of the error, 500 a fixed message. *)
Theorem storeRoute_statuses `{Numbers} `{Authentication} (server : HubServer)
    (req : Request) :
  let filename :=
    if endsWith (params1 req) "/"
    then substring 0 (String.length (params1 req) - 1) (params1 req)
    else params1 req in
  let run :=
    handleRequest server (params0 req) filename (headers req) (req_stream req) in
  match outcome (storeRoute server req) with
  | Uncaught e => outcome run = Throw e
  | Responded r =>
      In (statusCode r) [202; 401; 402; 403; 500]%Z
      /\ (statusCode r = 202%Z
          <-> exists url, outcome run = Return (Resolved url)
                          /\ data r = JObject [("publicURL", JString url)])
      /\ (statusCode r <> 202%Z ->
          exists err,
            outcome run = Return (Rejected err)
            /\ In (CallLoggerError err) (calls (storeRoute server req))
            /\ data r = if (statusCode r =? 500)%Z
                        then JObject [("message", JString "Server Error")]
                        else JObject [("message", JString (message err));
                                      ("error", JString (name err))])
  end.
Proof.
  intros filename run. subst run filename. unfold storeRoute, tbind.
  destruct (handleRequest _ _ _ _ _) as [t [[url|err]|e]];
    cbn [outcome snd calls fst storeSettled tret call tbind].
  - cbn. split; [now left|]. split.
    + split; [intros _; now exists url|reflexivity].
    + intros Hne. contradiction.
  - destruct err; cbn;
      (split; [intuition|]);
      (split; [split; [discriminate|intros (u & Hu & _); discriminate]|]);
      intros _; eexists; (split; [reflexivity|]);
      (split; [apply in_or_app; right; now left|reflexivity]).
  - reflexivity.
Qed.

(** *** The pattern of the store route *)

Lemma slice_from_append (p s : string) : slice_from (String.length p) (p ++ s) = s.
Proof.
  unfold slice_from. rewrite length_append.
  replace (String.length p + String.length s - String.length p)
    with (String.length s) by lia.
  apply substring_append_rest.
Qed.

Lemma span_spec (p : ascii -> bool) (s : string) :
  forall a b, span p s = (a, b) ->
              s = a ++ b /\ allChars p a = true /\ stopsAt p b.
Proof.
  induction s as [|c s IH]; intros a b; cbn [span].
  - intros [= <- <-]. repeat split.
  - destruct (p c) eqn:Ec.
    + destruct (span p s) as [a' b']. intros [= <- <-].
      destruct (IH a' b' eq_refl) as (-> & Ha & Hb).
      repeat split; [|exact Hb]. unfold allChars. cbn. now rewrite Ec.
    + intros [= <- <-]. repeat split. exact Ec.
Qed.

Lemma span_app (p : ascii -> bool) (a b : string) :
  allChars p a = true -> stopsAt p b -> span p (a ++ b) = (a, b).
Proof.
  unfold allChars. induction a as [|c a IH]; cbn; intros Ha Hb.
  - destruct b as [|d b]; [reflexivity|]. cbn in *. now rewrite Hb.
  - apply andb_true_iff in Ha as [Hc Ha]. now rewrite Hc, IH.
Qed.

Lemma matchStore_sound (url a f : string) :
  matchStore url = Some (a, f) ->
  exists rest,
    url = "/store/" ++ a ++ "/" ++ f ++ rest
    /\ a <> "" /\ allChars isAlnum a = true
    /\ f <> "" /\ allChars isDot f = true
    /\ stopsAt isDot rest.
Proof.
  unfold matchStore.
  destruct (prefix "/store/" url) eqn:Ep; [|discriminate].
  apply HubFacts.prefix_slice in Ep. change (String.length "/store/") with 7 in Ep.
  destruct (span isAlnum (slice_from 7 url)) as [a' r] eqn:Ea.
  apply span_spec in Ea as (Hu & Ha & _).
  destruct a' as [|c0 a']; [discriminate|].
  destruct r as [|c tail]; [discriminate|].
  destruct (Ascii.eqb c "/") eqn:Ec; [|discriminate].
  apply Ascii.eqb_eq in Ec. subst c.
  destruct (span isDot tail) as [f' rest] eqn:Ef.
  apply span_spec in Ef as (Ht & Hf & Hrest).
  destruct f' as [|d0 f']; [discriminate|].
  intros [= <- <-]. exists rest.
  split; [|repeat split; try assumption; discriminate].
  rewrite Ep, Hu, Ht. reflexivity.
Qed.

Lemma matchStore_complete (a f rest : string) :
  a <> "" -> allChars isAlnum a = true ->
  f <> "" -> allChars isDot f = true ->
  stopsAt isDot rest ->
  matchStore ("/store/" ++ a ++ "/" ++ f ++ rest) = Some (a, f).
Proof.
  intros Hane Ha Hfne Hf Hrest. unfold matchStore.
  rewrite (prefix_app "/store/").
  rewrite (slice_from_append "/store/").
  rewrite (span_app isAlnum a ("/" ++ f ++ rest) Ha); [|reflexivity].
  destruct a as [|c0 a]; [contradiction|].
  cbn [append]. cbn [Ascii.eqb Bool.eqb].
  rewrite (span_app isDot f rest Hf Hrest).
  destruct f as [|d0 f]; [contradiction|reflexivity].
Qed.

(** X9.  What the pattern of the store route accepts: a path is matched,
    with address [a] and file name [f], exactly when it is [/store/],
    then [a], a slash and [f], where [a] is a non-empty run of letters and
    digits and [f] a non-empty run of characters other than line
    terminators that ends the path or stops at a line terminator. *)
Theorem matchStore_iff (url a f : string) :
  matchStore url = Some (a, f)
  <-> exists rest,
        url = "/store/" ++ a ++ "/" ++ f ++ rest
        /\ a <> "" /\ allChars isAlnum a = true
        /\ f <> "" /\ allChars isDot f = true
        /\ stopsAt isDot rest.
Proof.
  split.
  - apply matchStore_sound.
  - intros (rest & -> & Hane & Ha & Hfne & Hf & Hrest).
    now apply matchStore_complete.
Qed.

(** A path a client builds, one without file name and one whose address
    holds a dash. *)
Example matchStore_runs :
  matchStore "/store/1A/foo/bar" = Some ("1A", "foo/bar")
  /\ matchStore "/store/1A/" = None
  /\ matchStore "/store/1-A/foo" = None.
Proof. repeat split. Qed.

(** *** The revoke-all route *)

(** X10.  The answers of the revoke-all route.  An exception escapes the
    route exactly when the bump throws it.  Otherwise the status is one of
    202, 400, 401, 403 and 500; it is 400 exactly when the bump was not
    called, and 202 exactly when the promise of the bump is resolved; a
    rejection is answered 401 for a [ValidationError], 403 for a
    [BadPathError] and 500 for every other error.  Once the bump is
    called, its result decides the whole run: an exception escapes and
    nothing is logged or answered; a resolved promise is answered 202 with
    the status [success]; a rejection is logged and then answered, 401 and
    403 with the message and the name of the error, 500 with a fixed
    message. *)
Theorem revokeAllRoute_statuses `{Numbers} `{AuthBump} (req : Request) :
  match outcome (revokeAllRoute req) with
  | Uncaught e =>
      exists t, In (CallHandleAuthBump (params0 req) t) (calls (revokeAllRoute req))
                /\ handleAuthBump (params0 req) t (headers req) = Throw e
  | Responded r =>
      In (statusCode r) [202; 400; 401; 403; 500]%Z
      /\ (statusCode r = 400%Z <-> calls (revokeAllRoute req) = [])
      /\ (statusCode r = 202%Z
          <-> exists t,
                In (CallHandleAuthBump (params0 req) t) (calls (revokeAllRoute req))
                /\ handleAuthBump (params0 req) t (headers req)
                   = Return (Resolved tt))
      /\ (forall err, In (CallLoggerError err) (calls (revokeAllRoute req)) ->
            statusCode r = (if isValidationError err then 401
                            else if isBadPathError err then 403 else 500)%Z)
  end
  /\ (forall t,
        In (CallHandleAuthBump (params0 req) t) (calls (revokeAllRoute req)) ->
        match handleAuthBump (params0 req) t (headers req) with
        | Throw e =>
            revokeAllRoute req
            = ([CallHandleAuthBump (params0 req) t], Uncaught e)
        | Return (Resolved _) =>
            revokeAllRoute req
            = ([CallHandleAuthBump (params0 req) t],
               Responded {| statusCode := 202;
                            data := JObject [("status", JString "success")] |})
        | Return (Rejected err) =>
            revokeAllRoute req
            = ([CallHandleAuthBump (params0 req) t; CallLoggerError err],
               Responded
                 {| statusCode :=
                      if isValidationError err then 401
                      else if isBadPathError err then 403 else 500;
                    data :=
                      if isValidationError err || isBadPathError err
                      then JObject [("message", JString (message err));
                                    ("error", JString (name err))]
                      else JObject [("message", JString "Server Error")] |})
        end).
Proof.
  split.
  - rewrite HttpFacts.revokeAllRoute_unfold.
    destruct (tooLong _);
      [cbn; intuition (try discriminate); destruct H1 as (t & [] & _)|].
    destruct (match oldestValidTimestampOf (body req) with
              | Some v => negb (ToBoolean v)
              | None => true
              end);
      [cbn; intuition (try discriminate); destruct H1 as (t & [] & _)|].
    destruct (negb (Number_isFinite _));
      [cbn; intuition (try discriminate); destruct H1 as (t & [] & _)|].
    set (t := match oldestValidTimestampOf (body req) with
              | Some v => parseInt (ToString v) None
              | None => NaN
              end).
    destruct (handleAuthBump (params0 req) t (headers req)) as [[[]|err]|e] eqn:Eb;
      cbn [outcome snd calls fst].
    + cbn. split; [now left|]. split; [split; discriminate|]. split.
      * split; [intros _; exists t; split; [now left|exact Eb]|reflexivity].
      * intros err [Hin|[]]. discriminate Hin.
    + assert (Hbump : forall t',
                 In (CallHandleAuthBump (params0 req) t')
                    [CallHandleAuthBump (params0 req) t; CallLoggerError err] ->
                 t' = t).
      { intros t' [Hin|[Hin|[]]]; [now injection Hin|discriminate Hin]. }
      destruct err; cbn [revokeCatch isValidationError isBadPathError writeResponse
                         statusCode];
        (split; [cbn; intuition|]);
        (split; [split; discriminate|]);
        (split;
         [split; [discriminate
                 |intros (t' & Hin & Hres); apply Hbump in Hin; subst t';
                  rewrite Eb in Hres; discriminate Hres]
         |intros err' [Hin|[Hin|[]]]; [discriminate Hin|];
          injection Hin as <-; reflexivity]).
    + exists t. split; [now left|exact Eb].
  - intros t' Hin. revert Hin. rewrite HttpFacts.revokeAllRoute_unfold.
    destruct (tooLong _); [intros []|].
    destruct (match oldestValidTimestampOf (body req) with
              | Some v => negb (ToBoolean v)
              | None => true
              end); [intros []|].
    destruct (negb (Number_isFinite _)); [intros []|].
    set (t := match oldestValidTimestampOf (body req) with
              | Some v => parseInt (ToString v) None
              | None => NaN
              end).
    cbn [calls fst]. intros Hin.
    assert (Ht : t' = t).
    { destruct Hin as [Hin|Hin]; [now injection Hin|].
      destruct (handleAuthBump (params0 req) t (headers req)) as [[[]|err]|e];
        [destruct Hin|destruct Hin as [Hin|[]]; discriminate Hin|destruct Hin]. }
    subst t'. clear Hin.
    destruct (handleAuthBump (params0 req) t (headers req)) as [[[]|err]|e];
      [reflexivity| |reflexivity].
    destruct err; reflexivity.
Qed.

End HubMoreFacts.

(** ** The client: keys, connection, upload, bucket *)

Module ClientFacts.
Import Js Wire Client HubMore.

Lemma slice_to_append (key suffix : string) :
  String.length key = 64 -> slice_to 64 (key ++ suffix) = key.
Proof.
  intros Hlen. unfold slice_to. rewrite HubMoreFacts.length_append, Hlen.
  replace (Nat.min 64 (64 + String.length suffix)) with (String.length key) by lia.
  apply HubMoreFacts.substring_0_append.
Qed.

Lemma slice_to_short (key : string) :
  String.length key <= 64 -> slice_to 64 key = key.
Proof.
  intros Hlen. unfold slice_to.
  replace (Nat.min 64 (String.length key)) with (String.length key) by lia.
  apply HubFacts.substring_all.
Qed.

Lemma substring_length (n : nat) (s : string) :
  String.length (substring 0 n s) <= n.
Proof.
  revert s. induction n as [|n IH]; intros [|c s]; cbn; try lia.
  specialize (IH s). lia.
Qed.

Lemma slice_to_idem (key : string) : slice_to 64 (slice_to 64 key) = slice_to 64 key.
Proof.
  apply slice_to_short. unfold slice_to.
  pose proof (substring_length (Nat.min 64 (String.length key)) key). lia.
Qed.

(** Every token built from a key is built from its first 64 characters. *)
Lemma makeAuthToken_slice `{Imports} (hubInfo : HubInfo) (key hubUrl : string)
    (associationToken : option string) :
  makeAuthToken hubInfo (slice_to 64 key) hubUrl associationToken
  = makeAuthToken hubInfo key hubUrl associationToken.
Proof.
  unfold makeAuthToken, makeLegacyAuthToken, makeV1AuthToken.
  now rewrite slice_to_idem.
Qed.

(** X11.  The characters of a secret key past the 64th are ignored: a key
    of 64 characters followed by a suffix (the [01] of a compressed key)
    gives the same legacy, v1 and association tokens, and the same
    connection, as the key alone. *)
Theorem secretKey_suffix_ignored `{ClientImports} (key suffix : string) :
  String.length key = 64 ->
  (forall challengeText,
      makeLegacyAuthToken challengeText (key ++ suffix)
      = makeLegacyAuthToken challengeText key)
  /\ (forall challengeText associationToken hubUrl,
         makeV1AuthToken (key ++ suffix) challengeText associationToken hubUrl
         = makeV1AuthToken key challengeText associationToken hubUrl)
  /\ (forall childPublicKey,
         makeAssociationToken (key ++ suffix) childPublicKey
         = makeAssociationToken key childPublicKey)
  /\ (forall gaiaHubUrl associationToken,
         connectToGaiaHub gaiaHubUrl (key ++ suffix) associationToken
         = connectToGaiaHub gaiaHubUrl key associationToken).
Proof.
  intros Hlen.
  assert (Hs : slice_to 64 (key ++ suffix) = slice_to 64 key).
  { rewrite slice_to_append by exact Hlen. symmetry. apply slice_to_short. lia. }
  repeat split; intros;
    unfold makeLegacyAuthToken, makeV1AuthToken, makeAssociationToken,
           connectToGaiaHub;
    now rewrite Hs.
Qed.

(** The key of the test doubles and its compressed form. *)
Lemma secretKey_suffix_ignored_witness :
  @makeAssociationToken _ _ ClientFixtures.clientImports
    (Fixtures.key64 ++ "01") "child"
  = @makeAssociationToken _ _ ClientFixtures.clientImports Fixtures.key64 "child".
Proof.
  apply (@secretKey_suffix_ignored _ _ ClientFixtures.clientImports
           Fixtures.key64 "01").
  reflexivity.
Defined.

(** X12.  [connectToGaiaHub] sends one request, to [/hub_info] of the hub.
    When its promise is resolved, the configuration names the hub as
    server, carries the read prefix the hub reported, the token
    [makeAuthToken] builds for the reported hub info (a [v1:] token when
    the hub handles v1) and the address of the first 64 characters of the
    key.  A token that cannot be built rejects the promise: nothing is
    thrown. *)
Theorem connectToGaiaHub_result `{ClientImports} (gaiaHubUrl secretKey : string)
    (associationToken : option string) :
  let run := connectToGaiaHub gaiaHubUrl secretKey associationToken in
  fst run = [Fetch (gaiaHubUrl ++ "/hub_info") None]
  /\ (forall config, snd run = Resolved config ->
        server config = gaiaHubUrl
        /\ exists hubInfo,
             fetchHubInfo (gaiaHubUrl ++ "/hub_info") = Resolved hubInfo
             /\ url_prefix config = read_url_prefix hubInfo
             /\ makeAuthToken hubInfo secretKey gaiaHubUrl associationToken
                = Return (token config)
             /\ addressOf (slice_to 64 secretKey) = Return (address config)
             /\ (handlesV1Auth hubInfo = true ->
                 prefix "v1:" (token config) = true))
  /\ (forall hubInfo e,
        fetchHubInfo (gaiaHubUrl ++ "/hub_info") = Resolved hubInfo ->
        makeAuthToken hubInfo secretKey gaiaHubUrl associationToken = Throw e ->
        snd run = Rejected e).
Proof.
  intros run. subst run. unfold connectToGaiaHub. cbn [fst snd].
  split; [reflexivity|]. split.
  - intros config.
    destruct (fetchHubInfo _) as [hubInfo|e]; [|discriminate].
    rewrite makeAuthToken_slice.
    destruct (makeAuthToken hubInfo secretKey gaiaHubUrl associationToken)
      as [tok|e] eqn:Et; [|discriminate].
    destruct (addressOf (slice_to 64 secretKey)) as [addr|e] eqn:Ea; [|discriminate].
    intros [= <-]. cbn. split; [reflexivity|].
    exists hubInfo. do 4 (split; [first [reflexivity|assumption]|]).
    intros Hv1. unfold makeAuthToken in Et. rewrite Hv1 in Et. cbn [negb] in Et.
    unfold makeV1AuthToken in Et.
    destruct (getPublicKeyFromPrivate _) as [pk|]; [|discriminate].
    destruct (TokenSigner_sign _ _) as [s0|]; [|discriminate].
    injection Et as <-. apply (HubMoreFacts.prefix_app "v1:" s0).
  - intros hubInfo e -> Ht. now rewrite makeAuthToken_slice, Ht.
Qed.

(** The connection to the hub of the test doubles resolves, with a v1
    token. *)
Lemma connectToGaiaHub_result_witness :
  exists config,
    snd (@connectToGaiaHub _ _ ClientFixtures.clientImports
           "http://hub" Fixtures.key64 None)
    = Resolved config
    /\ server config = "http://hub"
    /\ url_prefix config = "http://read/"
    /\ prefix "v1:" (token config) = true.
Proof.
  eexists. split; [reflexivity|].
  destruct (proj1 (proj2
              (@connectToGaiaHub_result _ _ ClientFixtures.clientImports
                 "http://hub" Fixtures.key64 None)) _ eq_refl)
    as (Hserver & hubInfo & Hfetch & Hprefix & _ & _ & Hv1).
  split; [exact Hserver|]. split; [reflexivity|].
  apply Hv1. cbn in Hfetch. injection Hfetch as <-. reflexivity.
Defined.

(** X13.  [uploadToGaiaHub] sends one request: a POST to the store path of
    the address and file name on the server of the configuration, with the
    given content type ([application/octet-stream] by default) and the
    token as bearer.  The promise resolves only to the [publicURL] member
    of the body of an [ok] response, and it does resolve for every such
    body but [null], to [undefined] when the body has no such member; a
    response that is not [ok] rejects it with an [Error] that quotes the
    text of the response. *)
Theorem uploadToGaiaHub_result `{ClientImports} (filename : string)
    (contents : Contents) (hubConfig : GaiaHubConfig)
    (contentType : option string) :
  let run := uploadToGaiaHub filename contents hubConfig contentType in
  let storePath := "/store/" ++ address hubConfig ++ "/" ++ filename in
  let init :=
    {| method := "POST";
       headers := [("Content-Type",
                    match contentType with
                    | Some c => c
                    | None => "application/octet-stream"
                    end);
                   ("Authorization", "bearer " ++ token hubConfig)];
       body := contents |} in
  fst run = [Fetch (server hubConfig ++ storePath) (Some init)]
  /\ (forall publicURL, snd run = Resolved publicURL ->
        exists response responseJSON,
          fetch (server hubConfig ++ storePath) init = Resolved response
          /\ ok response = true
          /\ json_ response = Resolved responseJSON
          /\ publicURL = get responseJSON "publicURL")
  /\ (forall response responseJSON,
        fetch (server hubConfig ++ storePath) init = Resolved response ->
        ok response = true ->
        json_ response = Resolved responseJSON ->
        responseJSON <> JNull ->
        snd run = Resolved (get responseJSON "publicURL"))
  /\ (forall response textResponse,
        fetch (server hubConfig ++ storePath) init = Resolved response ->
        ok response = false ->
        text_ response = Resolved textResponse ->
        snd run
        = Rejected (Error ("Failed to upload to Gaia hub:" ++ LF ++ textResponse))).
Proof.
  intros run storePath init. subst run storePath init.
  unfold uploadToGaiaHub. cbn [fst snd].
  split; [reflexivity|]. split; [|split].
  - intros publicURL.
    destruct (fetch _ _) as [response|e]; [|discriminate].
    destruct (ok response) eqn:Eok.
    + destruct (json_ response) as [responseJSON|e] eqn:Ej; [|discriminate].
      intros Hp. exists response, responseJSON.
      repeat split; try assumption.
      unfold publicURLOf in Hp. destruct responseJSON; try discriminate;
        now injection Hp as <-.
    + destruct (text_ response); discriminate.
  - intros response responseJSON -> -> -> Hnull.
    unfold publicURLOf. destruct responseJSON; try reflexivity.
    now contradiction Hnull.
  - intros response textResponse -> -> ->. reflexivity.
Qed.

(** An upload of [foo/bar] for the address [1A] to the hub of the test
    doubles. *)
Lemma uploadToGaiaHub_result_witness :
  exists response responseJSON,
    @fetch _ _ ClientFixtures.clientImports
      "http://hub/store/1A/foo/bar"
      {| method := "POST";
         headers := [("Content-Type", "application/octet-stream");
                     ("Authorization",
                      "bearer " ++ token ClientFixtures.config1A)];
         body := Text "hello" |}
    = Resolved response
    /\ ok response = true
    /\ json_ response = Resolved responseJSON
    /\ Some (JString "http://read/1A/foo/bar") = get responseJSON "publicURL".
Proof.
  apply (proj1 (proj2
           (@uploadToGaiaHub_result _ _ ClientFixtures.clientImports
              "foo/bar" (Text "hello") ClientFixtures.config1A None))
           (Some (JString "http://read/1A/foo/bar"))).
  reflexivity.
Defined.

(** X14.  [getBucketUrl]: with a key that [ECPair.fromPrivateKey] refuses
    the promise is rejected and no request is sent; with a hub
    configuration the bucket URL is its read prefix, the address of the
    key and a slash, and no request is sent; with neither configuration
    nor hub URL the promise is rejected.  The configuration that
    [connectToGaiaHub] resolves to for a key of at most 64 characters
    gives the bucket of the address it holds. *)
Theorem getBucketUrl_result `{ClientImports} (secretKey : string)
    (gaiaHubUrl : option string) :
  (forall e hubConfig,
      ECPair_fromPrivateKey secretKey = Throw e ->
      getBucketUrl secretKey gaiaHubUrl hubConfig = ([], Return (Rejected e)))
  /\ (forall hubConfig address,
        ECPair_fromPrivateKey secretKey = Return tt ->
        addressOf secretKey = Return address ->
        getBucketUrl secretKey gaiaHubUrl (Some hubConfig)
        = ([], Return (Resolved (url_prefix hubConfig ++ address ++ "/"))))
  /\ (forall address,
        ECPair_fromPrivateKey secretKey = Return tt ->
        addressOf secretKey = Return address ->
        gaiaHubUrl = None \/ gaiaHubUrl = Some "" ->
        getBucketUrl secretKey gaiaHubUrl None
        = ([], Return (Rejected
                         (Error "Must supply either hubConfig or gaiaHubUrl"))))
  /\ (forall hubUrl associationToken hubConfig,
        String.length secretKey <= 64 ->
        ECPair_fromPrivateKey secretKey = Return tt ->
        snd (connectToGaiaHub hubUrl secretKey associationToken)
        = Resolved hubConfig ->
        getBucketUrl secretKey gaiaHubUrl (Some hubConfig)
        = ([], Return (Resolved (url_prefix hubConfig ++ address hubConfig ++ "/")))).
Proof.
  split; [|split; [|split]].
  - intros e hubConfig He. unfold getBucketUrl. now rewrite He.
  - intros hubConfig addr Hk Ha. unfold getBucketUrl. now rewrite Hk, Ha.
  - intros addr Hk Ha Hg. unfold getBucketUrl. rewrite Hk, Ha.
    destruct Hg as [-> | ->]; reflexivity.
  - intros hubUrl associationToken hubConfig Hlen Hk.
    unfold connectToGaiaHub. cbn [snd]. rewrite (slice_to_short _ Hlen).
    destruct (fetchHubInfo _) as [hubInfo|e]; [|discriminate].
    destruct (makeAuthToken _ _ _ _) as [tok|e]; [|discriminate].
    destruct (addressOf secretKey) as [addr|e] eqn:Ea; [|discriminate].
    intros [= <-]. unfold getBucketUrl. rewrite Hk, Ea. reflexivity.
Qed.

(** The bucket of the key of the test doubles, from the configuration of
    its connection. *)
Lemma getBucketUrl_result_witness :
  exists hubConfig,
    snd (@connectToGaiaHub _ _ ClientFixtures.clientImports
           "http://hub" Fixtures.key64 None)
    = Resolved hubConfig
    /\ @getBucketUrl _ _ ClientFixtures.clientImports Fixtures.key64 None
         (Some hubConfig)
       = ([], Return (Resolved ("http://read/" ++ address hubConfig ++ "/"))).
Proof.
  eexists. split; [reflexivity|].
  apply (proj2 (proj2 (proj2
           (@getBucketUrl_result _ _ ClientFixtures.clientImports
              Fixtures.key64 None)))
           "http://hub" None).
  - cbn. lia.
  - reflexivity.
  - reflexivity.
Defined.

End ClientFacts.

(** ** ECIES: the shared secret as 32 bytes, and the MAC check *)

Module EciesFacts.
Import Js Encryption Ecies HubMore.
Local Open Scope N_scope.

Lemma hexDigit_lt (c : ascii) (d : N) : hexDigit c = Some d -> d < 16.
Proof.
  unfold hexDigit. destruct (digitValue c) as [z|] eqn:Ez; [|discriminate].
  destruct (z <? 16)%Z eqn:E; [|discriminate].
  intros [= <-]. apply Z.ltb_lt in E.
  assert (0 <= z)%Z.
  { unfold digitValue in Ez.
    repeat match type of Ez with
           | (if ?b then _ else _) = _ => destruct b eqn:?
           end; try discriminate; injection Ez as <-; lia. }
  lia.
Qed.

Lemma to_N_byte_of_N (n : N) : n < 256 -> Byte.to_N (byte_of_N n) = n.
Proof.
  intros Hn. unfold byte_of_N.
  destruct (Byte.of_N n) as [b|] eqn:Eb.
  - now apply Byte.to_of_N.
  - apply Byte.of_N_None_iff in Eb. lia.
Qed.

(** Decoding an even number of hexadecimal digits gives half as many
    bytes, which denote the same number. *)
Lemma Buffer_from_hex_value (k : nat) :
  forall s : string,
    String.length s = (2 * k)%nat ->
    allChars isHex s = true ->
    List.length (Buffer_from_hex s) = k
    /\ forall acc, bigEndian (Buffer_from_hex s) acc = hexValue s acc.
Proof.
  induction k as [|k IH]; intros s Hlen Hhex.
  - destruct s; [|discriminate]. split; reflexivity.
  - destruct s as [|a [|b r]]; try (cbn in Hlen; lia).
    unfold allChars in Hhex. cbn in Hhex.
    apply andb_true_iff in Hhex as [Ha Hhex].
    apply andb_true_iff in Hhex as [Hb Hr].
    unfold isHex in Ha, Hb.
    cbn [Buffer_from_hex hexValue].
    destruct (hexDigit a) as [x|] eqn:Ex; [|discriminate].
    destruct (hexDigit b) as [y|] eqn:Ey; [|discriminate].
    apply hexDigit_lt in Ex, Ey.
    destruct (IH r) as [Hl Hv]; [cbn in Hlen; lia|exact Hr|].
    split; [cbn; now rewrite Hl|].
    intros acc. cbn [bigEndian]. rewrite Hv, to_N_byte_of_N by lia.
    f_equal. lia.
Qed.

Lemma length_zeros (n : nat) : String.length (zeros n) = n.
Proof. induction n; cbn; [reflexivity|now rewrite IHn]. Qed.

Lemma hexValue_zeros (n : nat) (s : string) :
  hexValue (zeros n ++ s) 0 = hexValue s 0.
Proof. induction n as [|n IH]; cbn; [reflexivity|exact IH]. Qed.

Lemma allChars_zeros_append (n : nat) (s : string) :
  allChars isHex s = true -> allChars isHex (zeros n ++ s) = true.
Proof.
  intros Hs. unfold allChars in *. induction n as [|n IH]; cbn; [exact Hs|exact IH].
Qed.

(** X15.  When the library prints a big number in hexadecimal digits,
    [getBufferFromBN] returns, for a numeral of at most 64 digits, a
    buffer of exactly 32 bytes that denotes the same number (shorter
    numerals are padded with leading zeros), and throws for a longer
    numeral. *)
Theorem getBufferFromBN_bytes `{BigNumbers} (bnInput : BN) :
  allChars isHex (BN_toString_hex bnInput) = true ->
  if (String.length (BN_toString_hex bnInput) <=? 64)%nat
  then exists b,
         getBufferFromBN bnInput = Return b
         /\ List.length b = 32%nat
         /\ bigEndian b 0 = hexValue (BN_toString_hex bnInput) 0
  else getBufferFromBN bnInput
       = Throw (Error "Generated a > 32-byte BN for encryption. Failing.").
Proof.
  intros Hhex. unfold getBufferFromBN.
  set (hexOut := BN_toString_hex bnInput) in *.
  destruct (String.length hexOut =? 64)%nat eqn:E64.
  - apply Nat.eqb_eq in E64.
    assert (Hle : (String.length hexOut <=? 64)%nat = true)
      by (apply Nat.leb_le; lia).
    rewrite Hle.
    destruct (Buffer_from_hex_value 32 hexOut) as [Hl Hv]; [lia|exact Hhex|].
    eexists. split; [reflexivity|]. split; [exact Hl|apply Hv].
  - apply Nat.eqb_neq in E64.
    destruct (String.length hexOut <? 64)%nat eqn:Elt.
    + apply Nat.ltb_lt in Elt.
      assert (Hle : (String.length hexOut <=? 64)%nat = true)
        by (apply Nat.leb_le; lia).
      rewrite Hle.
      destruct (Buffer_from_hex_value 32
                  (zeros (64 - String.length hexOut) ++ hexOut)) as [Hl Hv].
      * rewrite HubMoreFacts.length_append, length_zeros. lia.
      * now apply allChars_zeros_append.
      * eexists. split; [reflexivity|]. split; [exact Hl|].
        rewrite Hv. apply hexValue_zeros.
    + apply Nat.ltb_ge in Elt.
      assert (Hle : (String.length hexOut <=? 64)%nat = false)
        by (apply Nat.leb_gt; lia).
      now rewrite Hle.
Qed.

(** The numeral [0a] becomes 31 zero bytes and the byte 10. *)
Lemma getBufferFromBN_bytes_witness :
  exists b,
    @getBufferFromBN EciesFixtures.numerals "0a" = Return b
    /\ List.length b = 32%nat
    /\ bigEndian b 0 = 10.
Proof.
  apply (@getBufferFromBN_bytes EciesFixtures.numerals "0a"). reflexivity.
Defined.

(** The comparison of two buffers decides their equality. *)
Lemma equalConstTime_eq (b1 b2 : Buffer) : equalConstTime b1 b2 = true <-> b1 = b2.
Proof.
  unfold equalConstTime.
  destruct (List.length b1 =? List.length b2)%nat eqn:El; cbn [negb].
  - apply Nat.eqb_eq in El.
    rewrite Z.eqb_eq, (EncryptionFacts.loop_zero b1 b2 _ 0%nat 0%Z) by lia.
    split.
    + intros [_ Hall]. apply nth_error_ext. intros i.
      destruct (Nat.lt_ge_cases i (List.length b1)) as [Hi|Hi].
      * apply EncryptionFacts.at_eq_iff; [lia|lia|]. apply (Hall i Hi).
      * assert (Hi' : (List.length b2 <= i)%nat) by lia.
        apply nth_error_None in Hi, Hi'. congruence.
    + intros ->. split; reflexivity.
  - apply Nat.eqb_neq in El. split; [discriminate|]. intros ->. contradiction.
Qed.

(** X16.  The MAC check of [decryptECIES].  Once the keys, the shared
    secret and the three buffers are obtained, the cipher text is
    decrypted only if the given MAC equals, byte for byte, the HMAC, keyed
    with the bytes of the hash of the shared secret past the 32nd, of the
    initialization vector, the compressed ephemeral key and the cipher
    text; otherwise [decryptECIES] throws the error of the MAC check,
    whatever the cipher would return.  The decryption key is the first 32
    bytes of the hash; the plain text is returned as a string when
    [wasString] is set. *)
Theorem decryptECIES_mac_check `{EciesImports} (privateKey : string)
    (cipherObject : CipherObject) (ecSK : KeyPair) (point : Point)
    (sharedSecret : BN) (secretBuffer ivBuffer cipherTextBuffer expectedMac : Buffer) :
  let enc :=
    match encoding cipherObject with
    | Some e => if (e =? "")%string then "hex" else e
    | None => "hex"
    end in
  keyFromPrivate privateKey enc = Return ecSK ->
  publicPoint (ephemeralPK cipherObject) enc = Return point ->
  derive ecSK point = Return sharedSecret ->
  getBufferFromBN sharedSecret = Return secretBuffer ->
  Buffer_from (iv cipherObject) enc = Return ivBuffer ->
  Buffer_from (cipherText cipherObject) enc = Return cipherTextBuffer ->
  Buffer_from (mac cipherObject) enc = Return expectedMac ->
  let actualMac :=
    hmacSha256 (skipn 32 (sha512 secretBuffer))
      (ivBuffer ++ encodeCompressed point ++ cipherTextBuffer)%list in
  (expectedMac <> actualMac ->
   decryptECIES privateKey cipherObject
   = Throw (Error "Decryption failed: failure in MAC check"))
  /\ (expectedMac = actualMac ->
      decryptECIES privateKey cipherObject
      = match aes256CbcDecrypt ivBuffer (firstn 32 (sha512 secretBuffer))
                cipherTextBuffer with
        | Throw e => Throw e
        | Return plainText =>
            if wasString cipherObject
            then Return (inr (Buffer_toString plainText))
            else Return (inl plainText)
        end).
Proof.
  intros enc Hk Hp Hd Hb Hiv Hct Hmac actualMac.
  unfold decryptECIES. fold enc.
  rewrite Hk. cbn [andThen]. rewrite Hp. cbn [andThen]. rewrite Hd. cbn [andThen].
  rewrite Hb. cbn [andThen]. rewrite Hiv. cbn [andThen]. rewrite Hct.
  cbn [andThen]. rewrite Hmac. cbn [andThen].
  unfold sharedSecretToKeys. cbn [hmacKey encryptionKey]. fold actualMac.
  split.
  - intros Hne.
    destruct (equalConstTime expectedMac actualMac) eqn:E; [|reflexivity].
    apply equalConstTime_eq in E. contradiction.
  - intros Heq. apply equalConstTime_eq in Heq. rewrite Heq. cbn [negb].
    destruct (aes256CbcDecrypt _ _ _); reflexivity.
Qed.

(** On the test doubles the MAC of the cipher object is [00ff]: with it
    the cipher text is returned, with [00fe] the check fails. *)
Lemma decryptECIES_mac_check_witness :
  @decryptECIES _ EciesFixtures.eciesImports "k" (EciesFixtures.cipherObjectWith "00ff")
  = Return (inl [Byte.xff])
  /\ @decryptECIES _ EciesFixtures.eciesImports "k"
       (EciesFixtures.cipherObjectWith "00fe")
     = Throw (Error "Decryption failed: failure in MAC check").
Proof.
  split.
  - apply (proj2 (@decryptECIES_mac_check _ EciesFixtures.eciesImports "k"
                    (EciesFixtures.cipherObjectWith "00ff") "k" "02aa" "0a"
                    _ _ _ _ eq_refl eq_refl eq_refl eq_refl eq_refl eq_refl eq_refl)).
    reflexivity.
  - apply (proj1 (@decryptECIES_mac_check _ EciesFixtures.eciesImports "k"
                    (EciesFixtures.cipherObjectWith "00fe") "k" "02aa" "0a"
                    _ _ _ _ eq_refl eq_refl eq_refl eq_refl eq_refl eq_refl eq_refl)).
    discriminate.
Defined.

End EciesFacts.

(** ** The configuration: merging, the environment, precedence *)

Module ConfigFacts.
Import Js Config ConfigSpec.

Section Merge.
Context `{Numbers}.

(** *** Members of objects *)

Lemma lookup_assign_same (ms : list (string * value)) (k : string) (v : value) :
  lookup k (assign ms k v) = Some v.
Proof.
  induction ms as [|[k' w] ms IH]; cbn.
  - now rewrite String.eqb_refl.
  - destruct (k' =? k) eqn:E; cbn; now rewrite E.
Qed.

Lemma lookup_assign_other (ms : list (string * value)) (k k' : string) (v : value) :
  k <> k' -> lookup k' (assign ms k v) = lookup k' ms.
Proof.
  intros Hne. induction ms as [|[k0 w] ms IH]; cbn.
  - apply String.eqb_neq in Hne. now rewrite Hne.
  - destruct (k0 =? k) eqn:E; cbn.
    + apply String.eqb_eq in E. subst k0.
      apply String.eqb_neq in Hne. now rewrite Hne.
    + now rewrite IH.
Qed.

Lemma lookup_None_keys (ms : list (string * value)) (k : string) :
  lookup k ms = None <-> ~ In k (keys ms).
Proof.
  induction ms as [|[k' w] ms IH]; cbn.
  - tauto.
  - destruct (k' =? k) eqn:E.
    + apply String.eqb_eq in E. split; [discriminate|]. intros Hn.
      exfalso. apply Hn. now left.
    + apply String.eqb_neq in E. rewrite IH. tauto.
Qed.

Lemma keys_assign (ms : list (string * value)) (k : string) (v : value) :
  keys (assign ms k v)
  = match lookup k ms with
    | Some _ => keys ms
    | None => (keys ms ++ [k])%list
    end.
Proof.
  unfold keys. induction ms as [|[k' w] ms IH]; cbn; [reflexivity|].
  destruct (k' =? k) eqn:E; cbn; [reflexivity|].
  rewrite IH. now destruct (lookup k ms).
Qed.

Lemma NoDup_keys_assign (ms : list (string * value)) (k : string) (v : value) :
  NoDup (keys ms) -> NoDup (keys (assign ms k v)).
Proof.
  intros Hnd. rewrite keys_assign.
  destruct (lookup k ms) eqn:E; [exact Hnd|].
  apply lookup_None_keys in E. now apply HubMoreFacts.NoDup_snoc.
Qed.

(** *** Reading and writing a member *)

Lemma write_spec (tms tms' : list (string * value)) (key : string) (v : value) :
  write tms key v = Some tms' ->
  (forall k, key <> k -> lookup k tms' = lookup k tms)
  /\ (NoDup (keys tms) -> NoDup (keys tms'))
  /\ lookup key tms'
     = match lookup key tms with
       | Some _ => Some v
       | None => if key =? "__proto__" then None else Some v
       end.
Proof.
  unfold write. destruct (lookup key tms) as [tv|] eqn:El.
  - intros [= <-]. split; [intros k Hk; now apply lookup_assign_other|].
    split; [apply NoDup_keys_assign|apply lookup_assign_same].
  - destruct (key =? "__proto__").
    + destruct v; try discriminate; intros [= <-]; repeat split; auto.
    + intros [= <-]. split; [intros k Hk; now apply lookup_assign_other|].
      split; [apply NoDup_keys_assign|apply lookup_assign_same].
Qed.

(** *** One round of [deepMerge] *)

(** The step for one member of the source leaves the other members of the
    target alone. *)
Lemma mergeMember_others (merge : value -> value -> option value)
    (key : string) (sv : value) (tms tms' : list (string * value)) :
  mergeMember merge key sv tms = Some tms' ->
  (forall k, key <> k -> lookup k tms' = lookup k tms)
  /\ (NoDup (keys tms) -> NoDup (keys tms')).
Proof.
  unfold mergeMember.
  destruct (isObject sv); [|intros Hw; apply write_spec in Hw; tauto].
  destruct (if falsy (read key tms) then write tms key (VObj []) else Some tms)
    as [tms1|] eqn:E1; [|discriminate].
  assert (H1 : (forall k, key <> k -> lookup k tms1 = lookup k tms)
               /\ (NoDup (keys tms) -> NoDup (keys tms1))).
  { destruct (falsy (read key tms)).
    - apply write_spec in E1. tauto.
    - injection E1 as <-. auto. }
  destruct H1 as [Hother Hnd].
  destruct (read key tms1) as [tv| | |].
  - destruct (merge sv tv) as [merged|]; [|discriminate].
    intros [= <-]. split.
    + intros k Hk. now rewrite lookup_assign_other, Hother.
    + intros Hn. now apply NoDup_keys_assign, Hnd.
  - destruct sv as [| | | | | | |[|m ms]]; try discriminate.
    intros [= <-]. auto.
  - intros [= <-]. auto.
  - intros [= <-]. auto.
Qed.

(** The member the step leaves under the name it handles. *)
Lemma mergeMember_member (key : string) (sv : value)
    (tms : list (string * value)) :
  option_map (lookup key) (mergeMember (fun s t => mergeInto s t) key sv tms)
  = mergedMember key sv (lookup key tms).
Proof.
  unfold mergeMember, mergedMember, read, write, falsy.
  destruct (isObject sv) eqn:Eobj.
  - destruct (lookup key tms) as [tv|] eqn:El.
    + destruct (truthy tv); cbn [negb].
      * rewrite ?El. destruct (mergeInto sv tv) as [merged|]; [|reflexivity].
        cbn. now rewrite lookup_assign_same.
      * rewrite lookup_assign_same.
        destruct (mergeInto sv (VObj [])) as [merged|]; [|reflexivity].
        cbn. now rewrite lookup_assign_same.
    + destruct (key =? "__proto__") eqn:Ep.
      * rewrite ?El, ?Ep.
        destruct sv as [| | | | | | |[|m ms]]; try reflexivity.
        cbn. now rewrite ?El.
      * destruct (isMethodName key) eqn:Em.
        -- rewrite ?El, ?Ep, ?Em. cbn. now rewrite ?El.
        -- rewrite lookup_assign_same.
           destruct (mergeInto sv (VObj [])) as [merged|]; [|reflexivity].
           cbn. now rewrite lookup_assign_same.
  - destruct (lookup key tms) as [tv|] eqn:El.
    + cbn. now rewrite lookup_assign_same.
    + destruct (key =? "__proto__").
      * destruct sv; try reflexivity; cbn; now rewrite ?El.
      * cbn. now rewrite lookup_assign_same.
Qed.

Lemma mergeInto_cons (key : string) (sv : value)
    (rest tms : list (string * value)) :
  mergeInto (VObj ((key, sv) :: rest)) (VObj tms)
  = match mergeMember (fun s t => mergeInto s t) key sv tms with
    | Some tms' => mergeInto (VObj rest) (VObj tms')
    | None => None
    end.
Proof.
  cbn [mergeInto].
  destruct (mergeMember (fun s t => mergeInto s t) key sv tms); reflexivity.
Qed.

(** The members of the target after a round with a well-formed source. *)
Lemma mergeInto_lookup (sms : list (string * value)) :
  NoDup (keys sms) ->
  forall tms result,
    mergeInto (VObj sms) (VObj tms) = Some result ->
    exists rms,
      result = VObj rms
      /\ (NoDup (keys tms) -> NoDup (keys rms))
      /\ forall key,
           match lookup key sms with
           | Some sv => mergedMember key sv (lookup key tms) = Some (lookup key rms)
           | None => lookup key rms = lookup key tms
           end.
Proof.
  induction sms as [|[key sv] rest IH]; intros Hnd tms result.
  - cbn. intros [= <-]. exists tms. repeat split; auto.
  - cbn [keys map fst] in Hnd. inversion Hnd as [|? ? Hnotin Hrest]; subst.
    rewrite mergeInto_cons.
    pose proof (mergeMember_member key sv tms) as Hmember.
    destruct (mergeMember (fun s t => mergeInto s t) key sv tms) as [tms'|] eqn:Es;
      [|discriminate].
    destruct (mergeMember_others _ key sv tms tms' Es) as [Hother Hkeep].
    intros Hr. destruct (IH Hrest tms' result Hr) as (rms & -> & Hnd' & Hl).
    exists rms. split; [reflexivity|]. split; [auto|].
    intros k. specialize (Hl k). cbn [lookup].
    destruct (key =? k) eqn:E.
    + apply String.eqb_eq in E. subst k.
      apply lookup_None_keys in Hnotin. rewrite Hnotin in Hl.
      rewrite Hl. cbn in Hmember. now rewrite <- Hmember.
    + apply String.eqb_neq in E. rewrite (Hother k E) in Hl. exact Hl.
Qed.

(** A round leaves an object an object. *)
Lemma mergeInto_object (source target result : value) :
  mergeInto source target = Some result ->
  isObject target = true -> isObject result = true.
Proof.
  destruct target; try discriminate. intros Hr _.
  destruct source; cbn [mergeInto] in Hr; try (now injection Hr as <-).
  destruct ((fix loop (sms tms : list (string * value)) {struct sms} := _)
              members0 members); [|discriminate].
  now injection Hr as <-.
Qed.

(** A round with a source that lacks [key], or is no object, leaves the
    member of the target under [key] as it was; a round with a source that
    holds a member under [key] leaves what its step leaves. *)
Lemma mergeInto_member (source target result : value) (key : string) :
  wellFormed source -> isObject target = true ->
  mergeInto source target = Some result ->
  match member key source with
  | Some sv => mergedMember key sv (member key target) = Some (member key result)
  | None => member key result = member key target
  end
  /\ (wellFormed target -> wellFormed result).
Proof.
  intros Hwf Ht. destruct target as [| | | | | | |tms]; try discriminate.
  destruct source as [| | | | | | |sms];
    try (intros [= <-]; split; [reflexivity|auto]).
  intros Hr.
  destruct (mergeInto_lookup sms Hwf tms result Hr) as (rms & -> & Hnd & Hl).
  split; [apply Hl|exact Hnd].
Qed.

Lemma mergedMember_scalar (key : string) (sv : value) (tv : option value) :
  isObject sv = false -> key <> "__proto__" ->
  mergedMember key sv tv = Some (Some sv).
Proof.
  unfold mergedMember. intros -> Hkey. apply String.eqb_neq in Hkey.
  rewrite Hkey. now destruct tv.
Qed.

(** A source without a member named [__proto__], however deep, changes no
    prototype. *)
Lemma mergeInto_plain :
  forall source target : value,
    plain source = true -> exists result, mergeInto source target = Some result.
Proof.
  fix IH 1. intros source target Hplain.
  destruct source as [| | | | | | |sms]; try (eexists; reflexivity).
  destruct target as [| | | | | | |tms]; try (eexists; reflexivity).
  revert tms. induction sms as [|[key sv] rest IHrest]; intros tms.
  - eexists. reflexivity.
  - cbn [plain] in Hplain.
    apply andb_prop in Hplain. destruct Hplain as [Hhead Hrest].
    apply andb_prop in Hhead. destruct Hhead as [Hkey Hsv].
    rewrite mergeInto_cons.
    assert (Hstep : exists tms',
              mergeMember (fun s t => mergeInto s t) key sv tms = Some tms').
    { unfold mergeMember, read, write, falsy.
      apply negb_true_iff in Hkey. rewrite Hkey.
      destruct (isObject sv).
      - destruct (lookup key tms) as [tv|] eqn:El.
        + destruct (truthy tv); cbn [negb].
          * rewrite ?El. destruct (IH sv tv Hsv) as [merged ->]. eexists. reflexivity.
          * rewrite lookup_assign_same.
            destruct (IH sv (VObj []) Hsv) as [merged ->]. eexists. reflexivity.
        + destruct (isMethodName key) eqn:Em.
          * rewrite ?El, ?Hkey, ?Em. eexists. reflexivity.
          * rewrite lookup_assign_same.
            destruct (IH sv (VObj []) Hsv) as [merged ->]. eexists. reflexivity.
      - destruct (lookup key tms); eexists; reflexivity. }
    destruct Hstep as [tms' ->]. apply IHrest. exact Hrest.
Qed.

(** *** Objects without a member named [__proto__] *)

Lemma plain_cons (key : string) (v : value) (ms : list (string * value)) :
  plain (VObj ((key, v) :: ms))
  = negb (key =? "__proto__") && plain v && plain (VObj ms).
Proof. reflexivity. Qed.

Lemma plain_lookup (ms : list (string * value)) (key : string) (v : value) :
  plain (VObj ms) = true -> lookup key ms = Some v ->
  plain v = true /\ key <> "__proto__".
Proof.
  induction ms as [|[k w] ms IH]; [discriminate|].
  rewrite plain_cons. intros Hp. apply andb_prop in Hp. destruct Hp as [Hp Hms].
  apply andb_prop in Hp. destruct Hp as [Hk Hw]. cbn [lookup].
  destruct (k =? key) eqn:E.
  - apply String.eqb_eq in E. subst k. intros [= <-]. split; [exact Hw|].
    intros ->. discriminate Hk.
  - now apply IH.
Qed.

Lemma plain_assign (ms : list (string * value)) (key : string) (v : value) :
  plain (VObj ms) = true -> key <> "__proto__" -> plain v = true ->
  plain (VObj (assign ms key v)) = true.
Proof.
  intros Hms Hkey Hv. apply String.eqb_neq in Hkey.
  induction ms as [|[k w] ms IH]; cbn [assign].
  - rewrite plain_cons, Hkey, Hv. reflexivity.
  - rewrite plain_cons in Hms. apply andb_prop in Hms. destruct Hms as [Hp Hrest].
    apply andb_prop in Hp. destruct Hp as [Hk Hw].
    destruct (k =? key); rewrite plain_cons.
    + now rewrite Hk, Hv, Hrest.
    + now rewrite Hk, Hw, IH.
Qed.

Lemma plain_delete (ms : list (string * value)) (key : string) :
  plain (VObj ms) = true -> plain (VObj (delete ms key)) = true.
Proof.
  induction ms as [|[k w] ms IH]; [reflexivity|].
  rewrite plain_cons. intros Hms. apply andb_prop in Hms. destruct Hms as [Hp Hrest].
  cbn [delete]. destruct (k =? key); [now apply IH|].
  rewrite plain_cons, Hp. now apply IH.
Qed.

Lemma write_plain (tms tms' : list (string * value)) (key : string) (v : value) :
  plain (VObj tms) = true -> plain v = true ->
  write tms key v = Some tms' -> plain (VObj tms') = true.
Proof.
  intros Hp Hv. unfold write. destruct (lookup key tms) as [tv|] eqn:El.
  - intros [= <-]. destruct (plain_lookup tms key tv Hp El) as [_ Hkey].
    now apply plain_assign.
  - destruct (key =? "__proto__") eqn:Ek.
    + destruct v; try discriminate; now intros [= <-].
    + intros [= <-]. apply String.eqb_neq in Ek. now apply plain_assign.
Qed.

(** A round adds no member named [__proto__] to the target. *)
Lemma mergeInto_keeps_plain :
  forall source target result : value,
    plain target = true -> mergeInto source target = Some result ->
    plain result = true.
Proof.
  fix IH 1. intros source target result Hplain.
  destruct source as [| | | | | | |sms]; try (now intros [= <-]).
  destruct target as [| | | | | | |tms]; try (now intros [= <-]).
  revert tms Hplain result.
  induction sms as [|[key sv] rest IHrest]; intros tms Hplain result.
  - now intros [= <-].
  - rewrite mergeInto_cons.
    destruct (mergeMember (fun s t => mergeInto s t) key sv tms) as [tms'|] eqn:Es;
      [|discriminate].
    apply IHrest. revert Es. unfold mergeMember.
    destruct (isObject sv) eqn:Eobj.
    + destruct (if falsy (read key tms) then write tms key (VObj []) else Some tms)
        as [tms1|] eqn:E1; [|discriminate].
      assert (H1 : plain (VObj tms1) = true).
      { destruct (falsy (read key tms)).
        - now apply (write_plain tms tms1 key (VObj [])).
        - now injection E1 as <-. }
      unfold read. destruct (lookup key tms1) as [tv|] eqn:El.
      * destruct (plain_lookup tms1 key tv H1 El) as [Htv Hkey].
        destruct (mergeInto sv tv) as [merged|] eqn:Em; [|discriminate].
        intros [= <-]. apply plain_assign; [exact H1|exact Hkey|].
        exact (IH sv tv merged Htv Em).
      * destruct (key =? "__proto__").
        -- destruct sv as [| | | | | | |[|m ms]]; try discriminate.
           now intros [= <-].
        -- destruct (isMethodName key); now intros [= <-].
    + intros Hw. apply (write_plain tms tms' key sv Hplain); [|exact Hw].
      destruct sv; try reflexivity. discriminate Eobj.
Qed.

Lemma deepMerge_keeps_plain (sources : list value) :
  forall target result,
    plain target = true -> deepMerge target sources = Some result ->
    plain result = true.
Proof.
  induction sources as [|s l IH]; intros target result Hp; cbn [deepMerge].
  - now intros [= <-].
  - destruct (mergeInto s target) as [merged|] eqn:Em; [|discriminate].
    apply IH. now apply (mergeInto_keeps_plain s target).
Qed.

(** *** Several rounds *)

Lemma deepMerge_app (target : value) (before after : list value) :
  deepMerge target (before ++ after)%list
  = match deepMerge target before with
    | Some merged => deepMerge merged after
    | None => None
    end.
Proof.
  revert target. induction before as [|s l IH]; intros target; [reflexivity|].
  rewrite <- app_comm_cons. cbn [deepMerge].
  destruct (mergeInto s target); [apply IH|reflexivity].
Qed.

Lemma deepMerge_object (target : value) (sources : list value) (result : value) :
  deepMerge target sources = Some result ->
  isObject target = true -> isObject result = true.
Proof.
  revert target. induction sources as [|s l IH]; intros target; cbn [deepMerge].
  - now intros [= <-].
  - destruct (mergeInto s target) as [merged|] eqn:Em; [|discriminate].
    intros Hr Ht. apply (IH merged Hr). now apply (mergeInto_object s target).
Qed.

Lemma deepMerge_wellFormed (target : value) (sources : list value)
    (result : value) :
  deepMerge target sources = Some result ->
  isObject target = true -> wellFormed target ->
  Forall wellFormed sources ->
  wellFormed result.
Proof.
  revert target. induction sources as [|s l IH]; intros target; cbn [deepMerge].
  - now intros [= <-].
  - destruct (mergeInto s target) as [merged|] eqn:Em; [|discriminate].
    intros Hr Ht Hwf Hall. inversion Hall as [|? ? Hs Hl]; subst.
    apply (IH merged Hr); [now apply (mergeInto_object s target)| |exact Hl].
    now apply (mergeInto_member s target merged EmptyString).
Qed.

(** Sources that lack a name leave the member of this name alone. *)
Lemma deepMerge_untouched (target : value) (sources : list value) (key : string)
    (result : value) :
  deepMerge target sources = Some result ->
  isObject target = true ->
  Forall (fun s => wellFormed s /\ member key s = None) sources ->
  member key result = member key target.
Proof.
  revert target. induction sources as [|s l IH]; intros target; cbn [deepMerge].
  - now intros [= <-].
  - destruct (mergeInto s target) as [merged|] eqn:Em; [|discriminate].
    intros Hr Ht Hall. inversion Hall as [|? ? [Hwf Hnone] Hl]; subst.
    rewrite (IH merged Hr); [|now apply (mergeInto_object s target)|exact Hl].
    destruct (mergeInto_member s target merged key Hwf Ht Em) as [Hm _].
    now rewrite Hnone in Hm.
Qed.

Lemma deepMerge_plain (sources : list value) :
  forallb plain sources = true ->
  forall target, exists result, deepMerge target sources = Some result.
Proof.
  induction sources as [|s l IH]; intros Hplain target; cbn [deepMerge].
  - eexists. reflexivity.
  - cbn in Hplain. apply andb_prop in Hplain. destruct Hplain as [Hs Hl].
    destruct (mergeInto_plain s target Hs) as [merged ->]. now apply IH.
Qed.

(** X17 (deepMerge): of the sources that hold a value other than an object
    under a name, the last one wins: when a source holds such a value [v]
    under [key] and no later source has a member [key], the merged
    configuration holds [v] under [key], whatever the target and the
    earlier sources held there.  This is so for every name but
    [__proto__], and as long as the merge changes no prototype, which no
    source without a member named [__proto__] does. *)
Theorem deepMerge_last_source_wins (target source : value)
    (before after : list value) (key : string) (v : value) :
  isObject target = true ->
  wellFormed source ->
  member key source = Some v ->
  isObject v = false ->
  key <> "__proto__" ->
  Forall (fun s => wellFormed s /\ member key s = None) after ->
  (forall result,
     deepMerge target (before ++ source :: after) = Some result ->
     member key result = Some v)
  /\ (forallb plain (before ++ source :: after) = true ->
      exists result, deepMerge target (before ++ source :: after) = Some result).
Proof.
  intros Ht Hwf Hv Hscalar Hkey Hafter. split; [|intros Hp; now apply deepMerge_plain].
  intros result. rewrite deepMerge_app.
  destruct (deepMerge target before) as [t1|] eqn:E1; [|discriminate].
  cbn [deepMerge].
  destruct (mergeInto source t1) as [t2|] eqn:E2; [|discriminate].
  intros Hr.
  pose proof (deepMerge_object target before t1 E1 Ht) as Hobj1.
  pose proof (mergeInto_object source t1 t2 E2 Hobj1) as Hobj2.
  rewrite (deepMerge_untouched t2 after key result Hr Hobj2 Hafter).
  destruct (mergeInto_member source t1 t2 key Hwf Hobj1 E2) as [Hm _].
  rewrite Hv, (mergedMember_scalar key v _ Hscalar Hkey) in Hm.
  now injection Hm as <-.
Qed.

(** X18 (deepMerge): the purpose the code states for merging deeply.  When
    the target and a source both hold an object under [field], the merged
    configuration holds an object there in which every member of the
    source's object that is not itself an object (and is not named
    [__proto__]) has the source's value, and every name the source's
    object lacks keeps what the target's object held: setting
    [{ field: { subfield: foo } }] does not remove
    [{ field: { subfieldOther: bar } }].  This is so as long as the merge
    changes no prototype, which no source without a member named
    [__proto__] does. *)
Theorem deepMerge_keeps_subfields (target source : value) (field : string)
    (tsub ssub : list (string * value)) :
  isObject target = true ->
  wellFormed source ->
  member field target = Some (VObj tsub) ->
  member field source = Some (VObj ssub) ->
  NoDup (keys ssub) ->
  (forall result,
     deepMerge target [source] = Some result ->
     exists rsub,
       member field result = Some (VObj rsub)
       /\ (forall sub, lookup sub ssub = None -> lookup sub rsub = lookup sub tsub)
       /\ (forall sub v, lookup sub ssub = Some v -> isObject v = false ->
                         sub <> "__proto__" -> lookup sub rsub = Some v))
  /\ (plain source = true ->
      exists result, deepMerge target [source] = Some result).
Proof.
  intros Ht Hwf Htf Hsf Hnd. split.
  - intros result. cbn [deepMerge].
    destruct (mergeInto source target) as [merged|] eqn:Em; [|discriminate].
    intros [= <-].
    destruct (mergeInto_member source target merged field Hwf Ht Em) as [Hm _].
    rewrite Hsf, Htf in Hm. unfold mergedMember in Hm. cbn [isObject truthy] in Hm.
    destruct (mergeInto (VObj ssub) (VObj tsub)) as [inner|] eqn:Ei;
      [|discriminate].
    cbn in Hm. injection Hm as Hm.
    destruct (mergeInto_lookup ssub Hnd tsub inner Ei) as (rsub & -> & _ & Hl).
    exists rsub. split; [now symmetry|]. split.
    + intros sub Hnone. specialize (Hl sub). now rewrite Hnone in Hl.
    + intros sub v Hsome Hscalar Hsub. specialize (Hl sub).
      rewrite Hsome, (mergedMember_scalar sub v _ Hscalar Hsub) in Hl.
      now injection Hl as <-.
  - intros Hp. apply deepMerge_plain. cbn. now rewrite Hp.
Qed.

(** X19 (deepMerge): an object of a source does not replace a value of the
    target that is truthy and not an object (a text, a number other than
    zero, [true], an array): the merged configuration keeps the target's
    value under this name, and nothing of the source's object arrives.
    This is so as long as the merge changes no prototype, which no source
    without a member named [__proto__] does. *)
Theorem deepMerge_object_does_not_replace (target source : value)
    (field : string) (t sv : value) :
  isObject target = true ->
  wellFormed source ->
  member field target = Some t ->
  truthy t = true ->
  isObject t = false ->
  member field source = Some sv ->
  isObject sv = true ->
  (forall result,
     deepMerge target [source] = Some result -> member field result = Some t)
  /\ (plain source = true ->
      exists result, deepMerge target [source] = Some result).
Proof.
  intros Ht Hwf Htf Htruthy Hscalar Hsf Hobj. split.
  - intros result. cbn [deepMerge].
    destruct (mergeInto source target) as [merged|] eqn:Em; [|discriminate].
    intros [= <-].
    destruct (mergeInto_member source target merged field Hwf Ht Em) as [Hm _].
    rewrite Hsf, Htf in Hm. unfold mergedMember in Hm. rewrite Hobj, Htruthy in Hm.
    destruct sv; try discriminate.
    destruct t; try discriminate; cbn in Hm; now injection Hm as <-.
  - intros Hp. apply deepMerge_plain. cbn. now rewrite Hp.
Qed.

(** X25 (deepMerge): the names an object inherits.  A member of a source
    named [__proto__] does not arrive in a target that has no member of
    this name; an object of a source under the name of a method of
    [Object.prototype] ([constructor], [toString], ...) is dropped when
    the target has no member of this name, since the inherited function
    stands in its place, while a value that is no object is stored under
    such a name as under any other.  This is so as long as the merge
    changes no prototype. *)
Theorem deepMerge_inherited_names (target source : value) (key : string)
    (sv : value) (result : value) :
  isObject target = true ->
  wellFormed source ->
  member key source = Some sv ->
  member key target = None ->
  deepMerge target [source] = Some result ->
  (key = "__proto__" -> member key result = None)
  /\ (isMethodName key = true -> isObject sv = true -> member key result = None)
  /\ (isMethodName key = true -> isObject sv = false ->
      member key result = Some sv).
Proof.
  intros Ht Hwf Hsf Htf. cbn [deepMerge].
  destruct (mergeInto source target) as [merged|] eqn:Em; [|discriminate].
  intros [= <-].
  destruct (mergeInto_member source target merged key Hwf Ht Em) as [Hm _].
  rewrite Hsf, Htf in Hm. unfold mergedMember in Hm.
  split; [|split].
  - intros ->. cbn [String.eqb Ascii.eqb Bool.eqb] in Hm.
    destruct (isObject sv).
    + destruct sv as [| | | | | | |[|m ms]]; try discriminate Hm.
      now injection Hm as <-.
    + destruct sv; try discriminate Hm; now injection Hm as <-.
  - intros Hmethod Hobj. rewrite Hobj in Hm.
    assert (Hp : (key =? "__proto__") = false).
    { destruct (key =? "__proto__") eqn:E; [|reflexivity].
      apply String.eqb_eq in E. subst key. discriminate Hmethod. }
    rewrite Hp, Hmethod in Hm. now injection Hm as <-.
  - intros Hmethod Hscalar.
    assert (Hp : key <> "__proto__").
    { intros ->. discriminate Hmethod. }
    fold (mergedMember key sv None) in Hm.
    rewrite (mergedMember_scalar key sv None Hscalar Hp) in Hm.
    now injection Hm as <-.
Qed.

End Merge.

(** *** The environment *)

Section Environment.
Context `{Numbers}.

Lemma variableOf_None (name : string) (envVars : list (string * string)) :
  ~ In name (map fst envVars) -> variableOf name envVars = None.
Proof.
  induction envVars as [|[n ev] rest IH]; cbn; [reflexivity|].
  intros Hn. destruct (n =? name) eqn:E.
  - apply String.eqb_eq in E. tauto.
  - apply IH. tauto.
Qed.

Lemma variableOf_In (name envVar : string) (envVars : list (string * string)) :
  NoDup (map fst envVars) -> In (name, envVar) envVars ->
  variableOf name envVars = Some envVar.
Proof.
  induction envVars as [|[n ev] rest IH]; cbn; [tauto|].
  intros Hnd [[= -> ->]|Hin].
  - now rewrite String.eqb_refl.
  - inversion Hnd as [|? ? Hnotin Hrest]; subst.
    destruct (n =? name) eqn:E.
    + apply String.eqb_eq in E. subst n. exfalso. apply Hnotin.
      now apply (in_map fst) in Hin.
    + now apply IH.
Qed.

Lemma envValue_Throw (name envVar s : string) (e : Errors.error) :
  envValue name envVar s = Errors.Throw e ->
  indexed parseInts name = true
  /\ parseInt s None = NaN
  /\ e = Errors.Error ("Passed a non-number input to: " ++ envVar).
Proof.
  unfold envValue. destruct (indexed parseInts name); [|].
  - destruct (parseInt s None) eqn:E; cbn; try discriminate.
    intros [= <-]. repeat split.
  - destruct (indexed parseLists name); discriminate.
Qed.

Lemma envValue_scalar (name envVar s : string) (v : value) :
  envValue name envVar s = Errors.Return v -> isObject v = false.
Proof.
  unfold envValue. destruct (indexed parseInts name).
  - destruct (isNaN (parseInt s None)); [discriminate|]. now intros [= <-].
  - destruct (indexed parseLists name); now intros [= <-].
Qed.

Lemma getConfigEnv_loop_spec (env : string -> option string)
    (envVars : list (string * string)) :
  NoDup (map fst envVars) ->
  forall (acc : list (string * value)) (logged : list string),
    NoDup (keys acc) ->
    match snd (getConfigEnv_loop env envVars acc logged) with
    | Errors.Return configEnv =>
        exists ms,
          configEnv = VObj ms
          /\ NoDup (keys ms)
          /\ fst (getConfigEnv_loop env envVars acc logged)
             = (logged ++ settings env envVars)%list
          /\ (forall name,
               lookup name ms
               = match variableOf name envVars with
                 | Some envVar =>
                     match envMember env name envVar with
                     | Some v => Some v
                     | None => lookup name acc
                     end
                 | None => lookup name acc
                 end)
          /\ (forall name envVar s,
               In (name, envVar) envVars -> env envVar = Some s -> s <> "" ->
               exists v, envValue name envVar s = Errors.Return v)
    | Errors.Throw e =>
        exists name envVar s,
          In (name, envVar) envVars
          /\ env envVar = Some s /\ s <> ""
          /\ envValue name envVar s = Errors.Throw e
    end.
Proof.
  induction envVars as [|[n ev] rest IH]; intros Hnd acc logged Hacc.
  - cbn. exists acc. repeat split; auto; [now rewrite app_nil_r|tauto].
  - cbn [map fst] in Hnd. inversion Hnd as [|? ? Hnotin Hrest]; subst.
    match goal with
    | |- ?G => assert (Hskip : (forall s, env ev = Some s -> s = "") -> G)
    end.
    { intros Hunset.
      assert (Hmem : envMember env n ev = None).
      { unfold envMember. destruct (env ev) as [s|]; [|reflexivity].
        now rewrite (Hunset s eq_refl). }
      assert (Hset : settings env ((n, ev) :: rest) = settings env rest).
      { unfold settings. cbn [flat_map snd].
        destruct (env ev) as [s|]; [|reflexivity].
        now rewrite (Hunset s eq_refl). }
      assert (Hloop : getConfigEnv_loop env ((n, ev) :: rest) acc logged
                      = getConfigEnv_loop env rest acc logged).
      { cbn [getConfigEnv_loop]. destruct (env ev) as [s|]; [|reflexivity].
        now rewrite (Hunset s eq_refl). }
      rewrite Hloop, Hset.
      specialize (IH Hrest acc logged Hacc).
      destruct (snd (getConfigEnv_loop env rest acc logged)) as [cfg|e].
      - destruct IH as (ms & -> & Hms & Hlog & Hl & Hret).
        exists ms. split; [reflexivity|]. split; [exact Hms|].
        split; [exact Hlog|]. split.
        + intros name. rewrite Hl. cbn [variableOf].
          destruct (n =? name) eqn:E; [|reflexivity].
          apply String.eqb_eq in E. subst name.
          now rewrite (variableOf_None n rest Hnotin), Hmem.
        + intros name envVar s [[= <- <-]|Hin] Hev Hne.
          * now apply Hunset in Hev.
          * now apply (Hret name envVar s).
      - destruct IH as (name & envVar & s & Hin & Hev & Hne & Hthrow).
        exists name, envVar, s. repeat split; auto. now right. }
    destruct (env ev) as [s|] eqn:Eenv; [|apply Hskip; discriminate].
    destruct (s =? "") eqn:Es.
    { apply Hskip. intros s' [= <-]. now apply String.eqb_eq. }
    clear Hskip. cbn [getConfigEnv_loop]. rewrite Eenv, Es.
    destruct (envValue n ev s) as [v|e] eqn:Ev.
    + specialize (IH Hrest (assign acc n v) (logged ++ [s])%list
                     (NoDup_keys_assign acc n v Hacc)).
      destruct (snd (getConfigEnv_loop env rest (assign acc n v)
                       (logged ++ [s])%list)) as [cfg|e].
      * destruct IH as (ms & -> & Hms & Hlog & Hl & Hret).
        exists ms. split; [reflexivity|]. split; [exact Hms|]. split; [|split].
        -- rewrite Hlog. unfold settings. cbn [flat_map snd].
           rewrite Eenv, Es. now rewrite <- app_assoc.
        -- intros name. rewrite Hl. cbn [variableOf].
           destruct (n =? name) eqn:E.
           ++ apply String.eqb_eq in E. subst name.
              rewrite (variableOf_None n rest Hnotin).
              rewrite lookup_assign_same.
              unfold envMember. now rewrite Eenv, Es, Ev.
           ++ apply String.eqb_neq in E.
              now rewrite (lookup_assign_other acc n name v E).
        -- intros name envVar s' [[= <- <-]|Hin] Hev Hne.
           ++ rewrite Eenv in Hev. injection Hev as <-. now exists v.
           ++ now apply (Hret name envVar s').
      * destruct IH as (name & envVar & s' & Hin & Hev & Hne & Hthrow).
        exists name, envVar, s'. repeat split; auto. now right.
    + cbn [snd]. exists n, ev, s. repeat split; auto.
      * now left.
      * now apply String.eqb_neq.
Qed.

(** X20 (getConfigEnv): what is read of the environment.  When it returns,
    the result is an object that holds, for every name of [envVars] whose
    variable is set and not empty, the value made of the variable's text,
    and no other member: a variable that is unset or empty leaves its name
    out; and the text of every such variable has been written with
    [console.log], in the order of [envVars].  It throws exactly for a name
    of [parseInts] whose text [parseInt] does not read as a number, with an
    [Error] that names the variable. *)
Theorem getConfigEnv_members (env : string -> option string)
    (envVars : list (string * string)) :
  NoDup (map fst envVars) ->
  match snd (getConfigEnv env envVars) with
  | Errors.Return configEnv =>
      isObject configEnv = true
      /\ wellFormed configEnv
      /\ fst (getConfigEnv env envVars) = settings env envVars
      /\ (forall name,
           member name configEnv
           = match variableOf name envVars with
             | Some envVar => envMember env name envVar
             | None => None
             end)
      /\ (forall name envVar s,
           In (name, envVar) envVars -> env envVar = Some s -> s <> "" ->
           exists v, envValue name envVar s = Errors.Return v
                     /\ member name configEnv = Some v)
  | Errors.Throw e =>
      exists name envVar s,
        In (name, envVar) envVars
        /\ env envVar = Some s /\ s <> ""
        /\ indexed parseInts name = true
        /\ parseInt s None = NaN
        /\ e = Errors.Error ("Passed a non-number input to: " ++ envVar)
  end.
Proof.
  intros Hnd. unfold getConfigEnv.
  pose proof (getConfigEnv_loop_spec env envVars Hnd [] [] (NoDup_nil _)) as Hspec.
  destruct (snd (getConfigEnv_loop env envVars [] [])) as [cfg|e].
  - destruct Hspec as (ms & -> & Hms & Hlog & Hl & Hret).
    assert (Hmember : forall name,
      member name (VObj ms)
      = match variableOf name envVars with
        | Some envVar => envMember env name envVar
        | None => None
        end).
    { intros name. cbn [member]. rewrite Hl. cbn [lookup].
      destruct (variableOf name envVars) as [envVar|]; [|reflexivity].
      now destruct (envMember env name envVar). }
    split; [reflexivity|]. split; [exact Hms|]. split; [exact Hlog|].
    split; [exact Hmember|].
    intros name envVar s Hin Hev Hne.
    destruct (Hret name envVar s Hin Hev Hne) as [v Hv].
    exists v. split; [exact Hv|].
    rewrite Hmember, (variableOf_In name envVar envVars Hnd Hin).
    unfold envMember. rewrite Hev, Hv.
    apply String.eqb_neq in Hne. now rewrite Hne.
  - destruct Hspec as (name & envVar & s & Hin & Hev & Hne & Hthrow).
    apply envValue_Throw in Hthrow. destruct Hthrow as (Hint & Hnan & ->).
    exists name, envVar, s. repeat split; auto.
Qed.

(** *** Lists in the environment *)

Lemma trimEnd_idem (s : string) : trimEnd (trimEnd s) = trimEnd s.
Proof.
  induction s as [|c r IH]; [reflexivity|].
  cbn [trimEnd]. destruct (trimEnd r) as [|d r'] eqn:E.
  - destruct (isWhiteSpace c) eqn:Ec; [reflexivity|].
    cbn [trimEnd]. now rewrite Ec.
  - cbn [trimEnd]. cbn [trimEnd] in IH. now rewrite IH.
Qed.

Lemma trimStart_headed (s : string) : headed (trimStart s).
Proof.
  induction s as [|c r IH]; cbn; [exact I|].
  destruct (isWhiteSpace c) eqn:E; [exact IH|exact E].
Qed.

Lemma trimStart_of_headed (s : string) : headed s -> trimStart s = s.
Proof. destruct s as [|c r]; cbn; [reflexivity|]. now intros ->. Qed.

Lemma trimEnd_headed (s : string) : headed s -> headed (trimEnd s).
Proof.
  destruct s as [|c r]; cbn [headed trimEnd]; [exact id|].
  intros Hc. destruct (trimEnd r); rewrite ?Hc; exact Hc.
Qed.

Lemma trim_idem (s : string) : trim (trim s) = trim s.
Proof.
  unfold trim.
  rewrite (trimStart_of_headed (trimEnd (trimStart s)))
    by apply trimEnd_headed, trimStart_headed.
  apply trimEnd_idem.
Qed.

Lemma commas_trimStart (s : string) : (commas (trimStart s) <= commas s)%nat.
Proof.
  induction s as [|c r IH]; cbn [trimStart]; [apply Nat.le_refl|].
  destruct (isWhiteSpace c); [|apply Nat.le_refl].
  cbn [commas]. lia.
Qed.

Lemma commas_trimEnd (s : string) : (commas (trimEnd s) <= commas s)%nat.
Proof.
  induction s as [|c r IH]; cbn [trimEnd]; [apply Nat.le_refl|].
  destruct (trimEnd r) as [|d r'].
  - destruct (isWhiteSpace c); cbn [commas] in *; lia.
  - cbn [commas] in *. lia.
Qed.

Lemma commaFree_trim (s : string) : commaFree s -> commaFree (trim s).
Proof.
  unfold commaFree, trim. intros Hs.
  pose proof (commas_trimEnd (trimStart s)).
  pose proof (commas_trimStart s). lia.
Qed.

Lemma split_comma_spec (s : string) :
  List.length (split_comma s) = S (commas s)
  /\ Forall commaFree (split_comma s).
Proof.
  induction s as [|c r [IHl IHf]]; cbn [split_comma commas].
  - split; [reflexivity|]. repeat constructor.
  - destruct (Ascii.eqb c ",") eqn:E.
    + split; [cbn; now rewrite IHl|]. constructor; [reflexivity|exact IHf].
    + destruct (split_comma r) as [|first others]; [discriminate|].
      split; [exact IHl|].
      inversion IHf as [|? ? Hfirst Hothers]; subst.
      constructor; [|exact Hothers].
      unfold commaFree in *. cbn [commas]. now rewrite E.
Qed.

(** X21 (getConfigEnv): how a list is read of the environment.  For a name
    of [parseLists], the text of the variable becomes an array of texts with
    one entry more than the text has commas (empty entries are kept), and
    every entry is free of commas and trimmed: trimming it again changes
    nothing. *)
Theorem envValue_list (name envVar s : string) :
  indexed parseLists name = true ->
  exists entries,
    envValue name envVar s = Errors.Return (VArr (map VStr entries))
    /\ List.length entries = S (commas s)
    /\ Forall (fun e => commaFree e /\ trim e = e) entries.
Proof.
  intros Hlist.
  assert (Hint : indexed parseInts name = false).
  { unfold indexed, parseLists, parseInts in *. cbn [existsb] in *.
    repeat match goal with
    | Hl : (?x =? name) || _ = true |- _ =>
        apply Bool.orb_true_iff in Hl; destruct Hl as [Hl|Hl];
        [apply String.eqb_eq in Hl; subst name; reflexivity|]
    end. discriminate. }
  exists (map trim (split_comma s)).
  unfold envValue. rewrite Hint, Hlist.
  destruct (split_comma_spec s) as [Hlen Hfree].
  split; [now rewrite map_map|]. split; [now rewrite length_map|].
  apply Forall_map. revert Hfree. apply Forall_impl.
  intros e He. split; [now apply commaFree_trim|apply trim_idem].
Qed.

End Environment.

(** *** The configuration as a whole *)

Section GetConfig.
Context `{Numbers} {system : System}.

Lemma lookup_delete_same (ms : list (string * value)) (k : string) :
  lookup k (delete ms k) = None.
Proof.
  induction ms as [|[k' w] ms IH]; cbn; [reflexivity|].
  destruct (k' =? k) eqn:E; [exact IH|]. cbn. now rewrite E.
Qed.

Lemma lookup_delete_other (ms : list (string * value)) (k k' : string) :
  k <> k' -> lookup k' (delete ms k) = lookup k' ms.
Proof.
  intros Hne. induction ms as [|[k0 w] ms IH]; cbn; [reflexivity|].
  destruct (k0 =? k) eqn:E; cbn.
  - apply String.eqb_eq in E. subst k0.
    apply String.eqb_neq in Hne. now rewrite Hne.
  - now rewrite IH.
Qed.

Lemma NoDup_keys_delete (ms : list (string * value)) (k : string) :
  NoDup (keys ms) -> NoDup (keys (delete ms k)).
Proof.
  induction ms as [|[k0 w] ms IH]; cbn; [auto|].
  intros Hnd. inversion Hnd as [|? ? Hnotin Hrest]; subst.
  destruct (k0 =? k) eqn:E; [now apply IH|].
  cbn. constructor; [|now apply IH].
  intros Hin. apply Hnotin. apply lookup_None_keys in Hnotin.
  apply String.eqb_neq in E.
  destruct (lookup k0 (delete ms k)) eqn:El.
  - rewrite (lookup_delete_other ms k k0) in El by congruence. congruence.
  - apply lookup_None_keys in El. contradiction.
Qed.

Lemma wellFormed_configDefaults : wellFormed configDefaults.
Proof. cbn. repeat constructor; cbn; intuition discriminate. Qed.

Lemma NoDup_globalEnvVars : NoDup (map fst globalEnvVars).
Proof. cbn. repeat constructor; cbn; intuition discriminate. Qed.

Lemma globalEnvVars_names (name envVar : string) :
  In (name, envVar) globalEnvVars -> name <> "__proto__".
Proof.
  intros Hin ->. cbn in Hin.
  repeat (destruct Hin as [Hin|Hin]; [discriminate Hin|]). exact Hin.
Qed.

(** The renaming keeps an object well formed and touches two names only. *)
Lemma renameServername_spec (configJSON renamed : value) :
  renameServername configJSON = Errors.Return renamed ->
  (wellFormed configJSON -> wellFormed renamed)
  /\ (forall name, name <> "servername" -> name <> "serverName" ->
        member name renamed = member name configJSON)
  /\ (forall v, member "servername" configJSON = Some v -> truthy v = true ->
        match member "serverName" configJSON with
        | Some w => truthy w = false
        | None => True
        end ->
        member "serverName" renamed = Some v)
  /\ (forall v, member "servername" configJSON = Some v -> truthy v = true ->
        member "servername" renamed = None).
Proof.
  destruct configJSON as [| | | | | | |ms]; cbn [renameServername];
    try discriminate;
    try (intros [= <-]; repeat split; auto; cbn; discriminate).
  destruct (lookup "servername" ms) as [sn|] eqn:Esn;
    [|intros [= <-]; repeat split; auto; cbn [member]; rewrite Esn; discriminate].
  destruct (truthy sn) eqn:Et;
    [|intros [= <-]; repeat split; auto; cbn [member]; rewrite Esn;
      intros v [= <-]; congruence].
  intros [= <-]. cbn [member wellFormed]. split; [|split; [|split]].
  - intros Hnd. apply NoDup_keys_delete.
    destruct (missing "serverName" ms); [now apply NoDup_keys_assign|exact Hnd].
  - intros name Hn1 Hn2.
    rewrite lookup_delete_other by congruence.
    destruct (missing "serverName" ms); [|reflexivity].
    now rewrite lookup_assign_other by congruence.
  - intros v Hv _ Hmissing. rewrite Esn in Hv. injection Hv as <-.
    rewrite lookup_delete_other by discriminate.
    unfold missing. destruct (lookup "serverName" ms) as [w|].
    + rewrite Hmissing. cbn [negb]. apply lookup_assign_same.
    + apply lookup_assign_same.
  - intros v _ _. apply lookup_delete_same.
Qed.

(** Three sources merged into a fresh object: the last source that holds
    a value other than an object under a name decides. *)
Lemma deepMerge_three (a b c result : value) (name : string) (v : value) :
  wellFormed a -> wellFormed b -> wellFormed c ->
  isObject v = false ->
  name <> "__proto__" ->
  member name c = Some v
  \/ (member name c = None /\ member name b = Some v) ->
  deepMerge (VObj []) [a; b; c] = Some result ->
  member name result = Some v
  /\ wellFormed result.
Proof.
  intros Ha Hb Hc Hv Hname Hcase Hr. split.
  - cbn [deepMerge] in Hr.
    destruct (mergeInto a (VObj [])) as [t1|] eqn:E1; [|discriminate].
    destruct (mergeInto b t1) as [t2|] eqn:E2; [|discriminate].
    destruct (mergeInto c t2) as [t3|] eqn:E3; [|discriminate].
    injection Hr as <-.
    pose proof (mergeInto_object a (VObj []) t1 E1 eq_refl) as Hobj1.
    pose proof (mergeInto_object b t1 t2 E2 Hobj1) as Hobj2.
    destruct (mergeInto_member c t2 t3 name Hc Hobj2 E3) as [Hm3 _].
    destruct Hcase as [Hcv|[Hcn Hbv]].
    + rewrite Hcv, (mergedMember_scalar name v _ Hv Hname) in Hm3.
      now injection Hm3 as <-.
    + rewrite Hcn in Hm3. rewrite Hm3.
      destruct (mergeInto_member b t1 t2 name Hb Hobj1 E2) as [Hm2 _].
      rewrite Hbv, (mergedMember_scalar name v _ Hv Hname) in Hm2.
      now injection Hm2 as <-.
  - apply (deepMerge_wellFormed (VObj []) [a; b; c]);
      [exact Hr|reflexivity|constructor|].
    repeat constructor; assumption.
Qed.

(** What the driver may not do to a name for the configuration of the
    environment and of the file to decide it: set it through its own
    variables of the environment. *)
Lemma getConfig_member (logged : list string) (config : value) :
  getConfig = (logged, Some (Errors.Return config)) ->
  wellFormed readConfigJSON ->
  exists configJSON configENV,
    renameServername readConfigJSON = Errors.Return configJSON
    /\ getConfigEnv process_env globalEnvVars = (logged, Errors.Return configENV)
    /\ forall name v,
         name <> "__proto__" ->
         (forall driver info,
            getConfigInformation driver = Errors.Return info ->
            wellFormed (envVars info) /\ member name (envVars info) = None) ->
         isObject v = false ->
         member name configENV = Some v
         \/ (member name configENV = None /\ member name configJSON = Some v) ->
         member name config = Some v.
Proof.
  unfold getConfig. intros Hget Hfile.
  destruct (renameServername readConfigJSON) as [cj|e] eqn:Ern; [|discriminate].
  destruct (getConfigEnv process_env globalEnvVars) as [lg [cenv|e]] eqn:Eenv;
    [|discriminate].
  exists cj, cenv. 
  assert (Hcj : wellFormed cj)
    by (now apply (renameServername_spec readConfigJSON cj Ern)).
  assert (Hcenv : wellFormed cenv).
  { pose proof (getConfigEnv_loop_spec process_env globalEnvVars
                  NoDup_globalEnvVars [] [] (NoDup_nil _)) as Hspec.
    unfold getConfigEnv in Eenv. rewrite Eenv in Hspec. cbn [snd] in Hspec.
    destruct Hspec as (ms & -> & Hms & _). exact Hms. }
  destruct (deepMerge (VObj []) [configDefaults; cj; cenv]) as [configGlobal|]
    eqn:Eglobal; [|discriminate].
  assert (Hglobal : forall name v, name <> "__proto__" -> isObject v = false ->
            member name cenv = Some v
            \/ (member name cenv = None /\ member name cj = Some v) ->
            member name configGlobal = Some v /\ wellFormed configGlobal).
  { intros name v Hname Hv Hcase.
    apply (deepMerge_three configDefaults cj cenv); auto.
    apply wellFormed_configDefaults. }
  destruct (driverOf configGlobal) as [driver|] eqn:Edriver.
  - destruct (truthy driver) eqn:Etruthy.
    + destruct (getConfigInformation driver) as [info|e] eqn:Einfo;
        [|discriminate].
      destruct (deepMerge (VObj []) [defaults info; configGlobal; envVars info])
        as [merged|] eqn:Emerged; [|discriminate].
      cbn [option_map] in Hget. injection Hget as <- <-. split; [reflexivity|].
      split; [reflexivity|].
      intros name v Hname Hdriver Hv Hcase.
      destruct (Hglobal name v Hname Hv Hcase) as [Hmember Hwf].
      destruct (Hdriver driver info Einfo) as [Hwfe Hnone].
      cbn [deepMerge] in Emerged.
      destruct (mergeInto (defaults info) (VObj [])) as [t1|] eqn:E1;
        [|discriminate].
      destruct (mergeInto configGlobal t1) as [t2|] eqn:E2; [|discriminate].
      destruct (mergeInto (envVars info) t2) as [t3|] eqn:E3; [|discriminate].
      injection Emerged as <-.
      pose proof (mergeInto_object _ (VObj []) t1 E1 eq_refl) as Hobj1.
      pose proof (mergeInto_object _ t1 t2 E2 Hobj1) as Hobj2.
      destruct (mergeInto_member (envVars info) t2 t3 name Hwfe Hobj2 E3)
        as [Hm3 _].
      rewrite Hnone in Hm3. rewrite Hm3.
      destruct (mergeInto_member configGlobal t1 t2 name Hwf Hobj1 E2)
        as [Hm2 _].
      rewrite Hmember, (mergedMember_scalar name v _ Hv Hname) in Hm2.
      now injection Hm2 as <-.
    + injection Hget as <- <-. split; [reflexivity|]. split; [reflexivity|].
      intros name v Hname _ Hv Hcase. now apply Hglobal.
  - injection Hget as <- <-. split; [reflexivity|]. split; [reflexivity|].
    intros name v Hname _ Hv Hcase. now apply Hglobal.
Qed.

Lemma variableOf_Some_In (name envVar : string)
    (envVars : list (string * string)) :
  variableOf name envVars = Some envVar -> In (name, envVar) envVars.
Proof.
  induction envVars as [|[n ev] rest IH]; cbn; [discriminate|].
  destruct (n =? name) eqn:E.
  - apply String.eqb_eq in E. subst n. intros [= ->]. now left.
  - intros Hv. right. now apply IH.
Qed.

(** What [getConfigEnv] returned holds nothing under a name whose variable
    is unset or empty. *)
Lemma getConfigEnv_unset (logged : list string) (configENV : value)
    (name : string) :
  getConfigEnv process_env globalEnvVars = (logged, Errors.Return configENV) ->
  (forall envVar s, In (name, envVar) globalEnvVars ->
     process_env envVar = Some s -> s = "") ->
  member name configENV = None.
Proof.
  intros Eenv Hunset.
  pose proof (getConfigEnv_loop_spec process_env globalEnvVars
                NoDup_globalEnvVars [] [] (NoDup_nil _)) as Hspec.
  unfold getConfigEnv in Eenv. rewrite Eenv in Hspec. cbn [snd] in Hspec.
  destruct Hspec as (ms & -> & _ & _ & Hl & _).
  cbn [member]. rewrite Hl. cbn [lookup].
  destruct (variableOf name globalEnvVars) as [envVar|] eqn:Ev; [|reflexivity].
  apply variableOf_Some_In in Ev.
  unfold envMember. destruct (process_env envVar) as [s|] eqn:Es; [|reflexivity].
  now rewrite (Hunset envVar s Ev Es).
Qed.

(** X22 (getConfig): the environment takes precedence.  When [getConfig]
    returns, a name of [globalEnvVars] whose variable is set and not empty
    has in the configuration the value made of the variable's text,
    whatever the file and the defaults say, unless the driver sets the name
    through variables of its own.  A run in which a merge changes a
    prototype, as a member named [__proto__] in the file can make it, is
    no run that returns here. *)
Theorem getConfig_environment_wins (logged : list string) (config : value)
    (name envVar s : string) :
  getConfig = (logged, Some (Errors.Return config)) ->
  wellFormed readConfigJSON ->
  In (name, envVar) globalEnvVars ->
  process_env envVar = Some s ->
  s <> "" ->
  (forall driver info,
     getConfigInformation driver = Errors.Return info ->
     wellFormed (envVars info) /\ member name (envVars info) = None) ->
  exists v,
    envValue name envVar s = Errors.Return v
    /\ member name config = Some v.
Proof.
  intros Hget Hfile Hin Hset Hne Hdriver.
  destruct (getConfig_member logged config Hget Hfile)
    as (cj & cenv & Hrn & Eenv & Hall).
  pose proof (getConfigEnv_loop_spec process_env globalEnvVars
                NoDup_globalEnvVars [] [] (NoDup_nil _)) as Hspec.
  pose proof Eenv as Eenv'.
  unfold getConfigEnv in Eenv'. rewrite Eenv' in Hspec. cbn [snd] in Hspec.
  destruct Hspec as (ms & -> & _ & _ & Hl & Hret).
  destruct (Hret name envVar s Hin Hset Hne) as [v Hv].
  exists v. split; [exact Hv|].
  apply Hall;
    [now apply (globalEnvVars_names name envVar)
    |exact Hdriver
    |now apply (envValue_scalar name envVar s)|].
  left. cbn [member]. rewrite Hl.
  rewrite (variableOf_In name envVar globalEnvVars NoDup_globalEnvVars Hin).
  unfold envMember. rewrite Hset, Hv.
  apply String.eqb_neq in Hne. now rewrite Hne.
Qed.

(** X23 (getConfig): the file takes precedence over the defaults.  When
    [getConfig] returns, a name (other than [servername], [serverName] and
    [__proto__]) under which the parsed file holds a value that is not an
    object, and whose variable of the environment is unset or empty, has
    the file's value in the configuration, whatever the defaults of the
    hub and of the driver say, unless the driver sets the name through
    variables of its own.  A run in which a merge changes a prototype is
    no run that returns here. *)
Theorem getConfig_file_wins (logged : list string) (config : value)
    (name : string) (v : value) :
  getConfig = (logged, Some (Errors.Return config)) ->
  wellFormed readConfigJSON ->
  name <> "servername" ->
  name <> "serverName" ->
  name <> "__proto__" ->
  member name readConfigJSON = Some v ->
  isObject v = false ->
  (forall envVar s, In (name, envVar) globalEnvVars ->
     process_env envVar = Some s -> s = "") ->
  (forall driver info,
     getConfigInformation driver = Errors.Return info ->
     wellFormed (envVars info) /\ member name (envVars info) = None) ->
  member name config = Some v.
Proof.
  intros Hget Hfile Hn1 Hn2 Hn3 Hv Hscalar Hunset Hdriver.
  destruct (getConfig_member logged config Hget Hfile)
    as (cj & cenv & Hrn & Eenv & Hall).
  apply Hall; [exact Hn3|exact Hdriver|exact Hscalar|].
  right. split; [now apply (getConfigEnv_unset logged)|].
  destruct (renameServername_spec readConfigJSON cj Hrn) as (_ & Hsame & _).
  now rewrite Hsame.
Qed.

(** X24 (getConfig): the old spelling of the server's name.  When the
    parsed file holds a truthy value that is not an object under
    [servername] and nothing truthy under [serverName], and
    [GAIA_SERVER_NAME] is unset or empty, the configuration holds this
    value under [serverName], not the default.  A run in which a merge
    changes a prototype is no run that returns here. *)
Theorem getConfig_servername (logged : list string) (config v : value) :
  getConfig = (logged, Some (Errors.Return config)) ->
  wellFormed readConfigJSON ->
  member "servername" readConfigJSON = Some v ->
  truthy v = true ->
  isObject v = false ->
  match member "serverName" readConfigJSON with
  | Some w => truthy w = false
  | None => True
  end ->
  (forall s, process_env "GAIA_SERVER_NAME" = Some s -> s = "") ->
  (forall driver info,
     getConfigInformation driver = Errors.Return info ->
     wellFormed (envVars info) /\ member "serverName" (envVars info) = None) ->
  member "serverName" config = Some v.
Proof.
  intros Hget Hfile Hv Htruthy Hscalar Hmissing Hunset Hdriver.
  destruct (getConfig_member logged config Hget Hfile)
    as (cj & cenv & Hrn & Eenv & Hall).
  apply Hall; [discriminate|exact Hdriver|exact Hscalar|].
  right. split.
  - apply (getConfigEnv_unset logged); [exact Eenv|].
    intros envVar s Hin. cbn in Hin.
    repeat (destruct Hin as [Hin|Hin]; [try discriminate|]);
      [|contradiction].
    injection Hin as <-. apply Hunset.
  - destruct (renameServername_spec readConfigJSON cj Hrn) as (_ & _ & Hname & _).
    now apply Hname.
Qed.

Lemma renameServername_plain (configJSON renamed : value) :
  renameServername configJSON = Errors.Return renamed ->
  plain configJSON = true -> plain renamed = true.
Proof.
  destruct configJSON as [| | | | | | |ms]; cbn [renameServername];
    try discriminate; try (now intros [= <-]).
  destruct (lookup "servername" ms) as [sn|] eqn:Esn; [|now intros [= <-]].
  destruct (truthy sn); [|now intros [= <-]].
  intros [= <-] Hp. apply plain_delete.
  destruct (missing "serverName" ms); [|exact Hp].
  apply plain_assign; [exact Hp|discriminate|].
  now apply (plain_lookup ms "servername").
Qed.

Lemma envValue_plain (name envVar s : string) (v : value) :
  envValue name envVar s = Errors.Return v -> plain v = true.
Proof.
  intros Hv. apply envValue_scalar in Hv. now destruct v.
Qed.

Lemma getConfigEnv_loop_plain (env : string -> option string)
    (envVars : list (string * string)) :
  (forall name envVar, In (name, envVar) envVars -> name <> "__proto__") ->
  forall (acc : list (string * value)) (logged : list string) (configEnv : value),
    plain (VObj acc) = true ->
    snd (getConfigEnv_loop env envVars acc logged) = Errors.Return configEnv ->
    plain configEnv = true.
Proof.
  induction envVars as [|[n ev] rest IH]; intros Hnames acc logged configEnv Hacc.
  - cbn. now intros [= <-].
  - assert (Hrest : forall name envVar, In (name, envVar) rest ->
                      name <> "__proto__")
      by (intros name envVar Hin; apply (Hnames name envVar); now right).
    cbn [getConfigEnv_loop].
    destruct (env ev) as [s|]; [|now apply IH].
    destruct (s =? ""); [now apply IH|].
    destruct (envValue n ev s) as [v|e] eqn:Ev; [|discriminate].
    apply IH; [exact Hrest|].
    apply plain_assign; [exact Hacc| |now apply (envValue_plain n ev s)].
    apply (Hnames n ev). now left.
Qed.

(** X26 (getConfig): no member named [__proto__], no change of a
    prototype.  When the parsed file holds no member named [__proto__],
    however deep, and neither do the two objects the driver gives,
    [getConfig] changes no prototype: it returns a configuration or throws
    (for a variable that is no number, for the driver), and the
    configuration it returns has no member named [__proto__] either. *)
Theorem getConfig_changes_no_prototype :
  plain readConfigJSON = true ->
  (forall driver info,
     getConfigInformation driver = Errors.Return info ->
     plain (defaults info) = true /\ plain (envVars info) = true) ->
  exists outcome,
    snd getConfig = Some outcome
    /\ forall config, outcome = Errors.Return config -> plain config = true.
Proof.
  intros Hfile Hdriver. unfold getConfig.
  destruct (renameServername readConfigJSON) as [cj|e] eqn:Ern;
    [|eexists; split; [reflexivity|discriminate]].
  pose proof (renameServername_plain _ _ Ern Hfile) as Hcj.
  destruct (getConfigEnv process_env globalEnvVars) as [lg [cenv|e]] eqn:Eenv;
    [|eexists; split; [reflexivity|discriminate]].
  assert (Hcenv : plain cenv = true).
  { apply (getConfigEnv_loop_plain process_env globalEnvVars
             globalEnvVars_names [] []); [reflexivity|].
    unfold getConfigEnv in Eenv. now rewrite Eenv. }
  assert (Hsources : forallb plain [configDefaults; cj; cenv] = true).
  { cbn [forallb]. rewrite Hcj, Hcenv. reflexivity. }
  destruct (deepMerge_plain _ Hsources (VObj [])) as [configGlobal Eglobal].
  rewrite Eglobal.
  pose proof (deepMerge_keeps_plain _ (VObj []) _ eq_refl Eglobal) as Hglobal.
  assert (Hdone : exists outcome,
            snd (lg, Some (Errors.Return configGlobal)) = Some outcome
            /\ forall config, outcome = Errors.Return config ->
                              plain config = true).
  { eexists. split; [reflexivity|]. now intros config [= <-]. }
  destruct (driverOf configGlobal) as [driver|]; [|exact Hdone].
  destruct (truthy driver); [|exact Hdone].
  destruct (getConfigInformation driver) as [info|e] eqn:Einfo;
    [|eexists; split; [reflexivity|discriminate]].
  destruct (Hdriver driver info Einfo) as [Hd He].
  assert (Hsources' :
            forallb plain [defaults info; configGlobal; envVars info] = true).
  { cbn [forallb]. rewrite Hd, Hglobal, He. reflexivity. }
  destruct (deepMerge_plain _ Hsources' (VObj [])) as [merged Emerged].
  rewrite Emerged. cbn [option_map snd].
  eexists. split; [reflexivity|].
  intros config [= <-]. exact (deepMerge_keeps_plain _ (VObj []) _ eq_refl Emerged).
Qed.

End GetConfig.

(** On concrete configurations. *)

Section Runs.
Local Existing Instance Fixtures.integers.

Lemma deepMerge_last_source_wins_witness :
  exists result,
    @deepMerge Fixtures.integers (VObj [])
      ([configDefaults]
         ++ VObj [("port", VInt (Num 8080)); ("bucket", VStr "b")]
         :: [VObj [("bucket", VStr "c")]])
    = Some result
    /\ member "port" result = Some (VInt (Num 8080)).
Proof.
  destruct (@deepMerge_last_source_wins Fixtures.integers (VObj [])
              (VObj [("port", VInt (Num 8080)); ("bucket", VStr "b")])
              [configDefaults] [VObj [("bucket", VStr "c")]]
              "port" (VInt (Num 8080)))
    as [Hwins Hreturns].
  - reflexivity.
  - cbn. repeat constructor; cbn; intuition discriminate.
  - reflexivity.
  - reflexivity.
  - discriminate.
  - repeat constructor; cbn; intuition discriminate.
  - destruct (Hreturns eq_refl) as [result Hresult].
    exists result. split; [exact Hresult|now apply Hwins].
Defined.

Lemma deepMerge_keeps_subfields_witness :
  exists result rsub,
    @deepMerge Fixtures.integers configDefaults
      [VObj [("argsTransport", VObj [("level", VStr "debug")])]]
    = Some result
    /\ member "argsTransport" result = Some (VObj rsub)
    /\ lookup "level" rsub = Some (VStr "debug")
    /\ lookup "json" rsub = Some (VBool false).
Proof.
  destruct (@deepMerge_keeps_subfields Fixtures.integers configDefaults
              (VObj [("argsTransport", VObj [("level", VStr "debug")])])
              "argsTransport"
              [("level", VStr "warn");
               ("handleExceptions", VBool true);
               ("timestamp", VBool true);
               ("stringify", VBool true);
               ("colorize", VBool true);
               ("json", VBool false)]
              [("level", VStr "debug")])
    as [Hkeeps Hreturns].
  - reflexivity.
  - cbn. repeat constructor; cbn; intuition discriminate.
  - reflexivity.
  - reflexivity.
  - cbn. repeat constructor; cbn; intuition discriminate.
  - destruct (Hreturns eq_refl) as [result Hresult].
    destruct (Hkeeps result Hresult) as (rsub & Hfield & Hkept & Hset).
    exists result, rsub. split; [exact Hresult|]. split; [exact Hfield|].
    split.
    + apply Hset; [reflexivity|reflexivity|discriminate].
    + rewrite Hkept; reflexivity.
Defined.

Lemma deepMerge_object_does_not_replace_witness :
  exists result,
    @deepMerge Fixtures.integers configDefaults
      [VObj [("bucket", VObj [("name", VStr "b")])]]
    = Some result
    /\ member "bucket" result = Some (VStr "hub").
Proof.
  destruct (@deepMerge_object_does_not_replace Fixtures.integers configDefaults
              (VObj [("bucket", VObj [("name", VStr "b")])])
              "bucket" (VStr "hub") (VObj [("name", VStr "b")]))
    as [Hkeeps Hreturns].
  - reflexivity.
  - cbn. repeat constructor; cbn; intuition discriminate.
  - reflexivity.
  - reflexivity.
  - reflexivity.
  - reflexivity.
  - reflexivity.
  - destruct (Hreturns eq_refl) as [result Hresult].
    exists result. split; [exact Hresult|now apply Hkeeps].
Defined.

(** A file that names an object [constructor] and a text [toString]. *)
Lemma deepMerge_inherited_names_witness :
  member "constructor"
    (VObj [("toString", VStr "text"); ("port", VInt (Num 4000))])
  = None
  /\ member "toString"
       (VObj [("toString", VStr "text"); ("port", VInt (Num 4000))])
     = Some (VStr "text").
Proof.
  split.
  - apply (proj1 (proj2
             (@deepMerge_inherited_names Fixtures.integers (VObj [])
                (VObj [("constructor", VObj [("name", VStr "x")]);
                       ("toString", VStr "text");
                       ("port", VInt (Num 4000))])
                "constructor" (VObj [("name", VStr "x")])
                (VObj [("toString", VStr "text"); ("port", VInt (Num 4000))])
                eq_refl
                ltac:(cbn; repeat constructor; cbn; intuition discriminate)
                eq_refl eq_refl
                ltac:(lazy -[Fixtures.integers]; reflexivity))));
      reflexivity.
  - apply (proj2 (proj2
             (@deepMerge_inherited_names Fixtures.integers (VObj [])
                (VObj [("constructor", VObj [("name", VStr "x")]);
                       ("toString", VStr "text");
                       ("port", VInt (Num 4000))])
                "toString" (VStr "text")
                (VObj [("toString", VStr "text"); ("port", VInt (Num 4000))])
                eq_refl
                ltac:(cbn; repeat constructor; cbn; intuition discriminate)
                eq_refl eq_refl
                ltac:(lazy -[Fixtures.integers]; reflexivity))));
      reflexivity.
Defined.

Local Existing Instance ConfigFixtures.system.

Lemma getConfigEnv_members_witness :
  match snd (getConfigEnv ConfigFixtures.environment globalEnvVars) with
  | Errors.Return configEnv =>
      isObject configEnv = true
      /\ wellFormed configEnv
      /\ fst (getConfigEnv ConfigFixtures.environment globalEnvVars)
         = settings ConfigFixtures.environment globalEnvVars
      /\ (forall name,
           member name configEnv
           = match variableOf name globalEnvVars with
             | Some envVar => envMember ConfigFixtures.environment name envVar
             | None => None
             end)
      /\ (forall name envVar s,
           In (name, envVar) globalEnvVars ->
           ConfigFixtures.environment envVar = Some s -> s <> "" ->
           exists v, envValue name envVar s = Errors.Return v
                     /\ member name configEnv = Some v)
  | Errors.Throw e =>
      exists name envVar s,
        In (name, envVar) globalEnvVars
        /\ ConfigFixtures.environment envVar = Some s /\ s <> ""
        /\ indexed parseInts name = true
        /\ parseInt s None = NaN
        /\ e = Errors.Error ("Passed a non-number input to: " ++ envVar)
  end.
Proof.
  apply (getConfigEnv_members ConfigFixtures.environment globalEnvVars).
  cbn. repeat constructor; cbn; intuition discriminate.
Defined.

Lemma envValue_list_witness :
  exists entries,
    envValue "whitelist" "GAIA_WHITELIST" "1abc, 1def"
    = Errors.Return (VArr (map VStr entries))
    /\ List.length entries = S (commas "1abc, 1def")
    /\ Forall (fun e => commaFree e /\ trim e = e) entries.
Proof.
  apply (envValue_list "whitelist" "GAIA_WHITELIST" "1abc, 1def").
  reflexivity.
Defined.

Lemma getConfig_environment_wins_witness :
  exists v,
    envValue "port" "GAIA_PORT" "8080" = Errors.Return v
    /\ member "port" ConfigFixtures.configured = Some v.
Proof.
  apply (getConfig_environment_wins ConfigFixtures.logged
           ConfigFixtures.configured "port" "GAIA_PORT" "8080").
  - lazy -[Fixtures.integers]. reflexivity.
  - cbn. repeat constructor; cbn; intuition discriminate.
  - cbn. tauto.
  - reflexivity.
  - discriminate.
  - intros driver info [= <-]. split; [constructor|reflexivity].
Defined.

Lemma getConfig_file_wins_witness :
  member "bucket" ConfigFixtures.configured = Some (VStr "files").
Proof.
  apply (getConfig_file_wins ConfigFixtures.logged).
  - lazy -[Fixtures.integers]. reflexivity.
  - cbn. repeat constructor; cbn; intuition discriminate.
  - discriminate.
  - discriminate.
  - discriminate.
  - reflexivity.
  - reflexivity.
  - intros envVar s Hin. cbn in Hin.
    repeat (destruct Hin as [Hin|Hin]; [try discriminate|]);
      [|contradiction].
    injection Hin as <-. discriminate.
  - intros driver info [= <-]. split; [constructor|reflexivity].
Defined.

Lemma getConfig_servername_witness :
  member "serverName" ConfigFixtures.configured = Some (VStr "hub-1").
Proof.
  apply (getConfig_servername ConfigFixtures.logged).
  - lazy -[Fixtures.integers]. reflexivity.
  - cbn. repeat constructor; cbn; intuition discriminate.
  - reflexivity.
  - reflexivity.
  - reflexivity.
  - exact I.
  - discriminate.
  - intros driver info [= <-]. split; [constructor|reflexivity].
Defined.

Lemma getConfig_changes_no_prototype_witness :
  exists outcome,
    snd getConfig = Some outcome
    /\ forall config, outcome = Errors.Return config -> plain config = true.
Proof.
  apply getConfig_changes_no_prototype.
  - lazy -[Fixtures.integers]. reflexivity.
  - intros driver info [= <-]. split; reflexivity.
Defined.

End Runs.

End ConfigFacts.
